(** * MGNREGA dashboard: the fetch-and-aggregate cycle of [App.jsx]

    A shallow embedding of [toNumber] and [fetchData] (the per-year fetch
    helper, row normalisation, grouping by district, the visible district
    filter, the expenditure sort and the insight summary), of the chart
    data, of the handlers that start a cycle (the district input and
    [detectLocation]) and of the check of the OTP page, followed by the
    properties the specification states about them and by further
    properties of the code.

    JavaScript numbers are IEEE-754 binary64 values.  They are modelled by
    the [spec_float] type of the standard library, instantiated at
    precision 53 and maximal exponent 1024, so that rounding, the signed
    zeros, the infinities and NaN behave as they do in the browser.

    Strings are modelled by [string], a text being held as its UTF-8
    bytes.  White space is that of the language: the ASCII one, the
    Unicode space separators, the line and paragraph separators and the
    byte order mark.  Case mapping is the ASCII one, the bytes above 127
    being carried through unchanged, so that the embedding follows the
    code on ASCII district names.

    Exceptions are explicit: an evaluation returns [Ok] or [Throw], and
    the asynchronous [fetchData] is a function from the component state
    to an outcome and a new state, its [await]s run in sequence. *)

From Stdlib Require Import ZArith List String Ascii Bool Lia Permutation Sorted.
From Stdlib Require Import Zpower.
From Stdlib Require Import DecimalString.
From Stdlib Require Import Floats.SpecFloat.
Import ListNotations.

Local Open Scope string_scope.
Local Open Scope list_scope.
Local Open Scope Z_scope.

(* ===================================================================== *)
(** * Numbers *)
(* ===================================================================== *)

Module Num.

Definition prec : Z := 53.
Definition emax : Z := 1024.

Definition number := spec_float.

Definition NaN : number := S754_nan.
Definition Infinity : number := S754_infinity false.
Definition zero : number := S754_zero false.

Definition add : number -> number -> number := SFadd prec emax.
Definition sub : number -> number -> number := SFsub prec emax.
Definition div : number -> number -> number := SFdiv prec emax.

(** [isNaN] *)
Definition isNaN (x : number) : bool :=
  match x with S754_nan => true | _ => false end.

(** [a < b], [a >= b]: false as soon as one side is NaN. *)
Definition lt (a b : number) : bool := SFltb a b.
Definition ge (a b : number) : bool := SFleb b a.

(** A number is well formed when it is one of the binary64 values. *)
Definition valid (x : number) : bool := valid_binary prec emax x.

(** The number nearest to an integer (ties to even); exact below 2^53. *)
Definition of_Z (z : Z) : number := binary_normalize prec emax z 0 false.

(** The integer part of a number (0 for the infinities and NaN). *)
Definition to_Z (x : number) : Z :=
  match x with
  | S754_finite s m e =>
      let a := if 0 <=? e then Zpos m * 2 ^ e else Zpos m / 2 ^ (- e) in
      if s then - a else a
  | _ => 0
  end.

(** The number nearest to [m * 10^e10], for [0 <= m]; [neg] is the sign.
    For a negative decimal exponent the quotient [m / 10^(-e10)] is
    computed with its remainder position and rounded once. *)
Definition of_decimal (neg : bool) (m : Z) (e10 : Z) : number :=
  match m with
  | Z0 => S754_zero neg
  | Zneg _ => S754_nan
  | Zpos p =>
      match e10 with
      | Zneg k =>
          let '(q, e, l) :=
            SFdiv_core_binary prec emax m 0 (Z.pow_pos 10 k) 0 in
          binary_round_aux prec emax neg q e l
      | _ => binary_round prec emax neg (Z.to_pos (m * 10 ^ e10)) 0
      end
  end.

End Num.
Export Num.

(* ===================================================================== *)
(** * Strings *)
(* ===================================================================== *)

Module Str.

Definition code (c : ascii) : N := N_of_ascii c.

Definition is_digit (c : ascii) : bool :=
  (48 <=? code c)%N && (code c <=? 57)%N.

Definition digit_val (c : ascii) : Z := Z.of_N (code c) - 48.

(** White space of [String.prototype.trim] and of the string-to-number
    grammar.  A text is held as its UTF-8 bytes: TAB, LF, VT, FF, CR and
    SPACE are one byte, *)
Definition is_space (c : ascii) : bool :=
  ((9 <=? code c)%N && (code c <=? 13)%N) || (code c =? 32)%N.

(** the no-break space U+00A0 is the two bytes C2 A0, *)
Definition is_space2 (a b : ascii) : bool :=
  (code a =? 194)%N && (code b =? 160)%N.

(** and U+1680, U+2000 to U+200A, U+2028, U+2029, U+202F, U+205F, U+3000
    and U+FEFF are three bytes each. *)
Definition is_space3 (a b c : ascii) : bool :=
  ((code a =? 225) && (code b =? 154) && (code c =? 128))%N
  || ((code a =? 226) && (code b =? 128)
      && (((128 <=? code c) && (code c <=? 138))
          || (code c =? 168) || (code c =? 169) || (code c =? 175)))%N
  || ((code a =? 226) && (code b =? 129) && (code c =? 159))%N
  || ((code a =? 227) && (code b =? 128) && (code c =? 128))%N
  || ((code a =? 239) && (code b =? 187) && (code c =? 191))%N.

Definition upper_char (c : ascii) : ascii :=
  if ((97 <=? code c)%N && (code c <=? 122)%N)
  then ascii_of_N (code c - 32) else c.

Section Drop.
(** Which two and which three bytes at the head of the list are a
    white-space character. *)
Variable two : ascii -> ascii -> bool.
Variable three : ascii -> ascii -> ascii -> bool.

Fixpoint drop_white (l : list ascii) : list ascii :=
  match l with
  | [] => []
  | x1 :: l1 =>
      if is_space x1 then drop_white l1
      else
        match l1 with
        | [] => l
        | x2 :: l2 =>
            if two x1 x2 then drop_white l2
            else
              match l2 with
              | [] => l
              | x3 :: l3 => if three x1 x2 x3 then drop_white l3 else l
              end
        end
  end.
End Drop.

(** The text without its leading white space. *)
Definition drop_spaces (l : list ascii) : list ascii :=
  drop_white is_space2 is_space3 l.

(** The same for a text given last byte first. *)
Definition drop_spaces_rev (l : list ascii) : list ascii :=
  drop_white (fun x1 x2 => is_space2 x2 x1)
             (fun x1 x2 x3 => is_space3 x3 x2 x1) l.

Definition trim_chars (l : list ascii) : list ascii :=
  rev (drop_spaces_rev (rev (drop_spaces l))).

(** [s.trim()] *)
Definition trim (s : string) : string :=
  string_of_list_ascii (trim_chars (list_ascii_of_string s)).

(** [s.toUpperCase()] on ASCII text: the letters [a] to [z] are mapped and
    every other byte is kept, so that the length is kept too (the code
    also maps the letters outside ASCII, some to more than one
    character). *)
Definition toUpperCase (s : string) : string :=
  string_of_list_ascii (map upper_char (list_ascii_of_string s)).

(** [s.replace(/,/g, "")] *)
Definition strip_commas (s : string) : string :=
  string_of_list_ascii
    (filter (fun c => negb (code c =? 44)%N) (list_ascii_of_string s)).

(** [s.includes(t)] *)
Fixpoint includes (s t : string) : bool :=
  if prefix t s then true
  else match s with
       | String _ s' => includes s' t
       | EmptyString => false
       end.

Definition is_empty (s : string) : bool :=
  match s with EmptyString => true | _ => false end.

Fixpoint join (sep : string) (l : list string) : string :=
  match l with
  | [] => ""
  | [s] => s
  | s :: l' => (s ++ sep ++ join sep l')%string
  end.

Fixpoint zeros (n : nat) : string :=
  match n with O => "" | S n' => String "0" (zeros n') end.

End Str.
Export Str.

(* ===================================================================== *)
(** * Conversions between numbers and strings *)
(* ===================================================================== *)

Module Conv.

(** ** [Number(s)]: the string-to-number conversion *)

Fixpoint take_digits (l : list ascii) (acc : list ascii)
  : list ascii * list ascii :=
  match l with
  | c :: l' => if is_digit c then take_digits l' (c :: acc) else (rev acc, l)
  | [] => (rev acc, [])
  end.

Definition decimal_value (ds : list ascii) : Z :=
  fold_left (fun a c => 10 * a + digit_val c) ds 0.

(** Value of a digit in the given radix, when it is one. *)
Definition radix_digit (radix : Z) (c : ascii) : option Z :=
  let n := Z.of_N (code c) in
  let v := if (48 <=? n) && (n <=? 57) then n - 48
           else if (97 <=? n) && (n <=? 122) then n - 87
           else if (65 <=? n) && (n <=? 90) then n - 55
           else radix in
  if v <? radix then Some v else None.

Fixpoint radix_value (radix : Z) (l : list ascii) (a : Z) : option Z :=
  match l with
  | [] => Some a
  | c :: l' =>
      match radix_digit radix c with
      | Some v => radix_value radix l' (radix * a + v)
      | None => None
      end
  end.

Definition radix_literal (radix : Z) (l : list ascii) : number :=
  match l with
  | [] => NaN
  | _ => match radix_value radix l 0 with
         | Some v => of_Z v
         | None => NaN
         end
  end.

(** The exponent part: empty, or [e]/[E], an optional sign and digits. *)
Definition exponent_part (l : list ascii) : option Z :=
  match l with
  | [] => Some 0
  | c :: l' =>
      if ((code c =? 101) || (code c =? 69))%N then
        let '(neg, l'') :=
          match l' with
          | s :: r => if (code s =? 45)%N then (true, r)
                      else if (code s =? 43)%N then (false, r)
                      else (false, l')
          | [] => (false, l')
          end in
        match take_digits l'' [] with
        | (d :: ds, []) =>
            let v := decimal_value (d :: ds) in
            Some (if neg then - v else v)
        | _ => None
        end
      else None
  end.

Definition Infinity_chars : list ascii := list_ascii_of_string "Infinity".

Definition chars_eqb (a b : list ascii) : bool :=
  String.eqb (string_of_list_ascii a) (string_of_list_ascii b).

(** An unsigned decimal literal: [Infinity], [d.d], [d.], [.d] or [d],
    the last four with an optional exponent. *)
Definition unsigned_decimal (neg : bool) (l : list ascii) : number :=
  if chars_eqb l Infinity_chars then S754_infinity neg
  else
    let '(ip, r1) := take_digits l [] in
    let '(fp, r2) :=
      match r1 with
      | c :: r => if (code c =? 46)%N then take_digits r [] else ([], r1)
      | [] => ([], r1)
      end in
    match ip ++ fp with
    | [] => NaN
    | ds =>
        match exponent_part r2 with
        | Some e => of_decimal neg (decimal_value ds) (e - Z.of_nat (List.length fp))
        | None => NaN
        end
    end.

Definition Number_chars (l : list ascii) : number :=
  match trim_chars l with
  | [] => zero
  | c :: r =>
      if (code c =? 45)%N then unsigned_decimal true r
      else if (code c =? 43)%N then unsigned_decimal false r
      else
        match c, r with
        | "0"%char, x :: r' =>
            if ((code x =? 120) || (code x =? 88))%N then radix_literal 16 r'
            else if ((code x =? 111) || (code x =? 79))%N then radix_literal 8 r'
            else if ((code x =? 98) || (code x =? 66))%N then radix_literal 2 r'
            else unsigned_decimal false (c :: r)
        | _, _ => unsigned_decimal false (c :: r)
        end
  end.

Definition Number (s : string) : number :=
  Number_chars (list_ascii_of_string s).

(** ** [String(x)] for a number [x]: the shortest decimal text that
       converts back to [x] *)

Definition number_eqb (a b : number) : bool :=
  match a, b with
  | S754_zero s, S754_zero t => Bool.eqb s t
  | S754_infinity s, S754_infinity t => Bool.eqb s t
  | S754_nan, S754_nan => true
  | S754_finite s m e, S754_finite t n f =>
      Bool.eqb s t && Pos.eqb m n && Z.eqb e f
  | _, _ => false
  end.

Definition digits_of_Z (z : Z) : string :=
  NilZero.string_of_int (Z.to_int z).

Section Shortest.
(** The positive value is [vn / vd]; [x] is its number. *)
Variables (x : number) (vn vd : Z).

(** [vn / vd < 10^n] *)
Definition below_pow10 (n : Z) : bool :=
  if 0 <=? n then vn <? vd * 10 ^ n else vn * 10 ^ (- n) <? vd.

Fixpoint find_exponent (fuel : nat) (n : Z) : Z :=
  match fuel with
  | O => n
  | S fuel' => if below_pow10 n then n else find_exponent fuel' (n + 1)
  end.

(** [floor ((vn / vd) / 10^p)] *)
Definition scaled_floor (p : Z) : Z :=
  if 0 <=? p then vn / (vd * 10 ^ p) else (vn * 10 ^ (- p)) / vd.

(** Order of [vn / vd] and [c * 10^p / 2]. *)
Definition compare_half (c p : Z) : comparison :=
  if 0 <=? p then (2 * vn ?= c * 10 ^ p * vd)
  else (2 * vn * 10 ^ (- p) ?= c * vd).

Definition round_trips (s e10 : Z) : bool :=
  number_eqb (of_decimal false s e10) x.

(** The digits [s] and the exponent [n] for [k] digits, if some
    [k]-digit decimal converts back to [x]. *)
Definition candidate (n0 k : Z) : option (Z * Z) :=
  let p := n0 - k in
  let lo := scaled_floor p in
  let hi := lo + 1 in
  let up := if hi <? 10 ^ k then (hi, n0) else (10 ^ (k - 1), n0 + 1) in
  let ok_lo := round_trips lo p in
  let ok_up := round_trips (fst up) (snd up - k) in
  match ok_lo, ok_up with
  | true, false => Some (lo, n0)
  | false, true => Some up
  | false, false => None
  | true, true =>
      match compare_half (2 * lo + 1) p with
      | Lt => Some (lo, n0)
      | Gt => Some up
      | Eq => if Z.even lo then Some (lo, n0) else Some up
      end
  end.

Fixpoint shortest (fuel : nat) (n0 k : Z) : Z * Z * Z :=
  match fuel with
  | O => (scaled_floor (n0 - k), k, n0)
  | S fuel' =>
      match candidate n0 k with
      | Some (s, n) => (s, k, n)
      | None => shortest fuel' n0 (k + 1)
      end
  end.
End Shortest.

Definition exponent_text (e : Z) : string :=
  String.append (if e <? 0 then "e-" else "e+") (digits_of_Z (Z.abs e)).

(** The text for the digits [s] (there are [k] of them) and the
    exponent [n], the value being [s * 10^(n - k)]. *)
Definition format_digits (s k n : Z) : string :=
  let ds := digits_of_Z s in
  if (k <=? n) && (n <=? 21) then
    String.concat "" [ds; zeros (Z.to_nat (n - k))]
  else if (0 <? n) && (n <=? 21) then
    String.concat ""
      [substring 0 (Z.to_nat n) ds; ".";
       substring (Z.to_nat n) (Z.to_nat (k - n)) ds]
  else if (-6 <? n) && (n <=? 0) then
    String.concat "" ["0."; zeros (Z.to_nat (- n)); ds]
  else if k =? 1 then
    String.concat "" [ds; exponent_text (n - 1)]
  else
    String.concat ""
      [substring 0 1 ds; "."; substring 1 (Z.to_nat (k - 1)) ds;
       exponent_text (n - 1)].

Definition Number_toString (x : number) : string :=
  match x with
  | S754_nan => "NaN"
  | S754_zero _ => "0"
  | S754_infinity s => if s then "-Infinity" else "Infinity"
  | S754_finite sg m e =>
      let ax := S754_finite false m e in
      let vn := Zpos m * 2 ^ (Z.max e 0) in
      let vd := 2 ^ (Z.max (- e) 0) in
      let n0 := find_exponent vn vd 700 (-324) in
      let '(s, k, n) := shortest ax vn vd 17 n0 1 in
      String.append (if sg then "-" else "") (format_digits s k n)
  end.

(** ** [Math.round] *)

Definition Math_round (x : number) : number :=
  match x with
  | S754_finite s m e =>
      if 0 <=? e then x
      else
        let n := if s then Zneg m else Zpos m in
        let r := (2 * n + 2 ^ (- e)) / 2 ^ (1 - e) in
        if r =? 0 then S754_zero s else of_Z r
  | _ => x
  end.

End Conv.
Export Conv.

(* ===================================================================== *)
(** * Values and exceptions *)
(* ===================================================================== *)

Module Js.

(** The values the program handles: what [JSON.parse] builds, and
    [undefined] for an absent property.  An object is the list of its own
    properties in insertion order; the first binding of a key is its
    value. *)
#[local] Set Warnings "-register-all".

Inductive value : Type :=
| VUndefined
| VNull
| VBool (b : bool)
| VNum (n : number)
| VStr (s : string)
| VArr (items : list value)
| VObj (fields : list (string * value)).

Inductive error : Type :=
| TypeError
| SyntaxError
| NetworkError
| HttpError (status : Z).

(** The outcome of an evaluation that may throw. *)
Inductive result (A : Type) : Type :=
| Ok (a : A)
| Throw (e : error).
Arguments Ok {A} a.
Arguments Throw {A} e.

Definition bind {A B} (r : result A) (f : A -> result B) : result B :=
  match r with
  | Ok a => f a
  | Throw e => Throw e
  end.

Notation "'let*' x ':=' r 'in' k" := (bind r (fun x => k))
  (at level 10, x name, r at level 100, k at level 200).

Fixpoint mapM {A B} (f : A -> result B) (l : list A) : result (list B) :=
  match l with
  | [] => Ok []
  | a :: l' =>
      let* b := f a in
      let* bs := mapM f l' in
      Ok (b :: bs)
  end.

Fixpoint lookup {A} (k : string) (fs : list (string * A)) : option A :=
  match fs with
  | [] => None
  | (k', v) :: fs' => if String.eqb k' k then Some v else lookup k fs'
  end.

(** [!!v] is false exactly for [undefined], [null], [false], the zeros,
    NaN and the empty string. *)
Definition truthy (v : value) : bool :=
  match v with
  | VUndefined | VNull => false
  | VBool b => b
  | VNum (S754_zero _) | VNum S754_nan => false
  | VNum _ => true
  | VStr s => negb (is_empty s)
  | VArr _ | VObj _ => true
  end.

(** [a || b] *)
Definition or_else (a b : value) : value := if truthy a then a else b.

(** [v.k], for the property names the program reads
    ([district_name], [Total_Exp], ..., [data], [length]): none of them
    is inherited, so an object answers with its own property or
    [undefined]; reading a property of [null] or [undefined] throws. *)
Definition get (v : value) (k : string) : result value :=
  match v with
  | VUndefined | VNull => Throw TypeError
  | VObj fs => Ok (match lookup k fs with Some x => x | None => VUndefined end)
  | VArr xs =>
      Ok (if String.eqb k "length"
          then VNum (of_Z (Z.of_nat (List.length xs))) else VUndefined)
  | VStr s =>
      Ok (if String.eqb k "length"
          then VNum (of_Z (Z.of_nat (String.length s))) else VUndefined)
  | _ => Ok VUndefined
  end.

(** [v?.k] *)
Definition get_opt (v : value) (k : string) : result value :=
  match v with
  | VUndefined | VNull => Ok VUndefined
  | _ => get v k
  end.

(** [String(v)].  An array is the comma-separated texts of its items,
    [null] and [undefined] items giving the empty text.  A parsed object
    has no callable property, so one with an own [toString] property has
    no primitive value and the conversion throws; any other object gives
    ["[object Object]"]. *)
Fixpoint ToString (v : value) : result string :=
  match v with
  | VUndefined => Ok "undefined"
  | VNull => Ok "null"
  | VBool b => Ok (if b then "true" else "false")
  | VNum n => Ok (Number_toString n)
  | VStr s => Ok s
  | VArr xs =>
      let* parts :=
        (fix items (l : list value) : result (list string) :=
           match l with
           | [] => Ok []
           | x :: l' =>
               let* s := match x with
                         | VUndefined | VNull => Ok ""
                         | _ => ToString x
                         end in
               let* ss := items l' in
               Ok (s :: ss)
           end) xs in
      Ok (join "," parts)
  | VObj fs =>
      match lookup "toString" fs with
      | Some _ => Throw TypeError
      | None => Ok "[object Object]"
      end
  end.

End Js.
Export Js.

(* ===================================================================== *)
(** * The application *)
(* ===================================================================== *)

Definition YEARS : list string :=
  ["All"; "2024-2025"; "2023-2024"; "2022-2023"; "2021-2022";
   "2020-2021"; "2019-2020"; "2018-2019"].

(** Helper - safe number parser *)
Definition toNumber (v : value) : result number :=
  match v with
  | VNull | VUndefined => Ok zero
  | VNum n => Ok n
  | _ =>
      let* text := ToString v in
      let cleaned := trim (strip_commas text) in
      let n := Number cleaned in
      Ok (if isNaN n then zero else n)
  end.

(** ** Normalised rows and district aggregates *)

Record NormalizedRecord : Type := {
  district_name : string;
  district_display : string;
  state_name : value;
  fin_year : value;
  month : value;
  Approved_Labour_Budget : number;
  Average_Wage_rate_per_day_per_person : number;
  Average_days_of_employment_provided_per_Household : number;
  Total_Households_Worked : number;
  Total_Individuals_Worked : number;
  Total_Exp : number;
  Wages : number
}.

(** [toNumber(r.k)] *)
Definition field_number (r : value) (k : string) : result number :=
  let* v := get r k in toNumber v.

(** [r.district_name || r.District || ""] *)
Definition district_raw (r : value) : result value :=
  let* dn := get r "district_name" in
  let* dn' := if truthy dn then Ok dn else get r "District" in
  Ok (or_else dn' (VStr "")).

(** The body of [allRows.map((r) => ...)]. *)
Definition normalize (stateName : string) (r : value)
  : result NormalizedRecord :=
  let* raw := district_raw r in
  let* text := ToString raw in
  let district_clean := trim text in
  let* sn := get r "state_name" in
  let* fy := get r "fin_year" in
  let* mo := get r "month" in
  let* alb := field_number r "Approved_Labour_Budget" in
  let* awr := field_number r "Average_Wage_rate_per_day_per_person" in
  let* ade :=
    field_number r "Average_days_of_employment_provided_per_Household" in
  let* thw := field_number r "Total_Households_Worked" in
  let* tiw := field_number r "Total_Individuals_Worked" in
  let* exp := field_number r "Total_Exp" in
  let* wages := field_number r "Wages" in
  Ok {| district_name := toUpperCase district_clean;
        district_display := district_clean;
        state_name := or_else sn (VStr stateName);
        fin_year := or_else fy (VStr "—");
        month := or_else mo (VStr "—");
        Approved_Labour_Budget := alb;
        Average_Wage_rate_per_day_per_person := awr;
        Average_days_of_employment_provided_per_Household := ade;
        Total_Households_Worked := thw;
        Total_Individuals_Worked := tiw;
        Total_Exp := exp;
        Wages := wages |}.

(** [x.district_name && x.district_name.length > 0] *)
Definition valid_district (x : NormalizedRecord) : bool :=
  negb (is_empty (district_name x)).

(** The [else] branch of the reducer: the seven measures of [cur] are
    added into the aggregate, the other fields stay as seeded. *)
Definition accumulate (a cur : NormalizedRecord) : NormalizedRecord :=
  {| district_name := district_name a;
     district_display := district_display a;
     state_name := state_name a;
     fin_year := fin_year a;
     month := month a;
     Approved_Labour_Budget :=
       add (Approved_Labour_Budget a) (Approved_Labour_Budget cur);
     Average_Wage_rate_per_day_per_person :=
       add (Average_Wage_rate_per_day_per_person a)
           (Average_Wage_rate_per_day_per_person cur);
     Average_days_of_employment_provided_per_Household :=
       add (Average_days_of_employment_provided_per_Household a)
           (Average_days_of_employment_provided_per_Household cur);
     Total_Households_Worked :=
       add (Total_Households_Worked a) (Total_Households_Worked cur);
     Total_Individuals_Worked :=
       add (Total_Individuals_Worked a) (Total_Individuals_Worked cur);
     Total_Exp := add (Total_Exp a) (Total_Exp cur);
     Wages := add (Wages a) (Wages cur) |}.

(** The seven numeric measures. *)
Definition measures : list (NormalizedRecord -> number) :=
  [Approved_Labour_Budget;
   Average_Wage_rate_per_day_per_person;
   Average_days_of_employment_provided_per_Household;
   Total_Households_Worked;
   Total_Individuals_Worked;
   Total_Exp;
   Wages].

(** The accumulator object [acc]: its own properties in insertion
    order.  District keys are upper-cased, so none of them names a
    property inherited from [Object.prototype], and [acc[key]] is the own
    property or [undefined]. *)
Definition groups := list (string * NormalizedRecord).

Fixpoint update (key : string) (cur : NormalizedRecord) (acc : groups)
  : groups :=
  match acc with
  | [] => []
  | (k, a) :: acc' =>
      if String.eqb k key then (k, accumulate a cur) :: acc'
      else (k, a) :: update key cur acc'
  end.

(** The reducer of [filtered.reduce((acc, cur) => ..., {})]. *)
Definition group_step (acc : groups) (cur : NormalizedRecord) : groups :=
  let key := district_name cur in
  match lookup key acc with
  | None => acc ++ [(key, cur)]
  | Some _ => update key cur acc
  end.

Definition group_by_district (filtered : list NormalizedRecord) : groups :=
  fold_left group_step filtered [].

(** A property key is an array index when it is the canonical decimal
    text of an integer below [2^32 - 1]. *)
Definition array_index (k : string) : option Z :=
  match list_ascii_of_string k with
  | [] => None
  | c :: r =>
      if forallb is_digit (c :: r)
         && (negb (code c =? 48)%N || match r with [] => true | _ => false end)
      then
        let v := decimal_value (c :: r) in
        if v <? 4294967295 then Some v else None
      else None
  end.

Fixpoint insert_index {A} (i : Z) (a : A) (l : list (Z * A)) : list (Z * A) :=
  match l with
  | [] => [(i, a)]
  | (j, b) :: l' =>
      if i <? j then (i, a) :: l else (j, b) :: insert_index i a l'
  end.

Fixpoint index_entries {A} (o : list (string * A)) : list (Z * A) :=
  match o with
  | [] => []
  | (k, a) :: o' =>
      match array_index k with
      | Some i => insert_index i a (index_entries o')
      | None => index_entries o'
      end
  end.

Fixpoint named_entries {A} (o : list (string * A)) : list A :=
  match o with
  | [] => []
  | (k, a) :: o' =>
      match array_index k with
      | Some _ => named_entries o'
      | None => a :: named_entries o'
      end
  end.

(** [Object.values(o)]: the array-index keys in ascending order, then
    the other keys in insertion order. *)
Definition Object_values {A} (o : list (string * A)) : list A :=
  map snd (index_entries o) ++ named_entries o.

(** ** [Array.prototype.sort]

    The sort is stable, and with a consistent comparator every
    conforming engine returns the same array; it is modelled by a stable
    insertion sort.  A comparator result that is NaN counts as [+0].
    With a comparator that is not consistent (here, when a total is NaN)
    the language leaves the order to the engine, and the array of the
    model is one permutation among those an engine may return. *)
Section Sort.
Context {A : Type}.
Variable comparefn : A -> A -> number.

Definition SortCompare (a b : A) : number :=
  let v := comparefn a b in
  if isNaN v then zero else v.

Fixpoint sort_insert (x : A) (l : list A) : list A :=
  match l with
  | [] => [x]
  | y :: l' =>
      if lt zero (SortCompare x y) then y :: sort_insert x l' else x :: l
  end.

Definition Array_sort (l : list A) : list A :=
  fold_right sort_insert [] l.
End Sort.

(** [(a, b) => b.Total_Exp - a.Total_Exp] *)
Definition by_expenditure (a b : NormalizedRecord) : number :=
  sub (Total_Exp b) (Total_Exp a).

(** Normalise, drop the rows without district, group and list the
    aggregates (the array [finalArray] before the visible filter). *)
Definition aggregate (stateName : string) (allRows : list value)
  : result (list NormalizedRecord) :=
  let* normalized := mapM (normalize stateName) allRows in
  let filtered := filter valid_district normalized in
  let grouped := group_by_district filtered in
  Ok (Object_values grouped).

(** [if (districtFilter && districtFilter.trim().length > 0) ...] *)
Definition apply_district_filter (districtFilter : string)
    (finalArray : list NormalizedRecord) : list NormalizedRecord :=
  if negb (is_empty districtFilter) && negb (is_empty (trim districtFilter))
  then
    let df := toUpperCase (trim districtFilter) in
    filter (fun d => includes (district_name d) df) finalArray
  else finalArray.

(** The whole aggregator: the array handed to [setData]. *)
Definition final_array (stateName districtFilter : string)
    (allRows : list value) : result (list NormalizedRecord) :=
  let* finalArray := aggregate stateName allRows in
  Ok (Array_sort by_expenditure
        (apply_district_filter districtFilter finalArray)).

(** ** The insight summary *)

Record Insights : Type := {
  totalHouseholds : number;
  totalPersondays : number;
  totalExpenditure : number;
  avgHouseholds : number;
  topDistrict : string;
  lowDistrict : string
}.

(** [finalArray.reduce((s, x) => s + toNumber(x.f), 0)] *)
Fixpoint reduce_sum (f : NormalizedRecord -> number)
    (l : list NormalizedRecord) (s : number) : result number :=
  match l with
  | [] => Ok s
  | x :: l' =>
      let* n := toNumber (VNum (f x)) in
      reduce_sum f l' (add s n)
  end.

(** [finalArray.length], as a condition and as a number *)
Definition length_number {A} (l : list A) : number :=
  of_Z (Z.of_nat (List.length l)).

Definition compute_insights (finalArray : list NormalizedRecord)
  : result Insights :=
  let* totalHouseholds :=
    reduce_sum Total_Households_Worked finalArray zero in
  let* totalExp := reduce_sum Total_Exp finalArray zero in
  let avgHouseholds :=
    if truthy (VNum (length_number finalArray))
    then Math_round (div totalHouseholds (length_number finalArray))
    else zero in
  let topDistrict :=
    if truthy (VNum (length_number finalArray))
    then match nth_error finalArray 0 with
         | Some d => Ok (district_display d)
         | None => Throw TypeError
         end
    else Ok "N/A" in
  let lowDistrict :=
    if truthy (VNum (length_number finalArray))
    then match nth_error finalArray (List.length finalArray - 1) with
         | Some d => Ok (district_display d)
         | None => Throw TypeError
         end
    else Ok "N/A" in
  let* top := topDistrict in
  let* low := lowDistrict in
  Ok {| totalHouseholds := totalHouseholds;
        totalPersondays := zero;
        totalExpenditure := totalExp;
        avgHouseholds := avgHouseholds;
        topDistrict := top;
        lowDistrict := low |}.

(** ** The component state and the outside world

    The state holds the React state the cycle reads and writes, and two
    traces of what the cycle does to the outside: the console entries
    and the requests sent.  The backend is a function from the query
    parameters of a request to what comes back. *)

Inductive log_entry : Type :=
| Warn (fin_year : string) (e : error)
| Error (e : error).

Definition query := list (string * string).

Record state : Type := {
  data : list NormalizedRecord;
  rawRecords : list value;
  loading : bool;
  year : string;
  stateName : string;
  districtFilter : string;
  insights : Insights;
  console : list log_entry;
  requests : list query
}.

(** What a request gets back: no response at all, or a response with
    its [ok] flag, its status and its body ([None] when the body is not
    JSON). *)
Inductive response : Type :=
| NoResponse
| Response (ok : bool) (status : Z) (body : option value).

Definition network := query -> response.

(** Computations over the state that may throw. *)
Definition M (A : Type) : Type := state -> result A * state.

Definition ret {A} (a : A) : M A := fun s => (Ok a, s).

Definition lift {A} (r : result A) : M A := fun s => (r, s).

Definition bindM {A B} (m : M A) (f : A -> M B) : M B :=
  fun s =>
    match m s with
    | (Ok a, s') => f a s'
    | (Throw e, s') => (Throw e, s')
    end.

Definition try_catch {A} (m : M A) (handler : error -> M A) : M A :=
  fun s =>
    match m s with
    | (Ok a, s') => (Ok a, s')
    | (Throw e, s') => handler e s'
    end.

Definition try_finally {A} (m : M A) (final : M unit) : M A :=
  fun s =>
    match m s with
    | (r, s') =>
        match final s' with
        | (Ok _, s'') => (r, s'')
        | (Throw e, s'') => (Throw e, s'')
        end
    end.

Notation "x <- m ;; k" := (bindM m (fun x => k))
  (at level 61, m at next level, right associativity).
Notation "m ;;; k" := (bindM m (fun _ => k))
  (at level 61, right associativity).

Definition setLoading (b : bool) : M unit := fun s =>
  (Ok tt,
   {| data := data s; rawRecords := rawRecords s; loading := b;
      year := year s; stateName := stateName s;
      districtFilter := districtFilter s; insights := insights s;
      console := console s; requests := requests s |}).

Definition setRawRecords (rows : list value) : M unit := fun s =>
  (Ok tt,
   {| data := data s; rawRecords := rows; loading := loading s;
      year := year s; stateName := stateName s;
      districtFilter := districtFilter s; insights := insights s;
      console := console s; requests := requests s |}).

Definition setData (d : list NormalizedRecord) : M unit := fun s =>
  (Ok tt,
   {| data := d; rawRecords := rawRecords s; loading := loading s;
      year := year s; stateName := stateName s;
      districtFilter := districtFilter s; insights := insights s;
      console := console s; requests := requests s |}).

Definition setInsights (i : Insights) : M unit := fun s =>
  (Ok tt,
   {| data := data s; rawRecords := rawRecords s; loading := loading s;
      year := year s; stateName := stateName s;
      districtFilter := districtFilter s; insights := i;
      console := console s; requests := requests s |}).

Definition add_log (e : log_entry) (s : state) : state :=
  {| data := data s; rawRecords := rawRecords s; loading := loading s;
     year := year s; stateName := stateName s;
     districtFilter := districtFilter s; insights := insights s;
     console := console s ++ [e]; requests := requests s |}.

Definition add_request (q : query) (s : state) : state :=
  {| data := data s; rawRecords := rawRecords s; loading := loading s;
     year := year s; stateName := stateName s;
     districtFilter := districtFilter s; insights := insights s;
     console := console s; requests := requests s ++ [q] |}.

(** [console.warn] and [console.error] *)
Definition log (e : log_entry) : M unit := fun s => (Ok tt, add_log e s).

(** [await fetch(url)]: the request is issued, and the call throws when
    no response comes back. *)
Definition fetch (net : network) (q : query) : M response := fun s =>
  match net q with
  | NoResponse => (Throw NetworkError, add_request q s)
  | r => (Ok r, add_request q s)
  end.

(** ** [fetchData] *)

Record options : Type := {
  yearOverride : option string;
  districtOverride : option string
}.

Definition no_options : options :=
  {| yearOverride := None; districtOverride := None |}.

Section FetchData.
Variable net : network.
(** The values the closure captured. *)
Variables (stateName0 districtFilter0 : string).
Variable districtOverride0 : string.

Definition year_query (fin_year : string) : query :=
  (if negb (is_empty stateName0)
   then [("state_name", toUpperCase stateName0)] else [])
  ++ (if negb (is_empty fin_year) && negb (String.eqb fin_year "All")
      then [("fin_year", fin_year)] else [])
  ++ (if negb (is_empty districtOverride0)
      then [("district_name", toUpperCase districtOverride0)] else []).

(** What [fetchForYear] makes of a response: a failure for a status
    that is not a success or a body that is not JSON, else
    [json?.data || json || []]. *)
Definition read_body (res : response) : result value :=
  match res with
  | NoResponse => Throw NetworkError
  | Response ok status body =>
      if negb ok then Throw (HttpError status)
      else
        match body with
        | None => Throw SyntaxError
        | Some json =>
            let* d := get_opt json "data" in
            Ok (or_else (or_else d json) (VArr []))
        end
  end.

(** Helper to call backend for a specific fin_year *)
Definition fetchForYear (fin_year : string) : M value :=
  res <- fetch net (year_query fin_year) ;;
  lift (read_body res).

(** [...rows] *)
Definition spread (rows : value) : result (list value) :=
  match rows with
  | VArr xs => Ok xs
  | VStr s => Ok (map (fun c => VStr (String c "")) (list_ascii_of_string s))
  | _ => Throw TypeError
  end.

(** [if (rows && rows.length) allRows.push(...rows)] *)
Definition push_rows (allRows : list value) (rows : value)
  : result (list value) :=
  if truthy rows then
    let* len := get rows "length" in
    if truthy len then
      let* items := spread rows in
      Ok (allRows ++ items)
    else Ok allRows
  else Ok allRows.

(** [for (const y of yearsToFetch) { try { ... } catch (e) { ... } }] *)
Fixpoint fetch_each_year (yearsToFetch : list string)
    (allRows : list value) : M (list value) :=
  match yearsToFetch with
  | [] => ret allRows
  | y :: ys =>
      allRows' <-
        try_catch
          (rows <- fetchForYear y ;; lift (push_rows allRows rows))
          (fun e => log (Warn y e) ;;; ret allRows) ;;
      fetch_each_year ys allRows'
  end.

Definition yearsToFetch : list string :=
  filter (fun y => negb (String.eqb y "All")) YEARS.

(** The fetching part of the [try] block. *)
Definition fetch_rows (yearOverride0 : string) : M (list value) :=
  if String.eqb yearOverride0 "All" then
    fetch_each_year yearsToFetch []
  else
    rows <- fetchForYear yearOverride0 ;;
    lift (push_rows [] rows).

(** The rest of the [try] block, from [setRawRecords] on. *)
Definition publish (allRows : list value) : M unit :=
  setRawRecords allRows ;;;
  finalArray <- lift (final_array stateName0 districtFilter0 allRows) ;;
  setData finalArray ;;;
  i <- lift (compute_insights finalArray) ;;
  setInsights i.

Definition try_block (yearOverride0 : string) : M unit :=
  allRows <- fetch_rows yearOverride0 ;;
  publish allRows.
End FetchData.

Definition option_or (o : option string) (d : string) : string :=
  match o with Some x => x | None => d end.

(** The [try] block of [fetchData]; [c] is the state the closure
    captured ([opts.yearOverride ?? year] and the like are read there). *)
Definition fetchData_try (net : network) (opts : options) (c : state)
  : M unit :=
  try_block net (stateName c) (districtFilter c)
    (option_or (districtOverride opts) (districtFilter c))
    (option_or (yearOverride opts) (year c)).

(** Main fetch function: supports year = 'All' or single FY *)
Definition fetchData (net : network) (opts : options) : M unit :=
  fun s =>
    (setLoading true ;;;
     try_finally
       (try_catch (fetchData_try net opts s) (fun err => log (Error err)))
       (setLoading false)) s.

(** ** The chart *)

(** [a.slice(b, e)] for [0 <= b <= e] *)
Definition slice {A} (b e : nat) (l : list A) : list A :=
  firstn (e - b) (skipn b l).

(** [topChartData]: a name and a person-days value for each of the first
    ten aggregates.  An aggregate has no [Total_Persondays_Generated]
    property, so that the value converted is [undefined]. *)
Definition topChartData (data : list NormalizedRecord)
  : result (list (string * number)) :=
  mapM (fun d =>
          let* n := toNumber VUndefined in
          Ok (district_display d, n))
       (slice 0 10 data).

(** ** Handlers that start a cycle

    A handler calls the [fetchData] of the render that created it: the
    year, the state name and the district filter the cycle reads are
    those of that render, whatever the state has become. *)


Definition setDistrictFilter (d : string) : M unit := fun s =>
  (Ok tt,
   {| data := data s; rawRecords := rawRecords s; loading := loading s;
      year := year s; stateName := stateName s;
      districtFilter := d; insights := insights s;
      console := console s; requests := requests s |}).

(** [fetchData] of the render whose values are those of [c]. *)
Definition fetchData_from (net : network) (opts : options) (c : state)
  : M unit :=
  setLoading true ;;;
  try_finally
    (try_catch (fetchData_try net opts c) (fun err => log (Error err)))
    (setLoading false).

(** The [onChange] handler of the district input, followed by its timer:
    [setDistrictFilter(v)], then
    [fetchData({ yearOverride: year, districtOverride: v })]. *)
Definition district_typed (net : network) (c : state) (v : string) : M unit :=
  setDistrictFilter v ;;;
  fetchData_from net
    {| yearOverride := Some (year c); districtOverride := Some v |} c.

(** *** [detectLocation] *)

(** Does the word [w] start [l], letter case ignored? *)
Fixpoint starts_with (w l : list ascii) : bool :=
  match w, l with
  | [], _ => true
  | a :: w', c :: l' =>
      Ascii.eqb (upper_char a) (upper_char c) && starts_with w' l'
  | _ :: _, [] => false
  end.

(** The first alternative that matches at the start of [l]. *)
Fixpoint first_match (words : list (list ascii)) (l : list ascii)
  : option (list ascii) :=
  match words with
  | [] => None
  | w :: ws => if starts_with w l then Some w else first_match ws l
  end.

(** The characters left when every match is removed, scanning from the
    left; [skip] counts the characters of the current match still to
    drop. *)
Fixpoint remove_words (words : list (list ascii)) (skip : nat)
    (l : list ascii) : list ascii :=
  match l with
  | [] => []
  | c :: l' =>
      match skip with
      | S k => remove_words words k l'
      | O =>
          match first_match words l with
          | Some w => remove_words words (List.length w - 1) l'
          | None => c :: remove_words words 0 l'
          end
      end
  end.

(** [s.replace(/w1|...|wn/gi, "")], the words being non-empty words of
    ASCII letters: without the [u] flag a character outside ASCII never
    matches an ASCII letter. *)
Definition replace_words (words : list string) (s : string) : string :=
  string_of_list_ascii
    (remove_words (map list_ascii_of_string words) 0
       (list_ascii_of_string s)).

(** Normalize district name *)
Definition clean_district (s : string) : string :=
  toUpperCase
    (trim
       (replace_words ["north"; "south"; "east"; "west"; "division"]
          (replace_words ["district"] s))).





(** ** The OTP page *)

Inductive otp_outcome : Type :=
| InvalidAccess
| Verified
| WrongOtp.

(** [a === b] on numbers *)
Definition strict_equal (a b : number) : bool := SFeqb a b.

(** [a === b] for a number [a] *)
Definition strict_equals (a : number) (b : value) : bool :=
  match b with
  | VNum n => strict_equal a n
  | _ => false
  end.

(** What submitting the form does, [mobile] and [otp] being what the
    login page passed (or [undefined]): the form is not offered when one
    of them is missing, else [Number(enteredOtp) === otp] decides. *)
Definition verifyOtp (mobile otp : value) (enteredOtp : string)
  : otp_outcome :=
  if negb (truthy mobile) || negb (truthy otp) then InvalidAccess
  else if strict_equals (Number enteredOtp) otp then Verified
       else WrongOtp.

(* ===================================================================== *)
(** * Notions used by the statements *)
(* ===================================================================== *)

(** A number with sign [s] that is neither zero nor NaN. *)
Definition signed (s : bool) (x : number) : Prop :=
  (exists m e, x = S754_finite s m e /\ -1074 <= e) \/ x = S754_infinity s.

(** An integer below [2^53] in absolute value. *)
Definition safe (z : Z) : Prop := Z.abs z < 2 ^ 53.

Definition sum_abs (l : list Z) : Z :=
  fold_right (fun z acc => Z.abs z + acc) 0 l.

Definition sum_Z (l : list Z) : Z := fold_right Z.add 0 l.

(** The rows of one district, in input order. *)
Definition group_of (key : string) (l : list NormalizedRecord)
  : list NormalizedRecord :=
  filter (fun n => String.eqb (district_name n) key) l.

(** A value that is neither an array nor an object. *)
Definition scalar (v : value) : bool :=
  match v with
  | VArr _ | VObj _ => false
  | _ => true
  end.

(** A raw record: an object whose fields hold scalars. *)
Definition raw_record (v : value) : Prop :=
  exists fields,
    v = VObj fields /\ Forall (fun kv => scalar (snd kv) = true) fields.

(** A measure is summed exactly over these rows: its values are
    integers and their absolute values add up to less than [2^53]. *)
Definition exact_measure (norm : list NormalizedRecord)
    (f : NormalizedRecord -> number) : Prop :=
  Forall (fun n => f n = of_Z (to_Z (f n))) norm /\
  sum_abs (map (fun n => to_Z (f n)) norm) < 2 ^ 53.

(** Every number inside a value is a binary64 value. *)
Fixpoint well_formed (v : value) : bool :=
  match v with
  | VNum n => valid n
  | VArr items => forallb well_formed items
  | VObj fields => forallb (fun kv => well_formed (snd kv)) fields
  | _ => true
  end.

(** A total that can be compared: a binary64 value other than NaN. *)
Definition comparable (d : NormalizedRecord) : Prop :=
  valid (Total_Exp d) = true /\ isNaN (Total_Exp d) = false.

Definition ge_total (a b : NormalizedRecord) : Prop :=
  ge (Total_Exp a) (Total_Exp b) = true.

(** [aggregates[i].Total_Exp >= aggregates[i+1].Total_Exp] at every
    adjacent pair of indices. *)
Definition descending (l : list NormalizedRecord) : Prop :=
  forall i a b,
    nth_error l i = Some a -> nth_error l (S i) = Some b ->
    ge (Total_Exp a) (Total_Exp b) = true.

(** The sum of a measure over the aggregates, taken from 0 in array
    order. *)
Definition total_of (f : NormalizedRecord -> number)
    (l : list NormalizedRecord) : number :=
  fold_left add (map f l) zero.

(** The seven financial years, most recent first. *)
Definition seven_years : list string :=
  ["2024-2025"; "2023-2024"; "2022-2023"; "2021-2022";
   "2020-2021"; "2019-2020"; "2018-2019"].

(** The rows one year contributes: those of its response, none when
    the request or the reading of its rows fails. *)
Definition year_rows (net : network) (st dov : string) (fin_year : string)
  : list value :=
  match (let* rows := read_body (net (year_query st dov fin_year)) in
         push_rows [] rows) with
  | Ok rows => rows
  | Throw _ => []
  end.

(** One turn of the all-years loop on the state: the request is
    recorded, and a failure is logged. *)
Definition after_year (net : network) (st dov : string) (y : string)
    (s : state) : state :=
  let s1 := add_request (year_query st dov y) s in
  match (let* rows := read_body (net (year_query st dov y)) in
         push_rows [] rows) with
  | Ok _ => s1
  | Throw e => add_log (Warn y e) s1
  end.

(** The seven measures, each with the property of the raw row it is
    read from. *)
Definition measure_fields : list (string * (NormalizedRecord -> number)) :=
  [("Approved_Labour_Budget", Approved_Labour_Budget);
   ("Average_Wage_rate_per_day_per_person",
    Average_Wage_rate_per_day_per_person);
   ("Average_days_of_employment_provided_per_Household",
    Average_days_of_employment_provided_per_Household);
   ("Total_Households_Worked", Total_Households_Worked);
   ("Total_Individuals_Worked", Total_Individuals_Worked);
   ("Total_Exp", Total_Exp);
   ("Wages", Wages)].

(** The measure [f] of the normalised row [n] is [toNumber(r.k)]. *)
Definition read_from (r : value) (n : NormalizedRecord)
    (kf : string * (NormalizedRecord -> number)) : Prop :=
  exists v, get r (fst kf) = Ok v /\ toNumber v = Ok (snd kf n).

(** ** Sample inputs *)

Definition expenditure_row (d e : string) : value :=
  VObj [("district_name", VStr d); ("Total_Exp", VStr e)].

Definition chennai_rows : list value :=
  [expenditure_row "Chennai" "1,000"; expenditure_row "chennai" "500"].

Definition tenth_rows : list value :=
  [expenditure_row "Salem" "0.1"; expenditure_row "Salem" "0.2";
   expenditure_row "Salem" "0.3"].

Definition infinite_rows : list value :=
  [expenditure_row "Salem" "Infinity"; expenditure_row "Salem" "-Infinity";
   expenditure_row "Erode" "5"].

Definition sample_rows : list value :=
  chennai_rows ++ [expenditure_row "Salem" "2,500"].

Definition initial_insights : Insights :=
  {| totalHouseholds := zero; totalPersondays := zero;
     totalExpenditure := zero; avgHouseholds := zero;
     topDistrict := "N/A"; lowDistrict := "N/A" |}.

Definition initial_state : state :=
  {| data := []; rawRecords := []; loading := false; year := "All";
     stateName := "TAMIL NADU"; districtFilter := "";
     insights := initial_insights; console := []; requests := [] |}.

(** A backend that fails for 2023-2024 and answers every other year
    with the same two rows, half of the time wrapped under [data]. *)
Definition sample_network : network := fun q =>
  match lookup "fin_year" q with
  | Some y =>
      if String.eqb y "2023-2024" then Response false 500 None
      else if String.eqb y "2022-2023"
           then Response true 200 (Some (VObj [("data", VArr chennai_rows)]))
           else Response true 200 (Some (VArr chennai_rows))
  | None => NoResponse
  end.

Definition single_year : options :=
  {| yearOverride := Some "2023-2024"; districtOverride := None |}.

Definition recent_year : options :=
  {| yearOverride := Some "2024-2025"; districtOverride := None |}.

Definition rows_or_nil {A} (r : result (list A)) : list A :=
  match r with Ok l => l | Throw _ => [] end.

Definition chennai_norm : list NormalizedRecord :=
  rows_or_nil (mapM (normalize "TAMIL NADU") chennai_rows).

Definition sample_norm : list NormalizedRecord :=
  rows_or_nil (mapM (normalize "TAMIL NADU") sample_rows).

Definition sample_final : list NormalizedRecord :=
  rows_or_nil (final_array "TAMIL NADU" "" sample_rows).

(** What the sample backend makes an all-years cycle display. *)
Definition sample_all_years : list NormalizedRecord :=
  rows_or_nil
    (final_array "TAMIL NADU" ""
       (List.concat
          (map (year_rows sample_network "TAMIL NADU" "") seven_years))).

(** A backend that answers every request with an empty wrapped array. *)
Definition empty_network : network := fun _ =>
  Response true 200 (Some (VObj [("data", VArr [])])).

(** The state a successful single-year cycle leaves its [try] block in. *)
Definition sample_after : state :=
  snd (fetchData_try sample_network recent_year initial_state
         (snd (setLoading true initial_state))).

(** ** Further notions *)

(** An ASCII lower-case letter. *)
Definition lowercase (c : ascii) : bool :=
  (97 <=? code c)%N && (code c <=? 122)%N.

(** A text without ASCII lower-case letter. *)
Definition upper_cased (s : string) : Prop :=
  Forall (fun c => lowercase c = false) (list_ascii_of_string s).

Section Clean.
Variable two : ascii -> ascii -> bool.
Variable three : ascii -> ascii -> ascii -> bool.

(** A list that does not begin with a white-space character. *)
Definition clean_head (l : list ascii) : Prop :=
  match l with
  | [] => True
  | x1 :: l1 =>
      is_space x1 = false /\
      match l1 with
      | [] => True
      | x2 :: l2 =>
          two x1 x2 = false /\
          match l2 with
          | [] => True
          | x3 :: _ => three x1 x2 x3 = false
          end
      end
  end.
End Clean.

(** A text that does not begin, or does not end, with white space. *)
Definition clean_start (l : list ascii) : Prop :=
  clean_head is_space2 is_space3 l.

Definition clean_end (l : list ascii) : Prop :=
  clean_head (fun x1 x2 => is_space2 x2 x1)
             (fun x1 x2 x3 => is_space3 x3 x2 x1) (rev l).

(** A text of ASCII characters. *)
Definition ascii_text (s : string) : Prop :=
  Forall (fun c => (code c <? 128)%N = true) (list_ascii_of_string s).

(** A text made of decimal digits. *)
Definition digits_only (s : string) : Prop :=
  Forall (fun c => is_digit c = true) (list_ascii_of_string s).

(** A text made of decimal digits and commas. *)
Definition grouped_digits (s : string) : Prop :=
  Forall (fun c => is_digit c || (code c =? 44)%N = true)
         (list_ascii_of_string s).

(** The integer the digits of a text spell, other characters skipped. *)
Definition digits_value (s : string) : Z :=
  decimal_value (filter is_digit (list_ascii_of_string s)).

(** The integer total of a measure over normalised rows. *)
Definition integer_total (f : NormalizedRecord -> number)
    (l : list NormalizedRecord) : Z :=
  sum_Z (map (fun n => to_Z (f n)) l).

(** The years a cycle asks the backend for. *)
Definition years_requested (y : string) : list string :=
  if String.eqb y "All" then seven_years else [y].

(** What one year of the all-years loop writes on the console: a
    warning when its request or the reading of its rows fails. *)
Definition year_warning (net : network) (st dov : string) (y : string)
  : list log_entry :=
  match (let* rows := read_body (net (year_query st dov y)) in
         push_rows [] rows) with
  | Ok _ => []
  | Throw e => [Warn y e]
  end.

(** The district keys of the rows, in the order of their first
    appearance. *)
Definition first_keys (l : list NormalizedRecord) : list string :=
  fold_left
    (fun ks n =>
       if existsb (String.eqb (district_name n)) ks then ks
       else ks ++ [district_name n])
    l [].

(** A key that is an array index, and the index. *)
Definition is_index (k : string) : bool :=
  match array_index k with Some _ => true | None => false end.

Definition index_of (k : string) : Z :=
  match array_index k with Some i => i | None => 0 end.

(** The descriptive fields of an aggregate are those of the row [n]. *)
Definition described_by (n d : NormalizedRecord) : Prop :=
  district_name d = district_name n /\
  district_display d = district_display n /\
  state_name d = state_name n /\ fin_year d = fin_year n /\
  month d = month n.

(** What a computation does to the state: the values it leaves in the
    fields it sets, and what it appends to the two traces. *)
Record effect : Type := {
  new_data : option (list NormalizedRecord);
  new_rawRecords : option (list value);
  new_loading : option bool;
  new_insights : option Insights;
  logged : list log_entry;
  sent : list query
}.

Definition no_effect : effect :=
  {| new_data := None; new_rawRecords := None; new_loading := None;
     new_insights := None; logged := []; sent := [] |}.

Definition latest {A} (a b : option A) : option A :=
  match b with Some _ => b | None => a end.

Definition then_effect (e1 e2 : effect) : effect :=
  {| new_data := latest (new_data e1) (new_data e2);
     new_rawRecords := latest (new_rawRecords e1) (new_rawRecords e2);
     new_loading := latest (new_loading e1) (new_loading e2);
     new_insights := latest (new_insights e1) (new_insights e2);
     logged := logged e1 ++ logged e2;
     sent := sent e1 ++ sent e2 |}.

Definition or_kept {A} (o : option A) (a : A) : A :=
  match o with Some x => x | None => a end.

Definition apply_effect (e : effect) (s : state) : state :=
  {| data := or_kept (new_data e) (data s);
     rawRecords := or_kept (new_rawRecords e) (rawRecords s);
     loading := or_kept (new_loading e) (loading s);
     year := year s; stateName := stateName s;
     districtFilter := districtFilter s;
     insights := or_kept (new_insights e) (insights s);
     console := console s ++ logged e;
     requests := requests s ++ sent e |}.

(** A computation is uniform when its outcome and its effect do not
    depend on the state it starts in. *)
Definition uniform {A} (m : M A) : Prop :=
  exists r e, forall s, m s = (r, apply_effect e s).

(** ** Further sample inputs *)

(** Two districts with the same expenditure, and a larger one after. *)
Definition tied_rows : list value :=
  [expenditure_row "Salem" "5"; expenditure_row "Erode" "5";
   expenditure_row "Karur" "7"].

Definition tied_aggregates : list NormalizedRecord :=
  rows_or_nil (aggregate "TAMIL NADU" tied_rows).

Definition tied_final : list NormalizedRecord :=
  rows_or_nil (final_array "TAMIL NADU" "" tied_rows).

Definition tied_insights : Insights :=
  match compute_insights tied_final with
  | Ok i => i
  | Throw _ => initial_insights
  end.

(** Rows of districts named by numbers, between rows of Salem. *)
Definition numbered_rows : list value :=
  [expenditure_row "Salem" "1"; expenditure_row "12" "2";
   expenditure_row "7" "3"; expenditure_row "salem" "4"].

Definition numbered_norm : list NormalizedRecord :=
  rows_or_nil (mapM (normalize "TAMIL NADU") numbered_rows).

Definition sample_insights : Insights :=
  match compute_insights sample_final with
  | Ok i => i
  | Throw _ => initial_insights
  end.

Definition otp_sample : value := VNum (of_Z 4821).



Definition nowhere_answer : value :=
  VObj [("address", VObj [("country", VStr "India")])].

(** A backend whose answer counts its rows instead of listing them. *)
Definition counting_network : network := fun _ =>
  Response true 200 (Some (VObj [("data", VObj [("length", VNum (of_Z 3))])])).

(** A backend that answers every request with one [null] row. *)
Definition null_row_network : network := fun _ =>
  Response true 200 (Some (VArr [VNull])).

(* ===================================================================== *)
(** * Properties *)
(* ===================================================================== *)

Module NumFacts.

Lemma fexp_eq e : fexp prec emax e = Z.max (e - 53) (-1074).
Proof. reflexivity. Qed.

Lemma iter_pos_nat {A} (f : A -> A) p x :
  iter_pos f p x = Nat.iter (Pos.to_nat p) f x.
Proof.
  revert x. induction p as [p IH | p IH |]; intros x; cbn [iter_pos].
  - rewrite !IH, Pos2Nat.inj_xI, Nat.iter_succ_r.
    replace (2 * Pos.to_nat p)%nat with (Pos.to_nat p + Pos.to_nat p)%nat by lia.
    now rewrite Nat.iter_add.
  - rewrite !IH, Pos2Nat.inj_xO.
    replace (2 * Pos.to_nat p)%nat with (Pos.to_nat p + Pos.to_nat p)%nat by lia.
    now rewrite Nat.iter_add.
  - reflexivity.
Qed.

Lemma shr_1_m mrs : 0 <= shr_m mrs -> shr_m (shr_1 mrs) = shr_m mrs / 2.
Proof.
  destruct mrs as [m r s]. cbn [shr_m shr_1]. intros Hm.
  destruct m as [| [p | p |] | p]; cbn [shr_m]; try lia.
  - reflexivity.
  - apply Z.div_unique with 1; lia.
  - apply Z.div_unique with 0; lia.
  - reflexivity.
Qed.

Lemma shr_iter_m n mrs :
  0 <= shr_m mrs ->
  shr_m (Nat.iter n shr_1 mrs) = shr_m mrs / 2 ^ Z.of_nat n.
Proof.
  intros Hm. induction n as [| n IH].
  - simpl. now rewrite Z.div_1_r.
  - rewrite Nat.iter_succ, shr_1_m.
    + rewrite IH, Nat2Z.inj_succ, Z.pow_succ_r by lia.
      rewrite Z.div_div by lia. f_equal. lia.
    + rewrite IH. apply Z.div_pos; lia.
Qed.

Lemma digits2_pos_bounds p :
  2 ^ (Zpos (digits2_pos p) - 1) <= Zpos p < 2 ^ Zpos (digits2_pos p).
Proof.
  induction p as [p IH | p IH |]; simpl digits2_pos.
  - rewrite Pos2Z.inj_succ. change (Zpos p~1) with (2 * Zpos p + 1).
    replace (Z.succ (Zpos (digits2_pos p)) - 1)
      with (Z.succ (Zpos (digits2_pos p) - 1)) by lia.
    rewrite !Z.pow_succ_r by lia.
    set (a := 2 ^ (Zpos (digits2_pos p) - 1)) in *.
    set (b := 2 ^ Zpos (digits2_pos p)) in *. clearbody a b. lia.
  - rewrite Pos2Z.inj_succ. change (Zpos p~0) with (2 * Zpos p).
    replace (Z.succ (Zpos (digits2_pos p)) - 1)
      with (Z.succ (Zpos (digits2_pos p) - 1)) by lia.
    rewrite !Z.pow_succ_r by lia.
    set (a := 2 ^ (Zpos (digits2_pos p) - 1)) in *.
    set (b := 2 ^ Zpos (digits2_pos p)) in *. clearbody a b. lia.
  - simpl. lia.
Qed.

Lemma Zdigits2_bounds m :
  0 < m -> 2 ^ (Zdigits2 m - 1) <= m < 2 ^ Zdigits2 m.
Proof.
  destruct m as [| p | p]; try lia. intros _. apply digits2_pos_bounds.
Qed.

Lemma Zdigits2_pos m : 0 < m -> 0 < Zdigits2 m.
Proof. destruct m; simpl; lia. Qed.

(** Shifting a positive mantissa to its format exponent leaves a positive
    mantissa, as long as the exponent is not below the smallest one. *)
Lemma shr_fexp_pos m e l :
  0 < m -> -1074 <= e ->
  0 < shr_m (fst (shr_fexp prec emax m e l)) /\
  -1074 <= snd (shr_fexp prec emax m e l).
Proof.
  intros Hm He. unfold shr_fexp, shr. rewrite fexp_eq.
  assert (Hr : shr_m (shr_record_of_loc m l) = m)
    by (destruct l as [| []]; reflexivity).
  destruct (Z.max (Zdigits2 m + e - 53) (-1074) - e) as [| n | n] eqn:En;
    simpl; rewrite ?Hr; try (split; lia).
  rewrite iter_pos_nat, shr_iter_m, Hr by (rewrite Hr; lia).
  rewrite positive_nat_Z. split; [| lia].
  pose proof (Zdigits2_bounds m Hm) as [Hlo _].
  pose proof (Zdigits2_pos m Hm).
  assert (Hn : Zpos n <= Zdigits2 m - 1) by lia.
  apply Z.div_str_pos. split; [apply Z.pow_pos_nonneg; lia |].
  eapply Z.le_trans; [| exact Hlo]. apply Z.pow_le_mono_r; lia.
Qed.

Lemma round_nearest_even_ge m l : m <= round_nearest_even m l.
Proof. destruct l as [| []]; simpl; try lia. destruct (Z.even m); lia. Qed.

Lemma binary_round_aux_signed s m e l :
  0 < m -> -1074 <= e -> signed s (binary_round_aux prec emax s m e l).
Proof.
  intros Hm He. unfold binary_round_aux.
  pose proof (shr_fexp_pos m e l Hm He) as [H1 H1e].
  destruct (shr_fexp prec emax m e l) as [mrs' e']. simpl in H1, H1e.
  set (m1 := round_nearest_even (shr_m mrs') (loc_of_shr_record mrs')).
  assert (Hm1 : 0 < m1).
  { pose proof (round_nearest_even_ge (shr_m mrs') (loc_of_shr_record mrs')).
    unfold m1. lia. }
  pose proof (shr_fexp_pos m1 e' loc_Exact Hm1 H1e) as [H2 H2e].
  destruct (shr_fexp prec emax m1 e' loc_Exact) as [mrs'' e'']. simpl in H2, H2e.
  destruct (shr_m mrs'') as [| p | p]; try lia.
  destruct (e'' <=? emax - prec); [left; eauto | right; reflexivity].
Qed.

Lemma shl_align_exp m e e' :
  -1074 <= e -> -1074 <= e' -> -1074 <= snd (shl_align m e e').
Proof.
  intros. unfold shl_align. destruct (e' - e); simpl; lia.
Qed.

Lemma binary_round_signed s m e :
  -1074 <= e -> signed s (binary_round prec emax s m e).
Proof.
  intros He. unfold binary_round.
  pose proof (shl_align_exp m e (fexp prec emax (Zpos (digits2_pos m) + e)) He) as Hs.
  destruct (shl_align m e _) as [mz ez]. simpl in Hs.
  apply binary_round_aux_signed; [lia |]. apply Hs. rewrite fexp_eq. lia.
Qed.

Lemma binary_normalize_sign d e :
  -1074 <= e ->
  match d with
  | Z0 => binary_normalize prec emax d e false = S754_zero false
  | Zpos _ => signed false (binary_normalize prec emax d e false)
  | Zneg _ => signed true (binary_normalize prec emax d e false)
  end.
Proof.
  intros He. destruct d; simpl; [reflexivity | |]; now apply binary_round_signed.
Qed.

Lemma lt_zero_signed s x : signed s x -> lt zero x = negb s.
Proof.
  intros [(m & e & -> & _) | ->]; destruct s; reflexivity.
Qed.

Lemma shl_align_fst m e e' :
  e' <= e -> Zpos (fst (shl_align m e e')) = Zpos m * 2 ^ (e - e').
Proof.
  intros Hle. unfold shl_align.
  destruct (e' - e) as [| d | d] eqn:Ed; simpl fst; try lia.
  - replace (e - e') with 0 by lia. lia.
  - change (Pos.iter xO m d) with (shift_pos d m).
    rewrite shift_pos_correct. replace (e - e') with (Zpos d) by lia.
    change (2 ^ Zpos d) with (Z.pow_pos 2 d). lia.
Qed.

(** What validity says of a finite number. *)
Lemma bounded_inv m e :
  bounded prec emax m e = true ->
  -1074 <= e /\ e <= 971 /\ Zpos (digits2_pos m) <= 53 /\
  (-1074 < e -> Zpos (digits2_pos m) = 53).
Proof.
  unfold bounded, canonical_mantissa. rewrite fexp_eq.
  intros H. apply andb_true_iff in H as [H1 H2].
  apply Z.eqb_eq in H1. apply Z.leb_le in H2.
  change (emax - prec) with 971 in H2. lia.
Qed.

(** Canonical mantissas and exponents are ordered like the values. *)
Lemma compare_canonical mx ex my ey :
  bounded prec emax mx ex = true -> bounded prec emax my ey = true ->
  match ex ?= ey with
  | Lt => Lt
  | Gt => Gt
  | Eq => Pos.compare_cont Eq mx my
  end
  = (Zpos mx * 2 ^ (ex - Z.min ex ey) ?= Zpos my * 2 ^ (ey - Z.min ex ey)).
Proof.
  intros Hx Hy.
  apply bounded_inv in Hx as (Hx1 & _ & Hx3 & Hx4).
  apply bounded_inv in Hy as (Hy1 & _ & Hy3 & Hy4).
  pose proof (digits2_pos_bounds mx) as [Hxl Hxu].
  pose proof (digits2_pos_bounds my) as [Hyl Hyu].
  destruct (Z.compare_spec ex ey) as [He | He | He].
  - subst ey. rewrite Z.min_id, Z.sub_diag, !Z.mul_1_r. reflexivity.
  - symmetry. apply Z.compare_lt_iff.
    rewrite Z.min_l, Z.sub_diag, Z.mul_1_r by lia.
    rewrite Hy4 in Hyl by lia.
    assert (Zpos mx < 2 ^ 53).
    { eapply Z.lt_le_trans; [exact Hxu |]. apply Z.pow_le_mono_r; lia. }
    assert (2 ^ 1 <= 2 ^ (ey - ex)) by (apply Z.pow_le_mono_r; lia).
    change (2 ^ (53 - 1)) with 4503599627370496 in Hyl.
    change (2 ^ 53) with 9007199254740992 in H.
    change (2 ^ 1) with 2 in H0. nia.
  - symmetry. apply Z.compare_gt_iff.
    rewrite Z.min_r, Z.sub_diag, Z.mul_1_r by lia.
    rewrite Hx4 in Hxl by lia.
    assert (Zpos my < 2 ^ 53).
    { eapply Z.lt_le_trans; [exact Hyu |]. apply Z.pow_le_mono_r; lia. }
    assert (2 ^ 1 <= 2 ^ (ex - ey)) by (apply Z.pow_le_mono_r; lia).
    change (2 ^ (53 - 1)) with 4503599627370496 in Hxl.
    change (2 ^ 53) with 9007199254740992 in H.
    change (2 ^ 1) with 2 in H0. nia.
Qed.

(** The sign of a difference tells the order of its operands. *)
Lemma sub_positive x y :
  valid x = true -> valid y = true -> isNaN x = false -> isNaN y = false ->
  lt zero (sub y x) = lt x y.
Proof.
  intros Vx Vy Nx Ny.
  destruct x as [sx | sx | | sx mx ex]; try discriminate;
  destruct y as [sy | sy | | sy my ey]; try discriminate;
    try (destruct sx, sy; reflexivity);
    try (destruct sx; reflexivity); try (destruct sy; reflexivity).
  unfold valid in Vx, Vy. simpl in Vx, Vy.
  pose proof (compare_canonical mx ex my ey Vx Vy) as Hc.
  pose proof (bounded_inv _ _ Vx) as (Hx1 & _).
  pose proof (bounded_inv _ _ Vy) as (Hy1 & _).
  unfold sub, SFsub.
  rewrite (Z.min_comm ey ex).
  set (ez := Z.min ex ey) in *.
  assert (Hez : -1074 <= ez) by (unfold ez; lia).
  pose proof (shl_align_fst mx ex ez ltac:(unfold ez; lia)) as HX.
  pose proof (shl_align_fst my ey ez ltac:(unfold ez; lia)) as HY.
  set (X := Zpos (fst (shl_align mx ex ez))) in *.
  set (Y := Zpos (fst (shl_align my ey ez))) in *.
  rewrite <- HX, <- HY in Hc.
  assert (HXp : 0 < X) by (unfold X; lia).
  assert (HYp : 0 < Y) by (unfold Y; lia).
  pose proof (binary_normalize_sign (cond_Zopp sy Y - cond_Zopp sx X) ez Hez) as Hn.
  unfold lt at 2, SFltb, SFcompare.
  destruct sx, sy; unfold cond_Zopp in *.
  - assert (Hneg :
        match ex ?= ey with
        | Eq => CompOpp (Pos.compare_cont Eq mx my)
        | Lt => Gt
        | Gt => Lt
        end = CompOpp (X ?= Y))
      by (rewrite <- Hc; destruct (ex ?= ey); reflexivity).
    rewrite Hneg.
    destruct (Z.compare_spec X Y) as [E | E | E];
      destruct (- Y - - X) eqn:Ed; try lia; simpl CompOpp;
      try (rewrite Hn; reflexivity);
      try (rewrite (lt_zero_signed _ _ Hn); reflexivity).
  - destruct (Y - - X) eqn:Ed; try lia.
    rewrite (lt_zero_signed _ _ Hn); reflexivity.
  - destruct (- Y - X) eqn:Ed; try lia.
    rewrite (lt_zero_signed _ _ Hn); reflexivity.
  - rewrite Hc.
    destruct (Z.compare_spec X Y) as [E | E | E];
      destruct (Y - X) eqn:Ed; try lia;
      try (rewrite Hn; reflexivity);
      try (rewrite (lt_zero_signed _ _ Hn); reflexivity).
Qed.

Lemma lt_false_ge x y :
  isNaN x = false -> isNaN y = false -> lt x y = false -> ge x y = true.
Proof.
  unfold lt, ge, SFltb, SFleb. intros Nx Ny.
  destruct x as [sx | sx | | sx mx ex]; try discriminate;
  destruct y as [sy | sy | | sy my ey]; try discriminate;
    try (destruct sx, sy; simpl; congruence);
    try (destruct sx; simpl; congruence); try (destruct sy; simpl; congruence).
  simpl.
  change (Pos.compare_cont Eq my mx) with (Pos.compare my mx).
  change (Pos.compare_cont Eq mx my) with (Pos.compare mx my).
  rewrite (Z.compare_antisym ex ey), (Pos.compare_antisym mx my).
  destruct sx, sy; try congruence;
    destruct (ex ?= ey); simpl; try congruence;
    destruct (Pos.compare mx my); simpl; congruence.
Qed.

Lemma lt_true_le x y : lt x y = true -> ge y x = true.
Proof.
  unfold lt, ge, SFltb, SFleb. destruct (SFcompare x y) as [[]|]; congruence.
Qed.

(** ** Exact results *)

Lemma digits2_pos_unique m d :
  2 ^ (d - 1) <= Zpos m < 2 ^ d -> Zpos (digits2_pos m) = d.
Proof.
  intros [Hl Hu]. pose proof (digits2_pos_bounds m) as [Hl' Hu'].
  assert (Hd : 0 < d).
  { destruct (Z.ltb_spec 0 d) as [|Hd]; [assumption |].
    rewrite (Z.pow_neg_r 2 (d - 1)) in Hl by lia.
    destruct (Z.eq_dec d 0) as [-> | ]; [simpl in Hu; lia |].
    rewrite (Z.pow_neg_r 2 d) in Hu by lia. lia. }
  destruct (Z.lt_trichotomy (Zpos (digits2_pos m)) d) as [H | [H | H]];
    [exfalso | assumption | exfalso].
  - assert (2 ^ Zpos (digits2_pos m) <= 2 ^ (d - 1))
      by (apply Z.pow_le_mono_r; lia). lia.
  - assert (2 ^ d <= 2 ^ (Zpos (digits2_pos m) - 1))
      by (apply Z.pow_le_mono_r; lia). lia.
Qed.

Lemma digits2_pos_shift m k M :
  0 <= k -> Zpos M = Zpos m * 2 ^ k ->
  Zpos (digits2_pos M) = Zpos (digits2_pos m) + k.
Proof.
  intros Hk HM. apply digits2_pos_unique. rewrite HM.
  pose proof (digits2_pos_bounds m) as [Hl Hu].
  assert (0 < 2 ^ k) by (apply Z.pow_pos_nonneg; lia).
  replace (Zpos (digits2_pos m) + k - 1)
    with ((Zpos (digits2_pos m) - 1) + k) by lia.
  rewrite !Z.pow_add_r by lia. nia.
Qed.

Lemma shr_1_double m :
  0 <= m ->
  shr_1 {| shr_m := 2 * m; shr_r := false; shr_s := false |}
  = {| shr_m := m; shr_r := false; shr_s := false |}.
Proof. destruct m; try lia; reflexivity. Qed.

Lemma shr_iter_exact n m :
  0 <= m ->
  Nat.iter n shr_1
    {| shr_m := m * 2 ^ Z.of_nat n; shr_r := false; shr_s := false |}
  = {| shr_m := m; shr_r := false; shr_s := false |}.
Proof.
  intros Hm. induction n as [| n IH].
  - simpl. now rewrite Z.mul_1_r.
  - rewrite Nat.iter_succ_r, Nat2Z.inj_succ, Z.pow_succ_r by lia.
    replace (m * (2 * 2 ^ Z.of_nat n)) with (2 * (m * 2 ^ Z.of_nat n)) by lia.
    rewrite shr_1_double; [exact IH |].
    apply Z.mul_nonneg_nonneg; [lia | apply Z.pow_nonneg; lia].
Qed.

(** A canonical mantissa and exponent go through rounding unchanged. *)
Lemma binary_round_aux_canonical s m e :
  bounded prec emax m e = true ->
  binary_round_aux prec emax s (Zpos m) e loc_Exact = S754_finite s m e.
Proof.
  intros Hb. unfold bounded, canonical_mantissa in Hb.
  apply andb_true_iff in Hb as [Hc Hle]. apply Z.eqb_eq in Hc.
  unfold binary_round_aux, shr_fexp. cbn [Zdigits2 shr_record_of_loc].
  rewrite Hc, Z.sub_diag. cbn [shr shr_m loc_of_shr_record round_nearest_even].
  cbn [Zdigits2]. rewrite Hc, Z.sub_diag. cbn [shr shr_m].
  now rewrite Hle.
Qed.

(** Rounding a value that a canonical pair represents gives that pair. *)
Lemma binary_round_representable s M E m e :
  bounded prec emax m e = true ->
  (E <= e /\ Zpos M = Zpos m * 2 ^ (e - E)) \/
  (e <= E /\ Zpos m = Zpos M * 2 ^ (E - e)) ->
  binary_round prec emax s M E = S754_finite s m e.
Proof.
  intros Hb Hrep.
  assert (Hc : fexp prec emax (Zpos (digits2_pos m) + e) = e).
  { unfold bounded, canonical_mantissa in Hb.
    apply andb_true_iff in Hb as [Hc _]. now apply Z.eqb_eq in Hc. }
  unfold binary_round.
  destruct Hrep as [[HE HM] | [HE Hm]].
  - pose proof (digits2_pos_shift m (e - E) M ltac:(lia) HM) as Hd.
    replace (Zpos (digits2_pos M) + E) with (Zpos (digits2_pos m) + e) by lia.
    rewrite Hc. unfold shl_align.
    destruct (e - E) as [| p | p] eqn:Ep; try lia.
    + assert (M = m) by lia. subst M. replace E with e by lia.
      now apply binary_round_aux_canonical.
    + unfold binary_round_aux, shr_fexp. cbn [Zdigits2 shr_record_of_loc].
      replace (Zpos (digits2_pos M) + E) with (Zpos (digits2_pos m) + e) by lia.
      rewrite Hc. replace (e - E) with (Zpos p) by lia. cbn [shr].
      rewrite iter_pos_nat, HM, <- (positive_nat_Z p), shr_iter_exact by lia.
      cbn [shr_m loc_of_shr_record round_nearest_even Zdigits2].
      replace (E + Z.of_nat (Pos.to_nat p)) with e by lia.
      rewrite Hc, Z.sub_diag. cbn [shr shr_m].
      unfold bounded in Hb. apply andb_true_iff in Hb as [_ Hle].
      now rewrite Hle.
  - pose proof (digits2_pos_shift M (E - e) m ltac:(lia) Hm) as Hd.
    replace (Zpos (digits2_pos M) + E) with (Zpos (digits2_pos m) + e) by lia.
    rewrite Hc. unfold shl_align.
    destruct (e - E) as [| p | p] eqn:Ep; try lia.
    + assert (M = m) by (replace (E - e) with 0 in Hm by lia; lia).
      subst M. replace E with e by lia.
      now apply binary_round_aux_canonical.
    + change (Pos.iter xO M p) with (shift_pos p M).
      assert (shift_pos p M = m) as ->.
      { apply Pos2Z.inj. rewrite shift_pos_correct, Hm.
        replace (E - e) with (Zpos p) by lia.
        change (2 ^ Zpos p) with (Z.pow_pos 2 p). lia. }
      now apply binary_round_aux_canonical.
Qed.

(** ** Integers below [2^53] *)

Lemma binary_round_int s c :
  Zpos c < 2 ^ 53 ->
  exists m e,
    binary_round prec emax s c 0 = S754_finite s m e /\
    bounded prec emax m e = true /\ e <= 0 /\ Zpos m = Zpos c * 2 ^ (- e).
Proof.
  intros Hc. pose proof (digits2_pos_bounds c) as [Hl Hu].
  set (d := Zpos (digits2_pos c)) in *.
  assert (Hd : 1 <= d <= 53).
  { split; [unfold d; lia |].
    destruct (Z.leb_spec d 53) as [|Hgt]; [assumption | exfalso].
    assert (2 ^ 53 <= 2 ^ (d - 1)) by (apply Z.pow_le_mono_r; lia). lia. }
  assert (Hp : 0 < Zpos c * 2 ^ (53 - d)).
  { apply Z.mul_pos_pos; [lia | apply Z.pow_pos_nonneg; lia]. }
  destruct (Zpos c * 2 ^ (53 - d)) as [| m | m] eqn:Em; try lia.
  exists m, (d - 53).
  assert (Hdm : Zpos (digits2_pos m) = 53).
  { rewrite (digits2_pos_shift c (53 - d) m) by lia. fold d. lia. }
  assert (Hb : bounded prec emax m (d - 53) = true).
  { unfold bounded, canonical_mantissa. rewrite Hdm, fexp_eq.
    apply andb_true_iff. split; [apply Z.eqb_eq | apply Z.leb_le].
    - lia.
    - change (emax - prec) with 971. lia. }
  split; [| split; [exact Hb | split; [lia |]]].
  - apply binary_round_representable; [exact Hb |]. right.
    split; [lia |]. replace (0 - (d - 53)) with (53 - d) by lia. lia.
  - replace (- (d - 53)) with (53 - d) by lia. lia.
Qed.

Lemma of_Z_finite z :
  safe z -> z <> 0 ->
  exists m e,
    of_Z z = S754_finite (z <? 0) m e /\
    bounded prec emax m e = true /\ e <= 0 /\
    Zpos m = Z.abs z * 2 ^ (- e).
Proof.
  unfold safe. intros Hs Hz. destruct z as [| c | c]; [congruence | |].
  - apply (binary_round_int false c). simpl in Hs. lia.
  - apply (binary_round_int true c). simpl in Hs. lia.
Qed.

Lemma to_Z_of_Z z : safe z -> to_Z (of_Z z) = z.
Proof.
  intros Hs. destruct (Z.eq_dec z 0) as [-> | Hz]; [reflexivity |].
  destruct (of_Z_finite z Hs Hz) as (m & e & -> & _ & He & Hm).
  unfold to_Z. rewrite Hm.
  assert (0 < 2 ^ (- e)) by (apply Z.pow_pos_nonneg; lia).
  destruct (Z.leb_spec 0 e).
  - replace e with 0 by lia. simpl. destruct (Z.ltb_spec z 0); lia.
  - rewrite Z.div_mul by lia. destruct (Z.ltb_spec z 0); lia.
Qed.

(** Below [2^53] the sum of two integers is computed exactly. *)
Lemma add_exact a b :
  safe a -> safe b -> safe (a + b) ->
  add (of_Z a) (of_Z b) = of_Z (a + b).
Proof.
  intros Ha Hb Hab.
  destruct (Z.eq_dec a 0) as [-> | Hna].
  { rewrite Z.add_0_l.
    destruct (Z.eq_dec b 0) as [-> | Hnb]; [reflexivity |].
    destruct (of_Z_finite b Hb Hnb) as (m & e & -> & _). reflexivity. }
  destruct (Z.eq_dec b 0) as [-> | Hnb].
  { rewrite Z.add_0_r.
    destruct (of_Z_finite a Ha Hna) as (m & e & -> & _). reflexivity. }
  destruct (of_Z_finite a Ha Hna) as (ma & ea & -> & Hba & Hea & Hma).
  destruct (of_Z_finite b Hb Hnb) as (mb & eb & -> & Hbb & Heb & Hmb).
  unfold add, SFadd.
  set (ez := Z.min ea eb).
  rewrite !shl_align_fst by (unfold ez; lia).
  assert (HA : cond_Zopp (a <? 0) (Zpos ma * 2 ^ (ea - ez)) = a * 2 ^ (- ez)).
  { rewrite Hma, <- Z.mul_assoc, <- Z.pow_add_r by (unfold ez; lia).
    replace (- ea + (ea - ez)) with (- ez) by lia.
    unfold cond_Zopp. destruct (Z.ltb_spec a 0); lia. }
  assert (HB : cond_Zopp (b <? 0) (Zpos mb * 2 ^ (eb - ez)) = b * 2 ^ (- ez)).
  { rewrite Hmb, <- Z.mul_assoc, <- Z.pow_add_r by (unfold ez; lia).
    replace (- eb + (eb - ez)) with (- ez) by lia.
    unfold cond_Zopp. destruct (Z.ltb_spec b 0); lia. }
  rewrite HA, HB, <- Z.mul_add_distr_r.
  assert (Hez : ez <= 0) by (unfold ez; lia).
  assert (Hp : 0 < 2 ^ (- ez)) by (apply Z.pow_pos_nonneg; lia).
  destruct (Z.eq_dec (a + b) 0) as [E0 | Hnc].
  { rewrite E0. reflexivity. }
  destruct (of_Z_finite (a + b) Hab Hnc) as (mc & ec & -> & Hbc & Hec & Hmc).
  assert (Hrep : forall D : positive,
             Zpos D = Z.abs (a + b) * 2 ^ (- ez) ->
             (ez <= ec /\ Zpos D = Zpos mc * 2 ^ (ec - ez)) \/
             (ec <= ez /\ Zpos mc = Zpos D * 2 ^ (ez - ec))).
  { intros D HD. destruct (Z.le_ge_cases ez ec); [left | right]; split; try lia.
    - rewrite HD, Hmc, <- Z.mul_assoc, <- Z.pow_add_r by lia.
      f_equal. f_equal. lia.
    - rewrite HD, Hmc, <- Z.mul_assoc, <- Z.pow_add_r by lia.
      f_equal. f_equal. lia. }
  destruct ((a + b) * 2 ^ (- ez)) as [| D | D] eqn:ED.
  - nia.
  - assert (0 < a + b) by nia.
    unfold binary_normalize.
    replace (a + b <? 0) with false by (symmetry; apply Z.ltb_ge; lia).
    apply binary_round_representable; [exact Hbc |].
    apply Hrep. rewrite Z.abs_eq by lia. lia.
  - assert (a + b < 0) by nia.
    unfold binary_normalize.
    replace (a + b <? 0) with true by (symmetry; apply Z.ltb_lt; lia).
    apply binary_round_representable; [exact Hbc |].
    apply Hrep. rewrite Z.abs_neq by lia. lia.
Qed.

End NumFacts.
Import NumFacts.

Module GroupFacts.

Lemma is_empty_toUpperCase s : is_empty (toUpperCase s) = is_empty s.
Proof. destruct s; reflexivity. Qed.

Lemma mapM_Forall2 {A B} (f : A -> result B) l l' :
  mapM f l = Ok l' -> Forall2 (fun a b => f a = Ok b) l l'.
Proof.
  revert l'. induction l as [| a l IH]; intros l' H; simpl in H.
  - inversion H. constructor.
  - destruct (f a) as [b |] eqn:Ea; simpl in H; [| discriminate].
    destruct (mapM f l) as [bs |]; simpl in H; [| discriminate].
    inversion H; subst. constructor; auto.
Qed.

Lemma mapM_Permutation {A B} (f : A -> result B) l1 l2 :
  Permutation l1 l2 ->
  forall r1, mapM f l1 = Ok r1 ->
  exists r2, mapM f l2 = Ok r2 /\ Permutation r1 r2.
Proof.
  induction 1 as [| a l1 l2 HP IH | a b l | l1 l2 l3 H12 IH12 H23 IH23];
    intros r1 Hr; simpl in *.
  - inversion Hr. exists []. auto.
  - destruct (f a) as [x |]; simpl in *; [| discriminate].
    destruct (mapM f l1) as [xs |] eqn:E1; simpl in *; [| discriminate].
    inversion Hr; subst. destruct (IH xs eq_refl) as (r2 & -> & HP2).
    simpl. eexists; split; [reflexivity | now constructor].
  - destruct (f b) as [y |]; simpl in *; [| discriminate].
    destruct (f a) as [x |]; simpl in *; [| discriminate].
    destruct (mapM f l) as [xs |]; simpl in *; [| discriminate].
    inversion Hr; subst. eexists; split; [reflexivity | constructor].
  - destruct (IH12 r1 Hr) as (r2 & H2 & P2).
    destruct (IH23 r2 H2) as (r3 & H3 & P3).
    exists r3; split; [assumption | now transitivity r2].
Qed.

(** *** The accumulator object *)

Lemma lookup_app {A} k (o : list (string * A)) k' a :
  lookup k (o ++ [(k', a)]) =
  match lookup k o with
  | Some x => Some x
  | None => if String.eqb k' k then Some a else None
  end.
Proof.
  induction o as [| [k0 x] o IH]; simpl; [reflexivity |].
  destruct (String.eqb k0 k); [reflexivity | exact IH].
Qed.

Lemma lookup_update k key cur acc :
  lookup k (update key cur acc) =
  if String.eqb key k
  then option_map (fun a => accumulate a cur) (lookup k acc)
  else lookup k acc.
Proof.
  induction acc as [| [k0 a] acc IH]; simpl.
  - now destruct (String.eqb key k).
  - destruct (String.eqb_spec k0 key) as [-> | Hne]; simpl.
    + destruct (String.eqb key k); reflexivity.
    + destruct (String.eqb_spec k0 k) as [-> | Hne'].
      * destruct (String.eqb_spec key k); [congruence | reflexivity].
      * exact IH.
Qed.

Lemma lookup_group_step k acc cur :
  lookup k (group_step acc cur) =
  if String.eqb (district_name cur) k
  then match lookup k acc with
       | Some a => Some (accumulate a cur)
       | None => Some cur
       end
  else lookup k acc.
Proof.
  unfold group_step.
  destruct (String.eqb_spec (district_name cur) k) as [E | Hne].
  - rewrite E. destruct (lookup k acc) as [a |] eqn:El.
    + rewrite lookup_update, String.eqb_refl, El. reflexivity.
    + rewrite lookup_app, El, String.eqb_refl. reflexivity.
  - destruct (lookup (district_name cur) acc) as [a |] eqn:El.
    + rewrite lookup_update.
      destruct (String.eqb_spec (district_name cur) k); [congruence | reflexivity].
    + rewrite lookup_app.
      destruct (lookup k acc); [reflexivity |].
      destruct (String.eqb_spec (district_name cur) k); [congruence | reflexivity].
Qed.

(** The aggregate of a district is its first row with the later rows of
    the district accumulated into it, in input order. *)
Lemma lookup_fold_group_step k l acc :
  lookup k (fold_left group_step l acc) =
  match lookup k acc with
  | Some a => Some (fold_left accumulate (group_of k l) a)
  | None =>
      match group_of k l with
      | [] => None
      | first :: rest => Some (fold_left accumulate rest first)
      end
  end.
Proof.
  revert acc. induction l as [| cur l IH]; intros acc; simpl.
  - destruct (lookup k acc); reflexivity.
  - rewrite IH, lookup_group_step.
    destruct (String.eqb (district_name cur) k); simpl; [| reflexivity].
    destruct (lookup k acc); reflexivity.
Qed.

Lemma keys_update key cur acc : map fst (update key cur acc) = map fst acc.
Proof.
  induction acc as [| [k a] acc IH]; simpl; [reflexivity |].
  destruct (String.eqb k key); simpl; [reflexivity | now rewrite IH].
Qed.

Lemma lookup_None_not_In {A} k (o : list (string * A)) :
  lookup k o = None -> ~ In k (map fst o).
Proof.
  induction o as [| [k0 a] o IH]; simpl; [tauto |].
  destruct (String.eqb_spec k0 k); [discriminate |].
  intros H [E | HI]; [congruence | now apply IH].
Qed.

Lemma keys_group_step acc cur :
  NoDup (map fst acc) -> NoDup (map fst (group_step acc cur)).
Proof.
  intros H. unfold group_step.
  destruct (lookup (district_name cur) acc) eqn:El.
  - now rewrite keys_update.
  - rewrite map_app. simpl. apply NoDup_app; [assumption | | ].
    + repeat constructor. simpl. tauto.
    + intros k Hk [<- | []]. now apply lookup_None_not_In in El.
Qed.

Lemma keys_fold l acc :
  NoDup (map fst acc) -> NoDup (map fst (fold_left group_step l acc)).
Proof.
  revert acc. induction l; simpl; intros; [assumption |].
  apply IHl. now apply keys_group_step.
Qed.

Lemma In_lookup {A} k (a : A) o :
  NoDup (map fst o) -> In (k, a) o -> lookup k o = Some a.
Proof.
  induction o as [| [k0 x] o IH]; simpl; [tauto |].
  intros Hnd [E | HI].
  - inversion E; subst. now rewrite String.eqb_refl.
  - inversion Hnd; subst.
    destruct (String.eqb_spec k0 k) as [-> | ].
    + exfalso. apply H1. apply (in_map fst) in HI. exact HI.
    + now apply IH.
Qed.

Lemma lookup_In {A} k (a : A) o : lookup k o = Some a -> In (k, a) o.
Proof.
  induction o as [| [k0 x] o IH]; simpl; [discriminate |].
  destruct (String.eqb_spec k0 k) as [-> | ].
  - intros E; inversion E; auto.
  - auto.
Qed.

Lemma district_name_fold rest first :
  district_name (fold_left accumulate rest first) = district_name first.
Proof.
  revert first. induction rest; simpl; intros; [reflexivity |].
  now rewrite IHrest.
Qed.

Lemma group_of_In k l n : In n (group_of k l) -> district_name n = k.
Proof.
  unfold group_of. intros H. apply filter_In in H as [_ H].
  now apply String.eqb_eq.
Qed.

(** Each aggregate is stored under its own district key. *)
Lemma grouped_key l k d :
  In (k, d) (group_by_district l) -> district_name d = k.
Proof.
  intros H. unfold group_by_district in *.
  apply In_lookup in H; [| apply keys_fold; constructor].
  rewrite lookup_fold_group_step in H. simpl in H.
  destruct (group_of k l) as [| first rest] eqn:Eg; [discriminate |].
  inversion H; subst. rewrite district_name_fold.
  apply (group_of_In k l). rewrite Eg. now left.
Qed.

(** *** [Object.values] lists every own property once *)

Lemma insert_index_perm {A} i (a : A) l :
  Permutation (map snd (insert_index i a l)) (a :: map snd l).
Proof.
  induction l as [| [j b] l IH]; simpl; [reflexivity |].
  destruct (i <? j); simpl; [reflexivity |].
  rewrite IH. apply perm_swap.
Qed.

Lemma Object_values_perm {A} (o : list (string * A)) :
  Permutation (Object_values o) (map snd o).
Proof.
  unfold Object_values. induction o as [| [k a] o IH]; simpl; [reflexivity |].
  destruct (array_index k).
  - rewrite insert_index_perm. simpl. now constructor.
  - rewrite <- Permutation_middle. now constructor.
Qed.

End GroupFacts.
Import GroupFacts.

Module AggregateFacts.

Lemma ToString_scalar v : scalar v = true -> exists s, ToString v = Ok s.
Proof. destruct v; simpl; try discriminate; eauto. Qed.

Lemma toNumber_scalar v : scalar v = true -> exists n, toNumber v = Ok n.
Proof. destruct v; simpl; try discriminate; eauto. Qed.

Lemma get_record fields k :
  Forall (fun kv => scalar (snd kv) = true) fields ->
  exists v, get (VObj fields) k = Ok v /\ scalar v = true.
Proof.
  intros H. simpl. eexists; split; [reflexivity |].
  induction H as [| [k0 x] fs Hx _ IH]; simpl; [reflexivity |].
  destruct (String.eqb k0 k); [exact Hx | exact IH].
Qed.

Lemma scalar_or_else a b :
  scalar a = true -> scalar b = true -> scalar (or_else a b) = true.
Proof. unfold or_else. now destruct (truthy a). Qed.

Lemma normalize_raw_record st r :
  raw_record r -> exists n, normalize st r = Ok n.
Proof.
  intros (fs & -> & Hfs).
  assert (Hnum : forall k, exists n, field_number (VObj fs) k = Ok n).
  { intros k. unfold field_number.
    destruct (get_record fs k Hfs) as (v & -> & Hv). simpl.
    now apply toNumber_scalar. }
  unfold normalize, district_raw.
  destruct (get_record fs "district_name" Hfs) as (dn & -> & Hdn).
  cbn [bind].
  assert (exists dn', (if truthy dn then Ok dn else get (VObj fs) "District")
                      = Ok dn' /\ scalar dn' = true) as (dn' & -> & Hdn').
  { destruct (truthy dn); [eauto |]. apply get_record, Hfs. }
  cbn [bind].
  destruct (ToString_scalar (or_else dn' (VStr "")))
    as (text & ->); [now apply scalar_or_else |].
  cbn [bind].
  destruct (get_record fs "state_name" Hfs) as (? & -> & _).
  destruct (get_record fs "fin_year" Hfs) as (? & -> & _).
  destruct (get_record fs "month" Hfs) as (? & -> & _).
  cbn [bind].
  destruct (Hnum "Approved_Labour_Budget") as (? & ->).
  destruct (Hnum "Average_Wage_rate_per_day_per_person") as (? & ->).
  destruct (Hnum "Average_days_of_employment_provided_per_Household")
    as (? & ->).
  destruct (Hnum "Total_Households_Worked") as (? & ->).
  destruct (Hnum "Total_Individuals_Worked") as (? & ->).
  destruct (Hnum "Total_Exp") as (? & ->).
  destruct (Hnum "Wages") as (? & ->).
  cbn [bind]. eauto.
Qed.

Lemma mapM_total {A B} (f : A -> result B) l :
  Forall (fun a => exists b, f a = Ok b) l -> exists bs, mapM f l = Ok bs.
Proof.
  induction 1 as [| a l (b & Hb) _ (bs & Hbs)]; simpl; [eauto |].
  rewrite Hb, Hbs. simpl. eauto.
Qed.

(** The district key and display name of a normalised row. *)
Lemma normalize_district st r n :
  normalize st r = Ok n ->
  exists raw text,
    district_raw r = Ok raw /\ ToString raw = Ok text /\
    district_display n = trim text /\
    district_name n = toUpperCase (trim text).
Proof.
  unfold normalize. intros H.
  destruct (district_raw r) as [raw |]; simpl in H; [| discriminate].
  destruct (ToString raw) as [text |] eqn:Et; simpl in H; [| discriminate].
  exists raw, text.
  repeat match type of H with
         | bind ?c _ = _ => destruct c; simpl in H; [| discriminate]
         end.
  inversion H; subst; simpl. auto.
Qed.

Lemma valid_district_display st r n :
  normalize st r = Ok n ->
  valid_district n = negb (is_empty (district_display n)).
Proof.
  intros H. destruct (normalize_district st r n H) as (raw & text & _ & _ & Hd & Hn).
  unfold valid_district. now rewrite Hn, Hd, is_empty_toUpperCase.
Qed.

(** Each measure of a normalised row is the number read from the
    property of that name. *)
Lemma normalize_measures st r n :
  normalize st r = Ok n -> Forall (read_from r n) measure_fields.
Proof.
  unfold normalize. intros H.
  destruct (district_raw r) as [raw |]; cbn [bind] in H; [| discriminate].
  destruct (ToString raw) as [text |]; cbn [bind] in H; [| discriminate].
  destruct (get r "state_name"); cbn [bind] in H; [| discriminate].
  destruct (get r "fin_year"); cbn [bind] in H; [| discriminate].
  destruct (get r "month"); cbn [bind] in H; [| discriminate].
  assert (Hf : forall k x, field_number r k = Ok x ->
                 exists v, get r k = Ok v /\ toNumber v = Ok x).
  { intros k x E. unfold field_number in E.
    destruct (get r k) as [v |]; cbn [bind] in E; [eauto | discriminate]. }
  repeat match type of H with
         | bind (field_number r ?k) _ = _ =>
             let E := fresh "E" in
             destruct (field_number r k) eqn:E; cbn [bind] in H;
             [apply Hf in E | discriminate]
         end.
  injection H as <-. unfold measure_fields, read_from.
  repeat constructor; assumption.
Qed.

Lemma measures_accumulate :
  Forall (fun f => forall a c, f (accumulate a c) = add (f a) (f c)) measures.
Proof. repeat constructor. Qed.

Lemma measure_fold f :
  In f measures ->
  forall rest first,
    f (fold_left accumulate rest first) = fold_left add (map f rest) (f first).
Proof.
  intros Hf. pose proof measures_accumulate as HA.
  rewrite Forall_forall in HA. specialize (HA f Hf).
  induction rest as [| c rest IH]; intros first; simpl; [reflexivity |].
  now rewrite IH, HA.
Qed.

(** The aggregates are the districts of the kept rows, each one the
    accumulation of its rows. *)
Lemma aggregates_of kept :
  let agg := Object_values (group_by_district kept) in
  NoDup (map district_name agg) /\
  (forall n, In n kept ->
     exists d, In d agg /\ district_name d = district_name n) /\
  (forall d, In d agg ->
     exists first rest,
       group_of (district_name d) kept = first :: rest /\
       d = fold_left accumulate rest first).
Proof.
  intros agg.
  assert (Hnd : NoDup (map fst (group_by_district kept)))
    by (apply keys_fold; constructor).
  assert (Hlook : forall k,
             lookup k (group_by_district kept) =
             match group_of k kept with
             | [] => None
             | first :: rest => Some (fold_left accumulate rest first)
             end)
    by (intros k; unfold group_by_district;
        now rewrite lookup_fold_group_step).
  assert (Hin : forall d, In d agg <->
                  In (district_name d, d) (group_by_district kept)).
  { intros d. unfold agg. split; intros H.
    - apply (Permutation_in _ (Object_values_perm _)) in H.
      apply in_map_iff in H as ([k d'] & <- & H). simpl.
      now rewrite (grouped_key _ _ _ H).
    - apply (Permutation_in _ (Permutation_sym (Object_values_perm _))).
      apply in_map_iff. now exists (district_name d, d). }
  split; [| split].
  - apply (Permutation_NoDup
             (l := map district_name (map snd (group_by_district kept)))).
    + apply Permutation_map, Permutation_sym, Object_values_perm.
    + replace (map district_name (map snd (group_by_district kept)))
        with (map fst (group_by_district kept)); [exact Hnd |].
      rewrite map_map. apply map_ext_in. intros [k d] H. simpl.
      symmetry. now apply (grouped_key kept).
  - intros n Hn.
    assert (Hg : In n (group_of (district_name n) kept)).
    { unfold group_of. apply filter_In. split; [assumption |].
      apply String.eqb_refl. }
    pose proof (Hlook (district_name n)) as Hl.
    destruct (group_of (district_name n) kept) as [| first rest] eqn:Eg;
      [destruct Hg |].
    assert (Hk : district_name (fold_left accumulate rest first)
                 = district_name n).
    { rewrite district_name_fold.
      apply (group_of_In _ kept). rewrite Eg. now left. }
    exists (fold_left accumulate rest first). split; [| exact Hk].
    apply Hin. rewrite Hk. now apply lookup_In.
  - intros d Hd. apply Hin in Hd. apply In_lookup in Hd; [| exact Hnd].
    rewrite Hlook in Hd.
    destruct (group_of (district_name d) kept) as [| first rest];
      [discriminate |].
    inversion Hd. eauto.
Qed.

Lemma filter_ext_Forall2 {A B} (R : A -> B -> Prop) (p q : B -> bool) la lb :
  Forall2 R la lb -> (forall a b, R a b -> p b = q b) ->
  filter p lb = filter q lb.
Proof.
  induction 1 as [| a b la lb Hab _ IH]; intros Hpq; simpl; [reflexivity |].
  rewrite (Hpq a b Hab), IH by assumption. reflexivity.
Qed.

Lemma aggregate_eq st rows norm :
  mapM (normalize st) rows = Ok norm ->
  aggregate st rows =
  Ok (Object_values
        (group_by_district
           (filter (fun n => negb (is_empty (district_display n))) norm))).
Proof.
  intros H. unfold aggregate. rewrite H. simpl. do 3 f_equal.
  apply (filter_ext_Forall2 _ _ _ _ _ (mapM_Forall2 _ _ _ H)).
  intros r n Hn. now apply (valid_district_display st r).
Qed.

End AggregateFacts.
Import AggregateFacts.

Module OrderFacts.

Lemma sum_abs_nonneg l : 0 <= sum_abs l.
Proof. induction l; simpl; lia. Qed.

Lemma sum_Z_abs l : Z.abs (sum_Z l) <= sum_abs l.
Proof. induction l; simpl; lia. Qed.

Lemma fold_add_exact zs : forall z0,
  Z.abs z0 + sum_abs zs < 2 ^ 53 ->
  fold_left add (map of_Z zs) (of_Z z0) = of_Z (z0 + sum_Z zs).
Proof.
  induction zs as [| z zs IH]; intros z0 H; simpl in *.
  - now rewrite Z.add_0_r.
  - pose proof (sum_abs_nonneg zs).
    rewrite add_exact by (unfold safe; lia).
    rewrite IH by lia. f_equal. lia.
Qed.

Lemma map_exact (f : NormalizedRecord -> number) l :
  Forall (fun n => f n = of_Z (to_Z (f n))) l ->
  map f l = map of_Z (map (fun n => to_Z (f n)) l).
Proof.
  induction 1 as [| n l Hn _ IH]; simpl; [reflexivity |].
  now rewrite <- Hn, IH.
Qed.

Lemma filter_Permutation {A} (p : A -> bool) l l' :
  Permutation l l' -> Permutation (filter p l) (filter p l').
Proof.
  induction 1; simpl; try reflexivity.
  - destruct (p x); [now constructor | assumption].
  - destruct (p x), (p y); try reflexivity. apply perm_swap.
  - etransitivity; eassumption.
Qed.

Lemma sum_Z_Permutation l l' : Permutation l l' -> sum_Z l = sum_Z l'.
Proof. induction 1; simpl; lia. Qed.

Lemma sum_abs_filter {A} (g : A -> Z) p l :
  sum_abs (map g (filter p l)) <= sum_abs (map g l).
Proof.
  induction l as [| a l IH]; simpl; [lia |].
  destruct (p a); simpl; lia.
Qed.

Lemma exact_measure_filter p norm f :
  exact_measure norm f -> exact_measure (filter p norm) f.
Proof.
  intros [H1 H2]. split.
  - apply Forall_forall. intros n Hn. apply filter_In in Hn as [Hn _].
    rewrite Forall_forall in H1. now apply H1.
  - pose proof (sum_abs_filter (fun n => to_Z (f n)) p norm). lia.
Qed.

(** Over such rows an accumulated measure is the exact total. *)
Lemma accumulate_exact f first rest :
  In f measures -> exact_measure (first :: rest) f ->
  f (fold_left accumulate rest first)
  = of_Z (sum_Z (map (fun n => to_Z (f n)) (first :: rest))).
Proof.
  intros Hf [Hi Hs]. rewrite measure_fold by assumption.
  inversion Hi as [| ? ? H1 H2]; subst.
  rewrite (map_exact f rest H2), H1. simpl in Hs |- *.
  now apply fold_add_exact.
Qed.

Lemma sum_abs_Permutation l l' : Permutation l l' -> sum_abs l = sum_abs l'.
Proof. induction 1; simpl; lia. Qed.

Lemma exact_measure_Permutation l l' f :
  Permutation l l' -> exact_measure l f -> exact_measure l' f.
Proof.
  intros HP [H1 H2]. split.
  - apply Forall_forall. intros n Hn. rewrite Forall_forall in H1.
    apply H1. now apply (Permutation_in _ (Permutation_sym HP)).
  - rewrite <- (sum_abs_Permutation _ _
                  (Permutation_map (fun n => to_Z (f n)) HP)).
    exact H2.
Qed.

(** Two orders of the same kept rows give aggregates with the same keys
    and, the measures being exact, the same sums. *)
Lemma aggregates_agree kept kept' :
  Permutation kept kept' ->
  Forall (exact_measure kept) measures ->
  forall d, In d (Object_values (group_by_district kept)) ->
    exists d', In d' (Object_values (group_by_district kept')) /\
               district_name d' = district_name d /\
               Forall (fun f => f d' = f d) measures.
Proof.
  intros HPk Hex d Hd.
  destruct (aggregates_of kept) as (_ & _ & Hagg).
  destruct (aggregates_of kept') as (_ & Hall' & Hagg').
  destruct (Hagg d Hd) as (first & rest & Hg & Ed).
  assert (Hfirst : In first kept).
  { assert (H : In first (group_of (district_name d) kept))
      by (rewrite Hg; now left).
    unfold group_of in H. now apply filter_In in H. }
  assert (Hkd : district_name d = district_name first)
    by (rewrite Ed; apply district_name_fold).
  destruct (Hall' first (Permutation_in _ HPk Hfirst)) as (d' & Hd' & Hk').
  exists d'. split; [exact Hd' | split; [congruence |]].
  destruct (Hagg' d' Hd') as (first' & rest' & Hg' & Ed').
  apply Forall_forall. intros f Hf.
  rewrite Forall_forall in Hex. specialize (Hex f Hf).
  assert (HPg : Permutation (first :: rest) (first' :: rest')).
  { rewrite <- Hg, <- Hg'.
    replace (district_name d') with (district_name d) by congruence.
    now apply filter_Permutation. }
  assert (Hex1 : exact_measure (first :: rest) f)
    by (rewrite <- Hg; now apply exact_measure_filter).
  assert (Hex2 : exact_measure (first' :: rest') f)
    by (now apply (exact_measure_Permutation _ _ f HPg)).
  rewrite Ed, Ed', !accumulate_exact by assumption.
  f_equal. apply sum_Z_Permutation, Permutation_map, Permutation_sym, HPg.
Qed.

End OrderFacts.
Import OrderFacts.

Module SortFacts.

Lemma sort_insert_perm {A} (cmp : A -> A -> number) x l :
  Permutation (sort_insert cmp x l) (x :: l).
Proof.
  induction l as [| y l IH]; simpl; [reflexivity |].
  destruct (lt zero (SortCompare cmp x y)); [| reflexivity].
  rewrite IH. apply perm_swap.
Qed.

Lemma Array_sort_perm {A} (cmp : A -> A -> number) l :
  Permutation (Array_sort cmp l) l.
Proof.
  induction l as [| x l IH]; simpl; [reflexivity |].
  rewrite sort_insert_perm. now constructor.
Qed.

(** The comparator is positive exactly when its first argument has the
    smaller total. *)
Lemma by_expenditure_positive x y :
  comparable x -> comparable y ->
  lt zero (SortCompare by_expenditure x y) = lt (Total_Exp x) (Total_Exp y).
Proof.
  intros [Vx Nx] [Vy Ny]. unfold SortCompare, by_expenditure.
  rewrite <- (sub_positive _ _ Vx Vy Nx Ny).
  now destruct (sub (Total_Exp y) (Total_Exp x)).
Qed.

Lemma sort_insert_sorted x l :
  comparable x -> Forall comparable l ->
  Sorted ge_total l -> Sorted ge_total (sort_insert by_expenditure x l).
Proof.
  intros Hx Hl Hs. induction l as [| y l IH]; simpl.
  - repeat constructor.
  - inversion Hl as [| ? ? Hy Hl']; subst.
    inversion Hs as [| ? ? Hs' Hhd]; subst.
    rewrite by_expenditure_positive by assumption.
    destruct (lt (Total_Exp x) (Total_Exp y)) eqn:E.
    + constructor; [now apply IH |].
      assert (Hyx : ge_total y x) by (now apply lt_true_le).
      destruct l as [| z l]; simpl.
      * repeat constructor; exact Hyx.
      * inversion Hhd; subst.
        destruct (lt zero (SortCompare by_expenditure x z));
          constructor; assumption.
    + constructor; [assumption |]. constructor.
      apply lt_false_ge; [apply Hx | apply Hy | exact E].
Qed.

Lemma Array_sort_sorted l :
  Forall comparable l -> Sorted ge_total (Array_sort by_expenditure l).
Proof.
  induction 1 as [| x l Hx Hl IH]; simpl; [constructor |].
  apply sort_insert_sorted; [assumption | | assumption].
  apply Forall_forall. intros y Hy. rewrite Forall_forall in Hl.
  apply Hl. now apply (Permutation_in _ (Array_sort_perm by_expenditure l)).
Qed.

Lemma Sorted_descending l : Sorted ge_total l -> descending l.
Proof.
  induction 1 as [| a l Hs IH Hhd]; intros i x y Hx Hy.
  - destruct i; discriminate.
  - destruct i as [| i]; simpl in Hx, Hy.
    + inversion Hx; subst. destruct l as [| b l]; [discriminate |].
      inversion Hy; subst. now inversion Hhd.
    + now apply (IH i).
Qed.

(** With a NaN total no order of the aggregates is descending. *)
Lemma NaN_never_descending l a b :
  isNaN (Total_Exp a) = true -> In a l -> In b l -> a <> b ->
  ~ descending l.
Proof.
  intros Ha Hin Hb Hne Hd.
  assert (Hnan : forall x, ge (Total_Exp a) x = false /\ ge x (Total_Exp a) = false).
  { intros x. destruct (Total_Exp a); try discriminate.
    unfold ge, SFleb. split; [now destruct x | now destruct x]. }
  apply In_nth_error in Hin as [i Hi].
  destruct i as [| i].
  - destruct l as [| x [| y l]]; try discriminate.
    + simpl in Hi, Hb. inversion Hi; subst. destruct Hb as [-> | []]. congruence.
    + simpl in Hi. inversion Hi; subst.
      specialize (Hd 0%nat a y eq_refl eq_refl).
      destruct (Hnan (Total_Exp y)). congruence.
  - assert (exists p, nth_error l i = Some p) as [p Hp].
    { destruct (nth_error l i) eqn:E; [eauto |].
      apply nth_error_None in E.
      assert (nth_error l (S i) <> None) by congruence.
      apply nth_error_Some in H. lia. }
    specialize (Hd i p a Hp Hi). destruct (Hnan (Total_Exp p)). congruence.
Qed.

End SortFacts.
Import SortFacts.

Module ValidFacts.

Lemma Zdigits2_nonneg m : 0 <= Zdigits2 m.
Proof. destruct m; simpl; lia. Qed.

Lemma Zdigits2_unique m d :
  2 ^ (d - 1) <= m < 2 ^ d -> 0 < m -> Zdigits2 m = d.
Proof.
  intros H Hm. destruct m as [| p | p]; try lia. now apply digits2_pos_unique.
Qed.

Lemma Zdigits2_mono m m' : 0 < m -> m <= m' -> Zdigits2 m <= Zdigits2 m'.
Proof.
  intros Hm Hle.
  pose proof (Zdigits2_bounds m Hm) as [Hl _].
  pose proof (Zdigits2_bounds m' ltac:(lia)) as [_ Hu].
  destruct (Z.le_gt_cases (Zdigits2 m) (Zdigits2 m')) as [| Hgt]; [assumption |].
  assert (2 ^ Zdigits2 m' <= 2 ^ (Zdigits2 m - 1))
    by (apply Z.pow_le_mono_r; lia).
  lia.
Qed.

(** The digits of a quotient by a power of two. *)
Lemma Zdigits2_div m n :
  0 <= n -> 0 < m / 2 ^ n -> Zdigits2 (m / 2 ^ n) = Zdigits2 m - n.
Proof.
  intros Hn Hq.
  assert (Hp : 0 < 2 ^ n) by (apply Z.pow_pos_nonneg; lia).
  assert (Hm : 0 < m).
  { destruct (Z.ltb_spec 0 m); [assumption |].
    assert (m / 2 ^ n <= 0) by (apply Z.div_le_upper_bound; lia). lia. }
  pose proof (Zdigits2_bounds m Hm) as [Hl Hu].
  assert (Hge : 2 ^ n <= m).
  { destruct (Z.le_gt_cases (2 ^ n) m); [assumption |].
    rewrite Z.div_small in Hq by lia. lia. }
  assert (Hnd : n < Zdigits2 m).
  { destruct (Z.lt_ge_cases n (Zdigits2 m)); [assumption |].
    assert (2 ^ Zdigits2 m <= 2 ^ n) by (apply Z.pow_le_mono_r; lia). lia. }
  apply Zdigits2_unique; [| assumption]. split.
  - apply Z.div_le_lower_bound; [assumption |].
    rewrite <- Z.pow_add_r by lia.
    replace (n + (Zdigits2 m - n - 1)) with (Zdigits2 m - 1) by lia. exact Hl.
  - apply Z.div_lt_upper_bound; [assumption |].
    rewrite <- Z.pow_add_r by lia.
    replace (n + (Zdigits2 m - n)) with (Zdigits2 m) by lia. exact Hu.
Qed.

Lemma shr_record_m m l : shr_m (shr_record_of_loc m l) = m.
Proof. destruct l as [| []]; reflexivity. Qed.

(** The first component of [shr_fexp], for a mantissa that is not too
    short: the exponent becomes the format exponent and the mantissa is
    divided accordingly. *)
Lemma shr_fexp_spec m e l :
  0 <= m -> e <= fexp prec emax (Zdigits2 m + e) ->
  snd (shr_fexp prec emax m e l) = fexp prec emax (Zdigits2 m + e) /\
  shr_m (fst (shr_fexp prec emax m e l))
  = m / 2 ^ (fexp prec emax (Zdigits2 m + e) - e).
Proof.
  intros Hm He. unfold shr_fexp, shr.
  destruct (fexp prec emax (Zdigits2 m + e) - e) as [| n | n] eqn:En;
    try lia; cbn [fst snd].
  - rewrite shr_record_m, Z.div_1_r. split; lia.
  - rewrite iter_pos_nat, shr_iter_m, shr_record_m, positive_nat_Z
      by (rewrite shr_record_m; lia).
    split; [lia | reflexivity].
Qed.

Lemma fexp_mono a b : a <= b -> fexp prec emax a <= fexp prec emax b.
Proof. rewrite !fexp_eq. lia. Qed.

Lemma fexp_ge e : -1074 <= fexp prec emax e.
Proof. rewrite fexp_eq. lia. Qed.

(** Rounding gives a binary64 value as soon as the mantissa is not
    too short for its exponent. *)
Lemma binary_round_aux_valid s m e l :
  0 <= m -> e <= fexp prec emax (Zdigits2 m + e) ->
  valid (binary_round_aux prec emax s m e l) = true.
Proof.
  intros Hm He. unfold binary_round_aux.
  pose proof (shr_fexp_spec m e l Hm He) as [He' Hm'].
  destruct (shr_fexp prec emax m e l) as [mrs' e']. cbn [fst snd] in He', Hm'.
  set (n := fexp prec emax (Zdigits2 m + e) - e) in *.
  assert (Hn : 0 <= n) by (unfold n; lia).
  assert (Hp : 0 < 2 ^ n) by (apply Z.pow_pos_nonneg; lia).
  set (m1 := round_nearest_even (shr_m mrs') (loc_of_shr_record mrs')).
  assert (Hq : 0 <= shr_m mrs') by (rewrite Hm'; apply Z.div_pos; lia).
  assert (Hm1 : shr_m mrs' <= m1) by apply round_nearest_even_ge.
  assert (Hm1u : m1 <= shr_m mrs' + 1).
  { unfold m1. destruct (loc_of_shr_record mrs') as [| []]; simpl; try lia.
    destruct (Z.even (shr_m mrs')); lia. }
  assert (He'min : -1074 <= e') by (rewrite He'; apply fexp_ge).
  destruct (Z.eq_dec m1 0) as [E0 | Hnz].
  { (* the rounded mantissa is zero *)
    rewrite E0. unfold shr_fexp, shr. cbn [Zdigits2 shr_record_of_loc].
    destruct (fexp prec emax (0 + e') - e') as [| p | p]; cbn [fst shr_m].
    - reflexivity.
    - rewrite iter_pos_nat, shr_iter_m by (simpl; lia). reflexivity.
    - reflexivity. }
  assert (Hm1p : 0 < m1) by lia.
  assert (Hcan : e' <= fexp prec emax (Zdigits2 m1 + e')).
  { destruct (Z.eq_dec (shr_m mrs') 0) as [Ez | Hqz].
    - (* everything was shifted out: the exponent is the smallest one *)
      assert (m1 = 1) by lia.
      assert (e' = -1074).
      { rewrite He', fexp_eq.
        destruct (Z.eq_dec m 0) as [-> | Hmz].
        - simpl Zdigits2 in *. rewrite fexp_eq in He. lia.
        - pose proof (Zdigits2_bounds m ltac:(lia)) as [Hl _].
          rewrite Ez in Hm'. symmetry in Hm'.
          apply Z.div_small_iff in Hm' as [Hm' | Hm']; [| lia | lia].
          assert (Zdigits2 m - 1 < n).
          { destruct (Z.lt_ge_cases (Zdigits2 m - 1) n); [assumption |].
            assert (2 ^ n <= 2 ^ (Zdigits2 m - 1))
              by (apply Z.pow_le_mono_r; lia). lia. }
          unfold n in H0. rewrite fexp_eq in H0. lia. }
      subst m1 e'. rewrite H0, fexp_eq. lia.
    - assert (Hd : Zdigits2 (shr_m mrs') = Zdigits2 m - n)
        by (rewrite Hm'; apply Zdigits2_div; [lia | rewrite <- Hm'; lia]).
      pose proof (Zdigits2_mono (shr_m mrs') m1 ltac:(lia) Hm1).
      rewrite He' at 1.
      apply fexp_mono. unfold n in Hd. lia. }
  pose proof (shr_fexp_spec m1 e' loc_Exact ltac:(lia) Hcan) as [He'' Hm''].
  pose proof (shr_fexp_pos m1 e' loc_Exact Hm1p He'min) as [Hpos _].
  destruct (shr_fexp prec emax m1 e' loc_Exact) as [mrs'' e''].
  cbn [fst snd] in He'', Hm'', Hpos.
  destruct (shr_m mrs'') as [| p | p] eqn:Ep; try lia.
  destruct (Z.leb_spec e'' (emax - prec)) as [Hle | Hgt]; [| reflexivity].
  unfold valid, valid_binary, bounded, canonical_mantissa.
  apply andb_true_iff. split; [apply Z.eqb_eq | now apply Z.leb_le].
  change (Zpos (digits2_pos p)) with (Zdigits2 (Zpos p)).
  rewrite Hm'', Zdigits2_div by (rewrite <- ?Hm''; lia).
  rewrite He''. f_equal. lia.
Qed.

Lemma binary_round_valid s m e :
  valid (binary_round prec emax s m e) = true.
Proof.
  unfold binary_round.
  set (t := fexp prec emax (Zpos (digits2_pos m) + e)).
  unfold shl_align. destruct (t - e) as [| d | d] eqn:Ed.
  - apply binary_round_aux_valid; [lia |]. cbn [Zdigits2]. fold t. lia.
  - apply binary_round_aux_valid; [lia |]. cbn [Zdigits2]. fold t. lia.
  - change (Pos.iter xO m d) with (shift_pos d m).
    apply binary_round_aux_valid; [lia |]. cbn [Zdigits2].
    rewrite (digits2_pos_shift m (Zpos d) (shift_pos d m)); [| lia |].
    + replace (Zpos (digits2_pos m) + Zpos d + t)
        with (Zpos (digits2_pos m) + e) by lia.
      fold t. lia.
    + rewrite shift_pos_correct.
      change (2 ^ Zpos d) with (Z.pow_pos 2 d). lia.
Qed.

Lemma binary_normalize_valid z e :
  valid (binary_normalize prec emax z e false) = true.
Proof. destruct z; [reflexivity | |]; apply binary_round_valid. Qed.

Lemma of_Z_valid z : valid (of_Z z) = true.
Proof. apply binary_normalize_valid. Qed.

(** Sums of binary64 values are binary64 values. *)
Lemma add_valid x y :
  valid x = true -> valid y = true -> valid (add x y) = true.
Proof.
  intros Hx Hy. unfold add.
  destruct x as [sx | sx | | sx mx ex], y as [sy | sy | | sy my ey];
    try reflexivity; try assumption;
    try (destruct sx, sy; reflexivity).
  apply binary_normalize_valid.
Qed.

(** The quotient computed for a decimal with a negative exponent is not
    too short for its exponent. *)
Lemma div_core_ready m1 m2 :
  0 < m1 -> 0 < m2 ->
  let '(q, e, _) := SFdiv_core_binary prec emax m1 0 m2 0 in
  0 <= q /\ e <= fexp prec emax (Zdigits2 q + e).
Proof.
  intros H1 H2. unfold SFdiv_core_binary.
  set (d1 := Zdigits2 m1). set (d2 := Zdigits2 m2).
  replace (d1 + 0 - (d2 + 0)) with (d1 - d2) by lia.
  set (e := Z.min (fexp prec emax (d1 - d2)) (0 - 0)).
  assert (He0 : e <= 0) by (unfold e; lia).
  assert (Hef : e <= fexp prec emax (d1 - d2)) by (unfold e; lia).
  replace (0 - 0 - e) with (- e) by lia.
  set (M := match - e with
            | 0 => m1
            | Zpos _ => Z.shiftl m1 (- e)
            | Zneg _ => 0
            end).
  assert (HM : M = m1 * 2 ^ (- e)).
  { unfold M. destruct (- e) as [| p | p] eqn:Ee; try lia.
    now rewrite Z.shiftl_mul_pow2 by lia. }
  assert (Hp : 0 < 2 ^ (- e)) by (apply Z.pow_pos_nonneg; lia).
  assert (HMp : 0 < M) by (rewrite HM; nia).
  pose proof (Z.div_eucl_eq M m2 ltac:(lia)) as Hdiv.
  pose proof (Z.mod_pos_bound M m2 H2) as Hmod.
  unfold Z.modulo in Hmod.
  destruct (Z.div_eucl M m2) as [q r].
  pose proof (Zdigits2_bounds m1 H1) as [Hl1 Hu1].
  pose proof (Zdigits2_bounds m2 H2) as [Hl2 Hu2].
  fold d1 in Hl1, Hu1. fold d2 in Hl2, Hu2.
  assert (Hq : 0 <= q) by nia.
  split; [exact Hq |].
  assert (Hd1 : 0 < d1) by (apply Zdigits2_pos; assumption).
  assert (Hd2 : 0 < d2) by (apply Zdigits2_pos; assumption).
  assert (HMl : 2 ^ (d1 - 1 - e) <= M).
  { replace (d1 - 1 - e) with ((d1 - 1) + - e) by lia.
    rewrite Z.pow_add_r, HM by lia. nia. }
  destruct (Z.eq_dec q 0) as [-> | Hqz].
  - (* an empty quotient: the exponent is below the smallest one *)
    cbn [Zdigits2]. rewrite Z.add_0_l.
    assert (Hd : d1 - 1 - e < d2).
    { destruct (Z.lt_ge_cases (d1 - 1 - e) d2); [assumption |].
      assert (2 ^ d2 <= 2 ^ (d1 - 1 - e)) by (apply Z.pow_le_mono_r; lia).
      lia. }
    rewrite fexp_eq in *. lia.
  - assert (Hqp : 0 < q) by lia.
    eapply Z.le_trans; [exact Hef |]. apply fexp_mono.
    pose proof (Zdigits2_bounds q Hqp) as [_ Huq].
    pose proof (Zdigits2_pos q Hqp) as Hdq.
    assert (HMu : M < 2 ^ (d2 + Zdigits2 q)).
    { rewrite Z.pow_add_r by lia.
      assert (M < m2 * (q + 1)) by lia.
      assert (m2 * (q + 1) <= m2 * 2 ^ Zdigits2 q) by nia.
      assert (m2 * 2 ^ Zdigits2 q < 2 ^ d2 * 2 ^ Zdigits2 q) by nia.
      lia. }
    destruct (Z.lt_ge_cases (d1 - 1 - e) (d2 + Zdigits2 q)); [lia |].
    assert (2 ^ (d2 + Zdigits2 q) <= 2 ^ (d1 - 1 - e))
      by (apply Z.pow_le_mono_r; lia).
    lia.
Qed.

Lemma of_decimal_valid neg m e10 : valid (of_decimal neg m e10) = true.
Proof.
  unfold of_decimal. destruct m as [| p | p]; try reflexivity.
  destruct e10 as [| k | k]; try apply binary_round_valid.
  assert (H10 : 0 < Z.pow_pos 10 k).
  { change (Z.pow_pos 10 k) with (10 ^ Zpos k). apply Z.pow_pos_nonneg; lia. }
  pose proof (div_core_ready (Zpos p) (Z.pow_pos 10 k) ltac:(lia) H10) as H.
  destruct (SFdiv_core_binary prec emax (Zpos p) 0 (Z.pow_pos 10 k) 0)
    as [[q e] l].
  destruct H. now apply binary_round_aux_valid.
Qed.

Lemma Number_valid s : valid (Number s) = true.
Proof.
  assert (Hu : forall neg l, valid (unsigned_decimal neg l) = true).
  { intros neg l. unfold unsigned_decimal.
    destruct (chars_eqb l Infinity_chars); [reflexivity |].
    destruct (take_digits l []) as [ip r1].
    destruct (match r1 with
              | [] => ([], r1)
              | c :: r => if (code c =? 46)%N then take_digits r [] else ([], r1)
              end) as [fp r2].
    destruct (ip ++ fp); [reflexivity |].
    destruct (exponent_part r2); [apply of_decimal_valid | reflexivity]. }
  assert (Hr : forall radix l, valid (radix_literal radix l) = true).
  { intros radix l. unfold radix_literal. destruct l; [reflexivity |].
    destruct (radix_value radix _ 0); [apply of_Z_valid | reflexivity]. }
  unfold Number, Number_chars.
  destruct (trim_chars (list_ascii_of_string s)) as [| c r]; [reflexivity |].
  destruct (code c =? 45)%N; [apply Hu |].
  destruct (code c =? 43)%N; [apply Hu |].
  destruct c as [[] [] [] [] [] [] [] []]; try apply Hu.
  destruct r as [| x r']; [apply Hu |].
  destruct ((code x =? 120) || (code x =? 88))%N; [apply Hr |].
  destruct ((code x =? 111) || (code x =? 79))%N; [apply Hr |].
  destruct ((code x =? 98) || (code x =? 66))%N; [apply Hr | apply Hu].
Qed.

Lemma toNumber_valid v n :
  well_formed v = true -> toNumber v = Ok n -> valid n = true.
Proof.
  intros Hv H.
  assert (Hc : forall r : result string,
             (let* text := r in
              let n := Number (trim (strip_commas text)) in
              Ok (if isNaN n then zero else n)) = Ok n -> valid n = true).
  { intros [text |]; cbn [bind]; [| discriminate].
    intros E. injection E as <-.
    destruct (isNaN (Number (trim (strip_commas text))));
      [reflexivity | apply Number_valid]. }
  destruct v as [| | b | m | s | xs | fs]; unfold toNumber in H;
    try (now apply (Hc _ H)).
  - now injection H as <-.
  - now injection H as <-.
  - injection H as <-. exact Hv.
Qed.

Lemma get_well_formed r k v :
  well_formed r = true -> get r k = Ok v -> well_formed v = true.
Proof.
  intros Hr H. destruct r as [| | b | m | s | xs | fs]; simpl in H;
    try discriminate; injection H as <-; try reflexivity.
  - destruct (String.eqb k "length"); [apply of_Z_valid | reflexivity].
  - destruct (String.eqb k "length"); [apply of_Z_valid | reflexivity].
  - simpl in Hr. induction fs as [| [k0 x] fs IH]; simpl in *; [reflexivity |].
    apply andb_true_iff in Hr as [Hx Hfs].
    destruct (String.eqb k0 k); [exact Hx | now apply IH].
Qed.

Lemma field_number_valid r k n :
  well_formed r = true -> field_number r k = Ok n -> valid n = true.
Proof.
  intros Hr H. unfold field_number in H.
  destruct (get r k) as [v |] eqn:Eg; cbn [bind] in H; [| discriminate].
  apply (toNumber_valid v); [| exact H]. now apply (get_well_formed r k).
Qed.

(** The measures of a normalised row are binary64 values. *)
Lemma normalize_valid st r n :
  well_formed r = true -> normalize st r = Ok n ->
  Forall (fun f => valid (f n) = true) measures.
Proof.
  intros Hr H. unfold normalize in H.
  destruct (district_raw r) as [raw |]; cbn [bind] in H; [| discriminate].
  destruct (ToString raw) as [text |]; cbn [bind] in H; [| discriminate].
  destruct (get r "state_name"); cbn [bind] in H; [| discriminate].
  destruct (get r "fin_year"); cbn [bind] in H; [| discriminate].
  destruct (get r "month"); cbn [bind] in H; [| discriminate].
  repeat match type of H with
         | bind (field_number r ?k) _ = _ =>
             let E := fresh "E" in
             destruct (field_number r k) eqn:E; cbn [bind] in H;
             [apply (field_number_valid r k _ Hr) in E | discriminate]
         end.
  injection H as <-. unfold measures. repeat constructor; assumption.
Qed.

Lemma accumulate_valid rest : forall first,
  Forall (fun n => Forall (fun f => valid (f n) = true) measures)
         (first :: rest) ->
  Forall (fun f => valid (f (fold_left accumulate rest first)) = true)
         measures.
Proof.
  induction rest as [| c rest IH]; intros first H.
  - now inversion H.
  - cbn [fold_left]. apply IH.
    inversion H as [| ? ? Hf Hr]; subst.
    inversion Hr as [| ? ? Hc Hrest]; subst.
    constructor; [| exact Hrest].
    pose proof measures_accumulate as HA.
    rewrite Forall_forall in *. intros f Hfm.
    rewrite (HA f Hfm). apply add_valid; auto.
Qed.

(** The totals of the aggregates are binary64 values. *)
Lemma aggregate_valid st rows agg :
  Forall (fun r => well_formed r = true) rows ->
  aggregate st rows = Ok agg ->
  Forall (fun d => valid (Total_Exp d) = true) agg.
Proof.
  intros Hw H.
  destruct (mapM (normalize st) rows) as [norm |] eqn:En;
    [| unfold aggregate in H; rewrite En in H; discriminate].
  rewrite (aggregate_eq _ _ _ En) in H. injection H as <-.
  assert (Hn : Forall (fun n => Forall (fun f => valid (f n) = true) measures)
                      norm).
  { pose proof (mapM_Forall2 _ _ _ En) as H2. clear En.
    induction H2 as [| r n rs ns Hrn _ IH]; [constructor |].
    inversion Hw; subst. constructor; [| now apply IH].
    now apply (normalize_valid st r). }
  set (kept := filter (fun n => negb (is_empty (district_display n))) norm).
  destruct (aggregates_of kept) as (_ & _ & Hagg).
  apply Forall_forall. intros d Hd.
  destruct (Hagg d Hd) as (first & rest & Hg & ->).
  assert (Hgv : Forall (fun n => Forall (fun f => valid (f n) = true) measures)
                       (first :: rest)).
  { rewrite <- Hg. apply Forall_forall. intros n Hin.
    unfold group_of in Hin. apply filter_In in Hin as [Hin _].
    unfold kept in Hin. apply filter_In in Hin as [Hin _].
    rewrite Forall_forall in Hn. now apply Hn. }
  pose proof (accumulate_valid rest first Hgv) as Hv.
  rewrite Forall_forall in Hv. apply Hv. simpl. tauto.
Qed.

End ValidFacts.
Import ValidFacts.

Module InsightFacts.

Lemma reduce_sum_eq f l : forall s,
  reduce_sum f l s = Ok (fold_left add (map f l) s).
Proof. induction l as [| x l IH]; intros s; simpl; [reflexivity | apply IH]. Qed.

Lemma truthy_signed x : signed false x -> truthy (VNum x) = true.
Proof. intros [(m & e & -> & _) | ->]; reflexivity. Qed.

Lemma truthy_length {A} (l : list A) :
  truthy (VNum (length_number l)) = match l with [] => false | _ => true end.
Proof.
  destruct l as [| a l]; [reflexivity |].
  apply truthy_signed. unfold length_number, of_Z. simpl List.length.
  rewrite Nat2Z.inj_succ.
  destruct (Z.succ (Z.of_nat (List.length l))) eqn:E; try lia.
  apply binary_round_signed. lia.
Qed.

Lemma nth_error_last {A} (l : list A) d :
  nth_error l (List.length l - 1) =
  match l with [] => None | _ => Some (last l d) end.
Proof.
  induction l as [| a l IH]; [reflexivity |].
  destruct l as [| b l]; [reflexivity |].
  simpl List.length in *. simpl last.
  replace (S (S (List.length l)) - 1)%nat with (S (S (List.length l) - 1)) by lia.
  simpl nth_error. exact IH.
Qed.

Lemma last_map {A B} (f : A -> B) l d :
  f (last l d) = last (map f l) (f d).
Proof.
  induction l as [| a l IH]; [reflexivity |].
  destruct l; [reflexivity | exact IH].
Qed.

(** A sum that meets NaN is NaN. *)
Lemma fold_add_NaN l : forall s, In NaN l -> fold_left add l s = NaN.
Proof.
  assert (Hn : forall l0, fold_left add l0 NaN = NaN).
  { induction l0 as [| x l0 IH]; [reflexivity |]. cbn [fold_left].
    change (add NaN x) with NaN. exact IH. }
  induction l as [| x l IH]; intros s Hin; [destruct Hin |].
  cbn [fold_left]. destruct Hin as [E | Hin]; [| now apply IH].
  subst x. replace (add s NaN) with NaN; [apply Hn |].
  destruct s as [| | | [] ? ?]; reflexivity.
Qed.

Lemma compute_insights_eq l :
  compute_insights l =
  Ok {| totalHouseholds := total_of Total_Households_Worked l;
        totalPersondays := zero;
        totalExpenditure := total_of Total_Exp l;
        avgHouseholds :=
          match l with
          | [] => zero
          | _ => Math_round (div (total_of Total_Households_Worked l)
                                 (length_number l))
          end;
        topDistrict := hd "N/A" (map district_display l);
        lowDistrict := last (map district_display l) "N/A" |}.
Proof.
  unfold compute_insights. rewrite !reduce_sum_eq. cbn [bind].
  rewrite truthy_length.
  destruct l as [| a l]; [reflexivity |].
  set (d := {| district_name := ""; district_display := "N/A";
               state_name := VNull; fin_year := VNull; month := VNull;
               Approved_Labour_Budget := zero;
               Average_Wage_rate_per_day_per_person := zero;
               Average_days_of_employment_provided_per_Household := zero;
               Total_Households_Worked := zero;
               Total_Individuals_Worked := zero;
               Total_Exp := zero; Wages := zero |}).
  rewrite (nth_error_last (a :: l) d). cbn [nth_error bind hd map].
  do 2 f_equal. apply (last_map district_display).
Qed.

End InsightFacts.
Import InsightFacts.

Module FetchFacts.

Section Facts.
Variable net : network.
Variables (st df dov : string).

Lemma fetchForYear_run y s :
  fetchForYear net st dov y s
  = (read_body (net (year_query st dov y)),
     add_request (year_query st dov y) s).
Proof.
  unfold fetchForYear, bindM, fetch, lift.
  destruct (net (year_query st dov y)); reflexivity.
Qed.

Lemma read_body_rows res rows :
  (exists status, res = Response true status (Some (VArr rows))) \/
  (exists status fs, res = Response true status (Some (VObj fs)) /\
                     lookup "data" fs = Some (VArr rows)) ->
  read_body res = Ok (VArr rows).
Proof.
  intros [(status & ->) | (status & fs & -> & Hd)]; simpl.
  - reflexivity.
  - now rewrite Hd.
Qed.

Lemma push_rows_app acc v :
  push_rows acc v =
  match push_rows [] v with
  | Ok items => Ok (acc ++ items)
  | Throw e => Throw e
  end.
Proof.
  unfold push_rows. destruct (truthy v); [| now rewrite app_nil_r].
  destruct (get v "length") as [len |]; simpl; [| reflexivity].
  destruct (truthy len); [| now rewrite app_nil_r].
  destruct (spread v); reflexivity.
Qed.

Lemma push_rows_array acc rows : push_rows acc (VArr rows) = Ok (acc ++ rows).
Proof.
  unfold push_rows. change (truthy (VArr rows)) with true. cbv iota.
  change (get (VArr rows) "length") with (Ok (VNum (length_number rows))).
  cbn [bind]. rewrite truthy_length.
  destruct rows; [now rewrite app_nil_r | reflexivity].
Qed.

Lemma year_rows_array y rows :
  read_body (net (year_query st dov y)) = Ok (VArr rows) ->
  year_rows net st dov y = rows.
Proof.
  intros H. unfold year_rows. rewrite H. cbn [bind].
  now rewrite push_rows_array.
Qed.

Lemma year_rows_failed y e :
  read_body (net (year_query st dov y)) = Throw e ->
  year_rows net st dov y = [].
Proof. intros H. unfold year_rows. now rewrite H. Qed.

Lemma fetch_each_year_run ys : forall acc s,
  fetch_each_year net st dov ys acc s
  = (Ok (acc ++ List.concat (map (year_rows net st dov) ys)),
     fold_left (fun s y => after_year net st dov y s) ys s).
Proof.
  induction ys as [| y ys IH]; intros acc s.
  - simpl. now rewrite app_nil_r.
  - cbn [fetch_each_year map List.concat fold_left].
    unfold bindM at 1, try_catch, bindM, lift.
    rewrite fetchForYear_run. unfold after_year, year_rows.
    destruct (read_body (net (year_query st dov y))) as [v | e];
      cbn [bind].
    + rewrite (push_rows_app acc v).
      destruct (push_rows [] v) as [items | e].
      * rewrite IH, app_assoc. reflexivity.
      * unfold log, ret. rewrite IH. simpl. reflexivity.
    + unfold log, ret. rewrite IH. simpl. reflexivity.
Qed.

Lemma after_year_fields y s :
  let s' := after_year net st dov y s in
  requests s' = requests s ++ [year_query st dov y] /\
  data s' = data s /\ insights s' = insights s /\
  rawRecords s' = rawRecords s /\ loading s' = loading s.
Proof.
  unfold after_year.
  destruct (let* rows := read_body _ in push_rows [] rows);
    simpl; auto.
Qed.

Lemma after_years_fields ys : forall s,
  let s' := fold_left (fun s y => after_year net st dov y s) ys s in
  requests s' = requests s ++ map (year_query st dov) ys /\
  data s' = data s /\ insights s' = insights s /\
  rawRecords s' = rawRecords s /\ loading s' = loading s.
Proof.
  induction ys as [| y ys IH]; intros s; simpl.
  - rewrite app_nil_r. auto.
  - destruct (IH (after_year net st dov y s)) as (H1 & H2 & H3 & H4 & H5).
    destruct (after_year_fields y s) as (G1 & G2 & G3 & G4 & G5).
    simpl in *. rewrite H1, H2, H3, H4, H5, G1, G2, G3, G4, G5.
    rewrite <- app_assoc. auto.
Qed.

Lemma concat_failed (ys : list string) (rows_of : string -> list value) bad :
  (forall y, In y ys -> y <> bad ->
     year_rows net st dov y = rows_of y) ->
  year_rows net st dov bad = [] ->
  List.concat (map (year_rows net st dov) ys)
  = List.concat (map rows_of
              (filter (fun y => negb (String.eqb y bad)) ys)).
Proof.
  intros Hok Hbad. induction ys as [| y ys IH]; [reflexivity |].
  cbn [map List.concat filter].
  rewrite IH by (intros; apply Hok; simpl; auto).
  destruct (String.eqb_spec y bad) as [-> | Hne]; simpl.
  - now rewrite Hbad.
  - rewrite Hok by (simpl; auto). reflexivity.
Qed.

(** The state after the rows are published. *)
Lemma publish_run allRows s :
  publish st df allRows s =
  match final_array st df allRows with
  | Throw e => (Throw e, snd (setRawRecords allRows s))
  | Ok arr =>
      match compute_insights arr with
      | Throw e => (Throw e, snd (setData arr (snd (setRawRecords allRows s))))
      | Ok i =>
          (Ok tt,
           snd (setInsights i
                  (snd (setData arr (snd (setRawRecords allRows s))))))
      end
  end.
Proof.
  unfold publish, bindM, lift. cbn [setRawRecords].
  destruct (final_array st df allRows) as [arr | e]; [| reflexivity].
  cbn [setData]. destruct (compute_insights arr); reflexivity.
Qed.
End Facts.

End FetchFacts.
Import FetchFacts.

Module CycleFacts.

Lemma fetch_rows_all net st dov s :
  fetch_rows net st dov "All" s
  = (Ok (List.concat (map (year_rows net st dov) seven_years)),
     fold_left (fun s y => after_year net st dov y s) seven_years s).
Proof.
  change (fetch_rows net st dov "All")
    with (fetch_each_year net st dov seven_years []).
  now rewrite fetch_each_year_run.
Qed.

Lemma fetch_rows_single net st dov y s :
  String.eqb y "All" = false ->
  fetch_rows net st dov y s
  = ((let* rows := read_body (net (year_query st dov y)) in
      push_rows [] rows),
     add_request (year_query st dov y) s).
Proof.
  intros Hy. unfold fetch_rows. rewrite Hy. unfold bindM, lift.
  rewrite fetchForYear_run.
  destruct (read_body (net (year_query st dov y))); reflexivity.
Qed.

(** [fetchData] never throws: the [try] block runs with the loading
    flag set, a failure is logged, and the flag is cleared. *)
Lemma fetchData_run net opts s :
  fetchData net opts s =
  match fetchData_try net opts s (snd (setLoading true s)) with
  | (Ok _, s2) => (Ok tt, snd (setLoading false s2))
  | (Throw e, s2) => (Ok tt, snd (setLoading false (add_log (Error e) s2)))
  end.
Proof.
  unfold fetchData, bindM, try_finally, try_catch. cbn [setLoading snd].
  destruct (fetchData_try net opts s _) as [[[] | e] s2]; reflexivity.
Qed.

Lemma try_block_run net st df dov y s :
  try_block net st df dov y s =
  match fetch_rows net st dov y s with
  | (Ok allRows, s1) => publish st df allRows s1
  | (Throw e, s1) => (Throw e, s1)
  end.
Proof. reflexivity. Qed.

Lemma publish_insights st df allRows s s2 :
  publish st df allRows s = (Ok tt, s2) ->
  exists arr, final_array st df allRows = Ok arr /\
              data s2 = arr /\ rawRecords s2 = allRows /\
              compute_insights arr = Ok (insights s2).
Proof.
  rewrite publish_run.
  destruct (final_array st df allRows) as [arr | e]; [| discriminate].
  rewrite compute_insights_eq. intros H. injection H as <-.
  exists arr. cbn. rewrite compute_insights_eq. auto.
Qed.

End CycleFacts.
Import CycleFacts.

(** ** Sample evaluations *)

Module Examples.

Example toNumber_thousands : toNumber (VStr "12,345") = Ok (of_Z 12345).
Proof. vm_compute. reflexivity. Qed.

(** A no-break space (the bytes C2 A0) and an em space (E2 80 83) are
    trimmed like a space. *)
Example toNumber_no_break_space :
  toNumber
    (VStr (String (ascii_of_N 194) (String (ascii_of_N 160)
             (String.append "1,000 "
                (String (ascii_of_N 226) (String (ascii_of_N 128)
                   (String (ascii_of_N 131) EmptyString)))))))
  = Ok (of_Z 1000).
Proof. vm_compute. reflexivity. Qed.

Example toNumber_not_available : toNumber (VStr "N/A") = Ok zero.
Proof. vm_compute. reflexivity. Qed.

Example toNumber_null : toNumber VNull = Ok zero.
Proof. reflexivity. Qed.

Example toNumber_decimal_text :
  toNumber (VStr " 1,234.5 ") = Ok (of_decimal false 12345 (-1)).
Proof. vm_compute. reflexivity. Qed.

Example toNumber_infinity_text : toNumber (VStr "Infinity") = Ok Infinity.
Proof. vm_compute. reflexivity. Qed.

Example toNumber_own_toString :
  toNumber (VObj [("toString", VNull)]) = Throw TypeError.
Proof. reflexivity. Qed.

Example infinities_cancel :
  add Infinity (S754_infinity true) = NaN.
Proof. reflexivity. Qed.

Example tenth_text : Number_toString (of_decimal false 1 (-1)) = "0.1".
Proof. vm_compute. reflexivity. Qed.

Example tenths_left_to_right :
  Number_toString
    (add (add (Number "0.1") (Number "0.2")) (Number "0.3"))
  = "0.6000000000000001" /\
  Number_toString
    (add (add (Number "0.3") (Number "0.2")) (Number "0.1"))
  = "0.6".
Proof. split; vm_compute; reflexivity. Qed.

Example round_half_up :
  Math_round (of_decimal false 25 (-1)) = of_Z 3 /\
  Math_round (of_decimal true 25 (-1)) = of_Z (-2).
Proof. split; vm_compute; reflexivity. Qed.

Example numeric_district_keys_first :
  map fst (index_entries [("SALEM", 1); ("12", 2); ("7", 3)]) = [7; 12] /\
  Object_values [("SALEM", 1); ("12", 2); ("7", 3)] = [3; 2; 1].
Proof. split; reflexivity. Qed.

(** A cycle over all years against the sample backend: the failed year
    is logged and the other six are aggregated. *)
Example all_years_cycle :
  let s := snd (fetchData sample_network no_options initial_state) in
  console s = [Warn "2023-2024" (HttpError 500)] /\
  List.length (requests s) = 7%nat /\
  List.length (rawRecords s) = 12%nat /\
  map district_name (data s) = ["CHENNAI"] /\
  map Total_Exp (data s) = [of_Z 9000] /\
  topDistrict (insights s) = "Chennai" /\
  loading s = false.
Proof. vm_compute. repeat split; reflexivity. Qed.

End Examples.

Module StringFacts.

Lemma code_ascii_of_N n : (n < 256)%N -> code (ascii_of_N n) = n.
Proof. intros H. unfold code. now apply N_ascii_embedding. Qed.

Lemma code_bound c : (code c < 256)%N.
Proof. unfold code. apply N_ascii_bounded. Qed.

Lemma upper_char_code c :
  code (upper_char c) = if lowercase c then (code c - 32)%N else code c.
Proof.
  unfold upper_char, lowercase.
  destruct ((97 <=? code c)%N && (code c <=? 122)%N) eqn:E; [| reflexivity].
  apply code_ascii_of_N. pose proof (code_bound c). lia.
Qed.

Lemma lowercase_upper_char c : lowercase (upper_char c) = false.
Proof.
  unfold lowercase at 1. rewrite upper_char_code.
  destruct (lowercase c) eqn:E.
  - unfold lowercase in E. apply andb_true_iff in E as [E1 E2].
    apply N.leb_le in E1, E2. apply andb_false_iff. left.
    apply N.leb_gt. lia.
  - exact E.
Qed.

Lemma upper_char_fixed c : lowercase c = false -> upper_char c = c.
Proof. unfold upper_char, lowercase. now intros ->. Qed.

Lemma upper_char_idem c : upper_char (upper_char c) = upper_char c.
Proof. apply upper_char_fixed, lowercase_upper_char. Qed.

Lemma is_space_upper_char c : is_space (upper_char c) = is_space c.
Proof.
  destruct (lowercase c) eqn:E; [| now rewrite upper_char_fixed].
  unfold is_space. rewrite upper_char_code, E.
  unfold lowercase in E. apply andb_true_iff in E as [E1 E2].
  apply N.leb_le in E1, E2.
  replace ((code c =? 32)%N) with false by (symmetry; apply N.eqb_neq; lia).
  replace ((code c - 32 =? 32)%N) with false by (symmetry; apply N.eqb_neq; lia).
  replace ((code c <=? 13)%N) with false by (symmetry; apply N.leb_gt; lia).
  replace ((code c - 32 <=? 13)%N) with false by (symmetry; apply N.leb_gt; lia).
  now rewrite !andb_false_r.
Qed.

(** A byte is the byte [n >= 128] before upper-casing exactly when it is
    after. *)
Lemma code_upper_char_eqb c n :
  (128 <=? n)%N = true ->
  (code (upper_char c) =? n)%N = (code c =? n)%N.
Proof.
  intros Hn. apply N.leb_le in Hn. rewrite upper_char_code.
  destruct (lowercase c) eqn:E; [| reflexivity].
  unfold lowercase in E. apply andb_true_iff in E as [E1 E2].
  apply N.leb_le in E1, E2.
  transitivity false; [apply N.eqb_neq | symmetry; apply N.eqb_neq]; lia.
Qed.

Lemma code_upper_char_range c lo hi :
  (128 <=? lo)%N = true ->
  ((lo <=? code (upper_char c)) && (code (upper_char c) <=? hi))%N
  = ((lo <=? code c) && (code c <=? hi))%N.
Proof.
  intros Hn. apply N.leb_le in Hn. rewrite upper_char_code.
  destruct (lowercase c) eqn:E; [| reflexivity].
  unfold lowercase in E. apply andb_true_iff in E as [E1 E2].
  apply N.leb_le in E1, E2.
  replace (lo <=? code c - 32)%N with false by (symmetry; apply N.leb_gt; lia).
  replace (lo <=? code c)%N with false by (symmetry; apply N.leb_gt; lia).
  reflexivity.
Qed.

Lemma is_space2_upper_char a b :
  is_space2 (upper_char a) (upper_char b) = is_space2 a b.
Proof. unfold is_space2. now rewrite !code_upper_char_eqb. Qed.

Lemma is_space3_upper_char a b c :
  is_space3 (upper_char a) (upper_char b) (upper_char c) = is_space3 a b c.
Proof.
  unfold is_space3.
  now rewrite !code_upper_char_eqb, code_upper_char_range.
Qed.

Section DropFacts.
Variable two : ascii -> ascii -> bool.
Variable three : ascii -> ascii -> ascii -> bool.

(** Facts on lists are proved for all lists up to a length. *)
Lemma by_length (P : list ascii -> Prop) :
  (forall n l, (List.length l <= n)%nat -> P l) -> forall l, P l.
Proof. intros H l. now apply (H (List.length l)). Qed.

Lemma drop_white_suffix l : exists sp, l = sp ++ drop_white two three l.
Proof.
  revert l. apply by_length. induction n as [| n IH]; intros l Hl.
  - destruct l; [now exists [] | simpl in Hl; lia].
  - destruct l as [| x1 l1]; [now exists [] |]. simpl in Hl.
    cbn [drop_white].
    destruct (is_space x1).
    { destruct (IH l1 ltac:(lia)) as (sp & E).
      exists (x1 :: sp). simpl. now rewrite <- E. }
    destruct l1 as [| x2 l2]; [now exists [] |]. simpl in Hl.
    destruct (two x1 x2).
    { destruct (IH l2 ltac:(lia)) as (sp & E).
      exists (x1 :: x2 :: sp). simpl. now rewrite <- E. }
    destruct l2 as [| x3 l3]; [now exists [] |]. simpl in Hl.
    destruct (three x1 x2 x3); [| now exists []].
    destruct (IH l3 ltac:(lia)) as (sp & E).
    exists (x1 :: x2 :: x3 :: sp). simpl. now rewrite <- E.
Qed.

Lemma drop_white_length l : (List.length (drop_white two three l) <= List.length l)%nat.
Proof.
  destruct (drop_white_suffix l) as (sp & E).
  rewrite E at 2. rewrite length_app. lia.
Qed.

Lemma drop_white_clean l : clean_head two three (drop_white two three l).
Proof.
  revert l. apply by_length. induction n as [| n IH]; intros l Hl.
  - destruct l; [exact I | simpl in Hl; lia].
  - destruct l as [| x1 l1]; [exact I |]. simpl in Hl.
    cbn [drop_white].
    destruct (is_space x1) eqn:E1; [apply IH; lia |].
    destruct l1 as [| x2 l2]; [now split |]. simpl in Hl.
    destruct (two x1 x2) eqn:E2; [apply IH; lia |].
    destruct l2 as [| x3 l3]; [now repeat split |]. simpl in Hl.
    destruct (three x1 x2 x3) eqn:E3; [apply IH; lia |].
    now repeat split.
Qed.

Lemma drop_white_fixed l : clean_head two three l -> drop_white two three l = l.
Proof.
  destruct l as [| x1 l1]; [reflexivity |].
  cbn [clean_head drop_white]. intros [-> H].
  destruct l1 as [| x2 l2]; [reflexivity |]. destruct H as [-> H].
  destruct l2 as [| x3 l3]; [reflexivity |]. now rewrite H.
Qed.

Lemma clean_head_prefix p s : clean_head two three (p ++ s) -> clean_head two three p.
Proof.
  destruct p as [| x1 p]; [intros; exact I |].
  cbn [app clean_head]. intros [H1 H]. split; [exact H1 |].
  destruct p as [| x2 p]; [exact I |]. cbn [app] in H.
  destruct H as [H2 H]. split; [exact H2 |].
  destruct p as [| x3 p]; [exact I | exact H].
Qed.

Section Map.
Variable f : ascii -> ascii.
Hypothesis f_space : forall c, is_space (f c) = is_space c.
Hypothesis f_two : forall a b, two (f a) (f b) = two a b.
Hypothesis f_three : forall a b c, three (f a) (f b) (f c) = three a b c.

Lemma drop_white_map l : drop_white two three (map f l) = map f (drop_white two three l).
Proof.
  revert l. apply by_length. induction n as [| n IH]; intros l Hl.
  - destruct l; [reflexivity | simpl in Hl; lia].
  - destruct l as [| x1 l1]; [reflexivity |]. simpl in Hl.
    cbn [map drop_white]. rewrite f_space.
    destruct (is_space x1); [apply IH; lia |].
    destruct l1 as [| x2 l2]; [reflexivity |]. simpl in Hl.
    cbn [map]. rewrite f_two.
    destruct (two x1 x2); [apply IH; lia |].
    destruct l2 as [| x3 l3]; [reflexivity |]. simpl in Hl.
    cbn [map]. rewrite f_three.
    destruct (three x1 x2 x3); [apply IH; lia | reflexivity].
Qed.
End Map.
End DropFacts.

Lemma drop_spaces_map l :
  drop_spaces (map upper_char l) = map upper_char (drop_spaces l).
Proof.
  apply drop_white_map.
  - apply is_space_upper_char.
  - apply is_space2_upper_char.
  - apply is_space3_upper_char.
Qed.

Lemma drop_spaces_rev_map l :
  drop_spaces_rev (map upper_char l) = map upper_char (drop_spaces_rev l).
Proof.
  apply drop_white_map.
  - apply is_space_upper_char.
  - intros a b. apply is_space2_upper_char.
  - intros a b c. apply is_space3_upper_char.
Qed.

Lemma trim_chars_map l :
  trim_chars (map upper_char l) = map upper_char (trim_chars l).
Proof.
  unfold trim_chars.
  now rewrite drop_spaces_map, <- map_rev, drop_spaces_rev_map, map_rev.
Qed.

(** The trimmed text neither begins nor ends with white space. *)
Lemma trim_chars_clean l : clean_start (trim_chars l) /\ clean_end (trim_chars l).
Proof.
  unfold trim_chars, clean_start, clean_end. split.
  - set (a := drop_spaces l).
    destruct (drop_white_suffix (fun x1 x2 => is_space2 x2 x1)
                (fun x1 x2 x3 => is_space3 x3 x2 x1) (rev a)) as (sp & E).
    fold (drop_spaces_rev (rev a)) in E.
    assert (Ea : a = rev (drop_spaces_rev (rev a)) ++ rev sp).
    { rewrite <- rev_app_distr, <- E. now rewrite rev_involutive. }
    apply (clean_head_prefix _ _ _ (rev sp)). rewrite <- Ea.
    apply drop_white_clean.
  - rewrite rev_involutive. apply drop_white_clean.
Qed.

Lemma trim_chars_fixed l : clean_start l -> clean_end l -> trim_chars l = l.
Proof.
  intros H1 H2. unfold trim_chars, drop_spaces, drop_spaces_rev.
  rewrite (drop_white_fixed _ _ l H1), (drop_white_fixed _ _ _ H2).
  apply rev_involutive.
Qed.

Lemma trim_chars_idem l : trim_chars (trim_chars l) = trim_chars l.
Proof. destruct (trim_chars_clean l). now apply trim_chars_fixed. Qed.

Lemma trim_chars_length l :
  (List.length (trim_chars l) <= List.length l)%nat.
Proof.
  unfold trim_chars. rewrite length_rev.
  pose proof (drop_white_length (fun x1 x2 => is_space2 x2 x1)
                (fun x1 x2 x3 => is_space3 x3 x2 x1) (rev (drop_spaces l))).
  pose proof (drop_white_length is_space2 is_space3 l).
  unfold drop_spaces_rev. fold (drop_spaces l) in H0.
  rewrite length_rev in H. lia.
Qed.

(** A text whose first and last bytes are below 128 and no white space
    is its own trimming. *)
Lemma clean_head_plain two three l :
  (forall a b, two a b = true -> (128 <=? code a)%N = true) ->
  (forall a b c, three a b c = true -> (128 <=? code a)%N = true) ->
  match l with
  | [] => True
  | c :: _ => is_space c = false /\ (128 <=? code c)%N = false
  end ->
  clean_head two three l.
Proof.
  intros H2 H3. destruct l as [| x1 l1]; [intros; exact I |].
  intros [Hs Hc]. split; [exact Hs |].
  destruct l1 as [| x2 l2]; [exact I |]. split.
  - destruct (two x1 x2) eqn:E; [| reflexivity].
    apply H2 in E. congruence.
  - destruct l2 as [| x3 l3]; [exact I |].
    destruct (three x1 x2 x3) eqn:E; [| reflexivity].
    apply H3 in E. congruence.
Qed.

Lemma trim_idem s : trim (trim s) = trim s.
Proof.
  unfold trim. now rewrite list_ascii_of_string_of_list_ascii, trim_chars_idem.
Qed.

Lemma toUpperCase_idem s : toUpperCase (toUpperCase s) = toUpperCase s.
Proof.
  unfold toUpperCase. rewrite list_ascii_of_string_of_list_ascii, map_map.
  f_equal. apply map_ext. intros c. apply upper_char_idem.
Qed.

Lemma trim_toUpperCase s : trim (toUpperCase s) = toUpperCase (trim s).
Proof.
  unfold trim, toUpperCase.
  now rewrite !list_ascii_of_string_of_list_ascii, trim_chars_map.
Qed.

Lemma toUpperCase_upper_cased s : upper_cased (toUpperCase s).
Proof.
  unfold upper_cased, toUpperCase.
  rewrite list_ascii_of_string_of_list_ascii.
  apply Forall_forall. intros c Hc. apply in_map_iff in Hc as (c0 & <- & _).
  apply lowercase_upper_char.
Qed.

Lemma is_empty_trim_empty s : is_empty s = true -> is_empty (trim s) = true.
Proof. destruct s; [reflexivity | discriminate]. Qed.

End StringFacts.
Import StringFacts.

Module FilterFacts.

(** The visible filter only depends on the trimmed, upper-cased text. *)
Lemma apply_district_filter_eq df l :
  apply_district_filter df l =
  if is_empty (toUpperCase (trim df)) then l
  else filter (fun d => includes (district_name d) (toUpperCase (trim df))) l.
Proof.
  unfold apply_district_filter. rewrite is_empty_toUpperCase.
  destruct (is_empty df) eqn:E; simpl.
  - now rewrite (is_empty_trim_empty df E).
  - now destruct (is_empty (trim df)).
Qed.

Lemma filter_idem {A} (p : A -> bool) l : filter p (filter p l) = filter p l.
Proof.
  induction l as [| a l IH]; simpl; [reflexivity |].
  destruct (p a) eqn:E; simpl; [rewrite E |]; now rewrite ?IH.
Qed.

Lemma length_group_step acc cur :
  (List.length (group_step acc cur) <= S (List.length acc))%nat.
Proof.
  unfold group_step. destruct (lookup (district_name cur) acc).
  - assert (H : List.length (update (district_name cur) cur acc)
                = List.length acc).
    { rewrite <- (length_map fst), keys_update. apply length_map. }
    lia.
  - rewrite length_app. simpl. lia.
Qed.

Lemma length_group_fold l : forall acc,
  (List.length (fold_left group_step l acc)
   <= List.length acc + List.length l)%nat.
Proof.
  induction l as [| cur l IH]; intros acc; simpl; [lia |].
  pose proof (IH (group_step acc cur)).
  pose proof (length_group_step acc cur). lia.
Qed.

Lemma mapM_length {A B} (f : A -> result B) l l' :
  mapM f l = Ok l' -> List.length l' = List.length l.
Proof.
  intros H. apply mapM_Forall2 in H.
  induction H; simpl; congruence.
Qed.

End FilterFacts.
Import FilterFacts.

Module ExtremeFacts.

Ltac compare_cases :=
  repeat match goal with
         | |- context [Z.compare ?x ?y] => destruct (Z.compare_spec x y)
         | |- context [Pos.compare ?x ?y] => destruct (Pos.compare_spec x y)
         end.

(** [>=] is transitive on the numbers other than NaN. *)
Lemma ge_trans a b c :
  isNaN b = false -> ge a b = true -> ge b c = true -> ge a c = true.
Proof.
  unfold ge, SFleb, SFcompare. intros Nb.
  destruct a as [sa | sa | | sa ma ea], b as [sb | sb | | sb mb eb],
           c as [sc | sc | | sc mc ec];
    try discriminate; try (destruct sa, sb, sc; simpl; congruence);
    try (destruct sa, sb; simpl; congruence);
    try (destruct sa, sc; simpl; congruence);
    try (destruct sb, sc; simpl; congruence).
  change (Pos.compare_cont Eq mc mb) with (Pos.compare mc mb).
  change (Pos.compare_cont Eq mb ma) with (Pos.compare mb ma).
  change (Pos.compare_cont Eq mc ma) with (Pos.compare mc ma).
  destruct sa, sb, sc; try congruence; compare_cases; simpl;
    try congruence; try lia.
Qed.

Lemma strict_equal_not_lt a b t :
  strict_equal a t = true -> strict_equal b t = true -> lt a b = false.
Proof.
  unfold strict_equal, lt, SFeqb, SFltb, SFcompare.
  destruct a as [sa | sa | | sa ma ea], b as [sb | sb | | sb mb eb],
           t as [st | st | | st mt et];
    try discriminate; try reflexivity;
    try (destruct sa, sb, st; simpl; congruence);
    try (destruct sa, st; simpl; congruence);
    try (destruct sb, st; simpl; congruence).
  change (Pos.compare_cont Eq ma mt) with (Pos.compare ma mt).
  change (Pos.compare_cont Eq mb mt) with (Pos.compare mb mt).
  change (Pos.compare_cont Eq ma mb) with (Pos.compare ma mb).
  destruct sa, sb, st; try congruence; compare_cases; simpl;
    try congruence; try lia.
Qed.

Lemma ge_refl a : isNaN a = false -> valid a = true -> ge a a = true.
Proof.
  intros Na _. unfold ge, SFleb, SFcompare.
  destruct a as [s | s | | s m e]; try discriminate; try (now destruct s).
  change (Pos.compare_cont Eq m m) with (Pos.compare m m).
  rewrite Z.compare_refl, Pos.compare_refl. now destruct s.
Qed.

Lemma last_cons {A} (l : list A) a d : last (a :: l) d = last l a.
Proof.
  revert a d. induction l as [| b l IH]; intros a d; [reflexivity |].
  change (last (a :: b :: l) d) with (last (b :: l) d).
  rewrite IH. symmetry. apply IH.
Qed.

(** In a sorted array the first aggregate has the largest total. *)
Lemma Sorted_first l : forall a,
  Sorted ge_total (a :: l) -> Forall comparable (a :: l) ->
  forall d, In d (a :: l) -> ge_total a d.
Proof.
  induction l as [| y r IH]; intros a Hs Hc d Hd.
  - destruct Hd as [<- | []]. inversion Hc; subst.
    apply ge_refl; apply H1.
  - inversion Hs as [| ? ? Hs' Hhd]; subst.
    inversion Hc as [| ? ? Ha Hc']; subst.
    inversion Hhd as [| ? ? Hay]; subst.
    destruct Hd as [<- | Hd]; [apply ge_refl; apply Ha |].
    inversion Hc' as [| ? ? Hy _]; subst.
    apply (ge_trans _ (Total_Exp y)); [apply Hy | exact Hay |].
    now apply IH.
Qed.

(** And the last one the smallest. *)
Lemma Sorted_last l : forall a,
  Sorted ge_total (a :: l) -> Forall comparable (a :: l) ->
  forall d, In d (a :: l) -> ge_total d (last l a).
Proof.
  induction l as [| y r IH]; intros a Hs Hc d Hd.
  - destruct Hd as [<- | []]. inversion Hc; subst.
    apply ge_refl; apply H1.
  - inversion Hs as [| ? ? Hs' Hhd]; subst.
    inversion Hc as [| ? ? Ha Hc']; subst.
    inversion Hhd as [| ? ? Hay]; subst.
    inversion Hc' as [| ? ? Hy _]; subst.
    rewrite last_cons.
    destruct Hd as [<- | Hd]; [| now apply IH].
    apply (ge_trans _ (Total_Exp y)); [apply Hy | exact Hay |].
    apply IH; [assumption | assumption | now left].
Qed.

Lemma last_In {A} (l : list A) a : In (last l a) (a :: l).
Proof.
  revert a. induction l as [| b l IH]; intros a; [now left |].
  right. rewrite last_cons. apply IH.
Qed.

(** The array handed to [setData] is sorted and its totals can be
    compared, when no total is NaN. *)
Lemma final_array_sorted st df rows arr :
  final_array st df rows = Ok arr ->
  Forall (fun r => well_formed r = true) rows ->
  Forall (fun d => isNaN (Total_Exp d) = false) arr ->
  Sorted ge_total arr /\ Forall comparable arr.
Proof.
  intros H Hw Hn. unfold final_array in H.
  destruct (aggregate st rows) as [agg |] eqn:Ea; cbn [bind] in H;
    [| discriminate].
  injection H as <-.
  pose proof (aggregate_valid _ _ _ Hw Ea) as Hv.
  assert (Hc : Forall comparable (apply_district_filter df agg)).
  { apply Forall_forall. intros d Hd. split.
    - rewrite Forall_forall in Hv. apply Hv.
      rewrite apply_district_filter_eq in Hd.
      destruct (is_empty _); [exact Hd | now apply filter_In in Hd].
    - rewrite Forall_forall in Hn. apply Hn.
      now apply (Permutation_in _ (Permutation_sym (Array_sort_perm _ _))). }
  split; [now apply Array_sort_sorted |].
  apply Forall_forall. intros d Hd. rewrite Forall_forall in Hc. apply Hc.
  now apply (Permutation_in _ (Array_sort_perm by_expenditure _)).
Qed.

(** Equal totals are not exchanged by the sort. *)
Lemma sort_insert_stable (p : NormalizedRecord -> bool) x l :
  comparable x -> Forall comparable l ->
  (forall y, p x = true -> p y = true ->
             lt (Total_Exp x) (Total_Exp y) = false) ->
  filter p (sort_insert by_expenditure x l) = filter p (x :: l).
Proof.
  intros Hx Hl Hp. induction Hl as [| y l Hy Hl IH]; [reflexivity |].
  cbn [sort_insert]. rewrite by_expenditure_positive by assumption.
  destruct (lt (Total_Exp x) (Total_Exp y)) eqn:E; [| reflexivity].
  cbn [filter] in *. destruct (p x) eqn:Epx.
  - destruct (p y) eqn:Epy; [| exact IH].
    rewrite (Hp y eq_refl Epy) in E. discriminate.
  - destruct (p y); [now rewrite IH | exact IH].
Qed.

Lemma Array_sort_stable (p : NormalizedRecord -> bool) l :
  Forall comparable l ->
  (forall x y, p x = true -> p y = true ->
               lt (Total_Exp x) (Total_Exp y) = false) ->
  filter p (Array_sort by_expenditure l) = filter p l.
Proof.
  intros Hl Hp. induction Hl as [| x l Hx Hl IH]; [reflexivity |].
  cbn [Array_sort fold_right].
  change (fold_right (sort_insert by_expenditure) [] l)
    with (Array_sort by_expenditure l).
  rewrite sort_insert_stable.
  - cbn [filter]. now rewrite IH.
  - exact Hx.
  - apply Forall_forall. intros y Hy. rewrite Forall_forall in Hl.
    apply Hl. now apply (Permutation_in _ (Array_sort_perm by_expenditure l)).
  - intros y. apply Hp.
Qed.

End ExtremeFacts.
Import ExtremeFacts.

Module UniformFacts.

Lemma state_eta s :
  {| data := data s; rawRecords := rawRecords s; loading := loading s;
     year := year s; stateName := stateName s;
     districtFilter := districtFilter s; insights := insights s;
     console := console s; requests := requests s |} = s.
Proof. now destruct s. Qed.

Lemma apply_no_effect s : apply_effect no_effect s = s.
Proof.
  unfold apply_effect, no_effect. cbn. rewrite !app_nil_r. apply state_eta.
Qed.

Lemma or_kept_latest {A} (a b : option A) (x : A) :
  or_kept (latest a b) x = or_kept b (or_kept a x).
Proof. now destruct a, b. Qed.

Lemma apply_then e1 e2 s :
  apply_effect e2 (apply_effect e1 s) = apply_effect (then_effect e1 e2) s.
Proof.
  unfold apply_effect, then_effect. cbn.
  now rewrite !or_kept_latest, !app_assoc.
Qed.

Lemma or_kept_twice {A} (o : option A) (x : A) :
  or_kept o (or_kept o x) = or_kept o x.
Proof. now destruct o. Qed.

Lemma uniform_ret {A} (a : A) : uniform (ret a).
Proof.
  exists (Ok a), no_effect. intros s. now rewrite apply_no_effect.
Qed.

Lemma uniform_lift {A} (r : result A) : uniform (lift r).
Proof.
  exists r, no_effect. intros s. now rewrite apply_no_effect.
Qed.

Lemma uniform_bindM {A B} (m : M A) (k : A -> M B) :
  uniform m -> (forall a, uniform (k a)) -> uniform (bindM m k).
Proof.
  intros (r & e & Hm) Hk. destruct r as [a | err].
  - destruct (Hk a) as (r' & e' & Hka).
    exists r', (then_effect e e'). intros s.
    unfold bindM. now rewrite Hm, Hka, apply_then.
  - exists (Throw err), e. intros s. unfold bindM. now rewrite Hm.
Qed.

Lemma uniform_try_catch {A} (m : M A) (h : error -> M A) :
  uniform m -> (forall e, uniform (h e)) -> uniform (try_catch m h).
Proof.
  intros (r & e & Hm) Hh. destruct r as [a | err].
  - exists (Ok a), e. intros s. unfold try_catch. now rewrite Hm.
  - destruct (Hh err) as (r' & e' & Hhe).
    exists r', (then_effect e e'). intros s.
    unfold try_catch. now rewrite Hm, Hhe, apply_then.
Qed.

Lemma uniform_try_finally {A} (m : M A) (f : M unit) :
  uniform m -> uniform f -> uniform (try_finally m f).
Proof.
  intros (r & e & Hm) (rf & ef & Hf).
  exists (match rf with Ok _ => r | Throw x => Throw x end),
         (then_effect e ef).
  intros s. unfold try_finally. rewrite Hm, Hf, apply_then.
  now destruct rf.
Qed.

Lemma uniform_setLoading b : uniform (setLoading b).
Proof.
  exists (Ok tt),
    {| new_data := None; new_rawRecords := None; new_loading := Some b;
       new_insights := None; logged := []; sent := [] |}.
  intros s. unfold setLoading, apply_effect. cbn. now rewrite !app_nil_r.
Qed.

Lemma uniform_setRawRecords rows : uniform (setRawRecords rows).
Proof.
  exists (Ok tt),
    {| new_data := None; new_rawRecords := Some rows; new_loading := None;
       new_insights := None; logged := []; sent := [] |}.
  intros s. unfold setRawRecords, apply_effect. cbn. now rewrite !app_nil_r.
Qed.

Lemma uniform_setData d : uniform (setData d).
Proof.
  exists (Ok tt),
    {| new_data := Some d; new_rawRecords := None; new_loading := None;
       new_insights := None; logged := []; sent := [] |}.
  intros s. unfold setData, apply_effect. cbn. now rewrite !app_nil_r.
Qed.

Lemma uniform_setInsights i : uniform (setInsights i).
Proof.
  exists (Ok tt),
    {| new_data := None; new_rawRecords := None; new_loading := None;
       new_insights := Some i; logged := []; sent := [] |}.
  intros s. unfold setInsights, apply_effect. cbn. now rewrite !app_nil_r.
Qed.

Lemma uniform_log e : uniform (log e).
Proof.
  exists (Ok tt),
    {| new_data := None; new_rawRecords := None; new_loading := None;
       new_insights := None; logged := [e]; sent := [] |}.
  intros s. unfold log, add_log, apply_effect. cbn. now rewrite !app_nil_r.
Qed.

Lemma uniform_fetch net q : uniform (fetch net q).
Proof.
  exists (match net q with NoResponse => Throw NetworkError | r => Ok r end),
    {| new_data := None; new_rawRecords := None; new_loading := None;
       new_insights := None; logged := []; sent := [q] |}.
  intros s. unfold fetch, add_request, apply_effect. cbn.
  rewrite !app_nil_r. now destruct (net q).
Qed.

Lemma uniform_fetchForYear net st dov y : uniform (fetchForYear net st dov y).
Proof.
  apply uniform_bindM; [apply uniform_fetch |].
  intros res. apply uniform_lift.
Qed.

Lemma uniform_fetch_each_year net st dov ys :
  forall acc, uniform (fetch_each_year net st dov ys acc).
Proof.
  induction ys as [| y ys IH]; intros acc; [apply uniform_ret |].
  cbn [fetch_each_year]. apply uniform_bindM; [| exact IH].
  apply uniform_try_catch.
  - apply uniform_bindM; [apply uniform_fetchForYear |].
    intros rows. apply uniform_lift.
  - intros e. apply uniform_bindM; [apply uniform_log |].
    intros _. apply uniform_ret.
Qed.

Lemma uniform_fetch_rows net st dov y : uniform (fetch_rows net st dov y).
Proof.
  unfold fetch_rows. destruct (String.eqb y "All").
  - apply uniform_fetch_each_year.
  - apply uniform_bindM; [apply uniform_fetchForYear |].
    intros rows. apply uniform_lift.
Qed.

Lemma uniform_publish st df allRows : uniform (publish st df allRows).
Proof.
  unfold publish.
  apply uniform_bindM; [apply uniform_setRawRecords | intros _].
  apply uniform_bindM; [apply uniform_lift | intros arr].
  apply uniform_bindM; [apply uniform_setData | intros _].
  apply uniform_bindM; [apply uniform_lift | intros i].
  apply uniform_setInsights.
Qed.

Lemma uniform_try_block net st df dov y : uniform (try_block net st df dov y).
Proof.
  unfold try_block. apply uniform_bindM; [apply uniform_fetch_rows |].
  intros allRows. apply uniform_publish.
Qed.

(** The cycle run with the component values of [c]. *)
Lemma uniform_cycle net opts c :
  uniform (setLoading true ;;;
           try_finally
             (try_catch (fetchData_try net opts c)
                (fun err => log (Error err)))
             (setLoading false)).
Proof.
  apply uniform_bindM; [apply uniform_setLoading | intros _].
  apply uniform_try_finally; [| apply uniform_setLoading].
  apply uniform_try_catch; [apply uniform_try_block |].
  intros e. apply uniform_log.
Qed.

Lemma fetchData_try_closure net opts c c' :
  year c' = year c -> stateName c' = stateName c ->
  districtFilter c' = districtFilter c ->
  fetchData_try net opts c' = fetchData_try net opts c.
Proof. unfold fetchData_try. now intros -> -> ->. Qed.

End UniformFacts.
Import UniformFacts.

Module TextFacts.

Lemma is_digit_code c : is_digit c = true -> (48 <= code c <= 57)%N.
Proof.
  unfold is_digit. intros H. apply andb_true_iff in H as [H1 H2].
  apply N.leb_le in H1. apply N.leb_le in H2. lia.
Qed.

Lemma is_digit_not_space c : is_digit c = true -> is_space c = false.
Proof.
  intros H. apply is_digit_code in H. unfold is_space.
  apply orb_false_iff. split.
  - apply andb_false_iff. right. apply N.leb_gt. lia.
  - apply N.eqb_neq. lia.
Qed.

Lemma take_digits_all l : forall acc,
  Forall (fun c => is_digit c = true) l ->
  take_digits l acc = (rev acc ++ l, []).
Proof.
  induction l as [| c l IH]; intros acc H; simpl.
  - now rewrite app_nil_r.
  - inversion H as [| ? ? Hc Hl]; subst. rewrite Hc, IH by assumption.
    simpl. now rewrite <- app_assoc.
Qed.

Lemma decimal_value_step ds : forall a,
  Forall (fun c => is_digit c = true) ds ->
  0 <= a -> 0 <= fold_left (fun a c => 10 * a + digit_val c) ds a.
Proof.
  induction ds as [| c ds IH]; intros a H Ha; cbn [fold_left];
    [exact Ha |].
  inversion H as [| ? ? Hc Hl]; subst. apply IH; [assumption |].
  apply is_digit_code in Hc. unfold digit_val. lia.
Qed.

Lemma decimal_value_nonneg ds :
  Forall (fun c => is_digit c = true) ds -> 0 <= decimal_value ds.
Proof. intros H. apply decimal_value_step; [exact H | lia]. Qed.

Lemma of_decimal_integer v : 0 <= v -> of_decimal false v 0 = of_Z v.
Proof.
  intros Hv. destruct v as [| p | p]; [reflexivity | | lia].
  unfold of_decimal, of_Z, binary_normalize.
  now rewrite Z.pow_0_r, Z.mul_1_r.
Qed.

Lemma is_space2_high a b : is_space2 a b = true -> (128 <=? code a)%N = true.
Proof.
  unfold is_space2. intros H. apply andb_true_iff in H as [H _].
  apply N.eqb_eq in H. now rewrite H.
Qed.

Lemma is_space2_high_end a b :
  is_space2 a b = true -> (128 <=? code b)%N = true.
Proof.
  unfold is_space2. intros H. apply andb_true_iff in H as [_ H].
  apply N.eqb_eq in H. now rewrite H.
Qed.

Lemma is_space3_high a b c :
  is_space3 a b c = true -> (128 <=? code a)%N = true.
Proof.
  unfold is_space3. intros H.
  repeat (apply orb_true_iff in H as [H | H]);
    repeat (apply andb_true_iff in H as [H _]);
    apply N.eqb_eq in H; now rewrite H.
Qed.

Lemma is_space3_high_end a b c :
  is_space3 a b c = true -> (128 <=? code c)%N = true.
Proof.
  unfold is_space3. intros H. apply N.leb_le.
  repeat (apply orb_true_iff in H as [H | H]);
    apply andb_true_iff in H as [_ H];
    repeat (apply orb_true_iff in H as [H | H]);
    try (apply N.eqb_eq in H; lia).
  apply andb_true_iff in H as [H _]. apply N.leb_le in H. lia.
Qed.

(** A text of digits neither begins nor ends with white space. *)
Lemma digits_plain l :
  Forall (fun c => is_digit c = true) l ->
  match l with
  | [] => True
  | c :: _ => is_space c = false /\ (128 <=? code c)%N = false
  end.
Proof.
  intros H. destruct l as [| c l]; [exact I |].
  inversion H as [| ? ? Hc _]; subst.
  split; [now apply is_digit_not_space |].
  apply is_digit_code in Hc. apply N.leb_gt. lia.
Qed.

Lemma clean_start_digits l :
  Forall (fun c => is_digit c = true) l -> clean_start l.
Proof.
  intros H. apply clean_head_plain.
  - apply is_space2_high.
  - apply is_space3_high.
  - now apply digits_plain.
Qed.

Lemma clean_end_digits l :
  Forall (fun c => is_digit c = true) l -> clean_end l.
Proof.
  intros H. apply clean_head_plain.
  - intros a b. apply is_space2_high_end.
  - intros a b c. apply is_space3_high_end.
  - apply digits_plain, Forall_rev, H.
Qed.

Lemma unsigned_decimal_digits c r :
  Forall (fun c => is_digit c = true) (c :: r) ->
  unsigned_decimal false (c :: r) = of_Z (decimal_value (c :: r)).
Proof.
  intros H. unfold unsigned_decimal.
  assert (Hi : chars_eqb (c :: r) Infinity_chars = false).
  { unfold chars_eqb, Infinity_chars.
    inversion H as [| ? ? Hc _]; subst. apply is_digit_code in Hc.
    apply String.eqb_neq. intros E. cbn in E. injection E as -> _.
    destruct Hc as [_ Hc]. now apply Hc. }
  rewrite Hi, take_digits_all by exact H. cbn [rev app].
  rewrite app_nil_r. cbn [exponent_part List.length Z.of_nat].
  rewrite Z.sub_0_r, of_decimal_integer by now apply decimal_value_nonneg.
  reflexivity.
Qed.

(** [Number] reads a text of digits as the integer they spell. *)
Lemma Number_chars_digits l :
  Forall (fun c => is_digit c = true) l ->
  Number_chars l = of_Z (decimal_value l).
Proof.
  intros H. unfold Number_chars.
  rewrite trim_chars_fixed.
  2: now apply clean_start_digits.
  2: now apply clean_end_digits.
  destruct l as [| c r]; [reflexivity |].
  pose proof (unsigned_decimal_digits c r H) as Hu.
  inversion H as [| ? ? Hc Hr]; subst.
  pose proof (is_digit_code _ Hc) as Hcc.
  replace (code c =? 45)%N with false by (symmetry; apply N.eqb_neq; lia).
  replace (code c =? 43)%N with false by (symmetry; apply N.eqb_neq; lia).
  destruct r as [| x r'].
  - now destruct c as [[] [] [] [] [] [] [] []].
  - inversion Hr as [| ? ? Hx _]; subst. apply is_digit_code in Hx.
    replace (code x =? 120)%N with false by (symmetry; apply N.eqb_neq; lia).
    replace (code x =? 88)%N with false by (symmetry; apply N.eqb_neq; lia).
    replace (code x =? 111)%N with false by (symmetry; apply N.eqb_neq; lia).
    replace (code x =? 79)%N with false by (symmetry; apply N.eqb_neq; lia).
    replace (code x =? 98)%N with false by (symmetry; apply N.eqb_neq; lia).
    replace (code x =? 66)%N with false by (symmetry; apply N.eqb_neq; lia).
    cbn [orb]. now destruct c as [[] [] [] [] [] [] [] []].
Qed.

Lemma isNaN_of_Z z : isNaN (of_Z z) = false.
Proof.
  pose proof (binary_normalize_sign z 0 ltac:(lia)) as H.
  unfold of_Z. destruct z.
  - now rewrite H.
  - destruct H as [(m & e & -> & _) | ->]; reflexivity.
  - destruct H as [(m & e & -> & _) | ->]; reflexivity.
Qed.

Lemma filter_digits_of_grouped l :
  Forall (fun c => is_digit c || (code c =? 44)%N = true) l ->
  filter (fun c => negb (code c =? 44)%N) l = filter is_digit l.
Proof.
  intros H. induction H as [| c l Hc _ IH]; [reflexivity |].
  cbn [filter]. rewrite IH.
  destruct (is_digit c) eqn:Ed.
  - apply is_digit_code in Ed.
    now replace (code c =? 44)%N with false by (symmetry; apply N.eqb_neq; lia).
  - cbn in Hc. now rewrite Hc.
Qed.

Lemma Forall_filter_self {A} (p : A -> bool) l :
  Forall (fun c => p c = true) (filter p l).
Proof.
  apply Forall_forall. intros c Hc. now apply filter_In in Hc.
Qed.

(** Strict equality of two numbers makes them the same integer. *)
Lemma strict_equal_to_Z x y : strict_equal x y = true -> to_Z x = to_Z y.
Proof.
  unfold strict_equal, SFeqb, SFcompare. intros H.
  destruct x as [sx | sx | | sx mx ex], y as [sy | sy | | sy my ey];
    try reflexivity; try discriminate H;
    try (destruct sx; discriminate H); try (destruct sy; discriminate H).
  destruct sx, sy; try discriminate H;
    destruct (Z.compare_spec ex ey) as [-> | |]; try discriminate H.
  - destruct (Pos.compare_cont Eq mx my) eqn:E; try discriminate H.
    apply Pos.compare_eq in E. now subst.
  - destruct (Pos.compare_cont Eq mx my) eqn:E; try discriminate H.
    apply Pos.compare_eq in E. now subst.
Qed.

Lemma strict_equal_refl x : isNaN x = false -> strict_equal x x = true.
Proof.
  unfold strict_equal, SFeqb, SFcompare.
  destruct x as [s | s | | s m e]; try discriminate; intros _.
  - reflexivity.
  - now destruct s.
  - destruct s; rewrite Z.compare_refl;
      change (Pos.compare_cont Eq m m) with (Pos.compare m m);
      now rewrite Pos.compare_refl.
Qed.

(** On integers below [2^53], [===] is equality. *)
Lemma strict_equal_of_Z a b :
  safe a -> safe b -> strict_equal (of_Z a) (of_Z b) = (a =? b).
Proof.
  intros Ha Hb. destruct (Z.eqb_spec a b) as [-> | Hne].
  - apply strict_equal_refl, isNaN_of_Z.
  - destruct (strict_equal (of_Z a) (of_Z b)) eqn:E; [| reflexivity].
    apply strict_equal_to_Z in E. rewrite !to_Z_of_Z in E by assumption.
    congruence.
Qed.

Lemma truthy_of_Z n : safe n -> n <> 0 -> truthy (VNum (of_Z n)) = true.
Proof.
  intros Hs Hn. destruct (of_Z_finite n Hs Hn) as (m & e & -> & _).
  reflexivity.
Qed.

End TextFacts.
Import TextFacts.

Module TotalFacts.

Lemma sum_abs_sum_Z l : sum_abs l = sum_Z (map Z.abs l).
Proof. induction l; simpl; [reflexivity | now rewrite IHl]. Qed.

Lemma sum_Z_le (g h : string -> Z) ks :
  (forall k, g k <= h k) -> sum_Z (map g ks) <= sum_Z (map h ks).
Proof.
  intros H. induction ks as [| k ks IH]; simpl; [lia |].
  specialize (H k). lia.
Qed.

(** One row more adds its value to the group of its district. *)
Lemma sum_groups_step (F : string -> Z) k0 x ks :
  NoDup ks ->
  sum_Z (map (fun k => (if String.eqb k0 k then x else 0) + F k) ks)
  = (if existsb (String.eqb k0) ks then x else 0) + sum_Z (map F ks).
Proof.
  induction 1 as [| k ks Hk _ IH]; simpl; [reflexivity |].
  rewrite IH. destruct (String.eqb_spec k0 k) as [-> | Hne]; simpl; [| lia].
  replace (existsb (String.eqb k) ks) with false; [lia |].
  symmetry. apply not_true_is_false. intros E.
  apply existsb_exists in E as (k' & Hin & E).
  apply String.eqb_eq in E. now subst.
Qed.

(** The groups of distinct districts partition the rows having one of
    these districts. *)
Lemma sum_groups (h : NormalizedRecord -> Z) ks kept :
  NoDup ks ->
  sum_Z (map (fun k => sum_Z (map h (group_of k kept))) ks)
  = sum_Z (map h (filter (fun n => existsb (String.eqb (district_name n)) ks)
                         kept)).
Proof.
  intros Hnd. induction kept as [| n kept IH].
  - simpl. induction ks; simpl; [reflexivity |].
    inversion Hnd; subst. now rewrite IHks.
  - cbn [filter]. rewrite (map_ext
      (fun k => sum_Z (map h (group_of k (n :: kept))))
      (fun k => (if String.eqb (district_name n) k then h n else 0)
                + sum_Z (map h (group_of k kept)))).
    + rewrite sum_groups_step, IH by exact Hnd.
      destruct (existsb _ ks); simpl; lia.
    + intros k. unfold group_of. cbn [filter].
      destruct (String.eqb (district_name n) k); simpl; lia.
Qed.

Lemma filter_true {A} (l : list A) : filter (fun _ => true) l = l.
Proof. induction l; simpl; [reflexivity | now rewrite IHl]. Qed.

(** The visible filter is a filter on the district key. *)
Lemma apply_district_filter_key df l :
  apply_district_filter df l =
  filter (fun d => is_empty (toUpperCase (trim df))
                   || includes (district_name d) (toUpperCase (trim df))) l.
Proof.
  rewrite apply_district_filter_eq.
  destruct (is_empty _); simpl; [now rewrite filter_true | reflexivity].
Qed.

Lemma NoDup_map_filter {A B} (f : A -> B) (p : A -> bool) l :
  NoDup (map f l) -> NoDup (map f (filter p l)).
Proof.
  induction l as [| a l IH]; simpl; intros H; [constructor |].
  inversion H as [| ? ? Hn Hl]; subst.
  destruct (p a); simpl; [| now apply IH].
  constructor; [| now apply IH].
  intros Hin. apply Hn. apply in_map_iff in Hin as (b & Eb & Hb).
  apply filter_In in Hb as [Hb _]. apply in_map_iff. eauto.
Qed.

(** The sum of a measure over the aggregates of the districts selected
    by [q] is its exact total over the rows of these districts. *)
Lemma selected_total f q kept arr :
  In f measures -> exact_measure kept f ->
  Permutation arr
    (filter (fun d => q (district_name d))
            (Object_values (group_by_district kept))) ->
  total_of f arr
  = of_Z (integer_total f (filter (fun n => q (district_name n)) kept)).
Proof.
  intros Hf Hex HP. set (agg := Object_values (group_by_district kept)) in *.
  destruct (aggregates_of kept) as (Hnd & Hall & Hagg). fold agg in Hnd, Hall, Hagg.
  set (tz := fun n => to_Z (f n)).
  set (G := fun k => sum_Z (map tz (group_of k kept))).
  set (shown := filter (fun d => q (district_name d)) agg) in *.
  set (ks := map district_name shown).
  assert (Hks : NoDup ks) by (apply NoDup_map_filter, Hnd).
  (* every aggregate carries the exact total of its group *)
  assert (Hd : forall d, In d agg -> f d = of_Z (G (district_name d))).
  { intros d Hdin. destruct (Hagg d Hdin) as (first & rest & Hg & ->).
    rewrite district_name_fold in Hg |- *. unfold G.
    rewrite accumulate_exact; [| exact Hf |].
    - now rewrite Hg.
    - rewrite <- Hg. now apply exact_measure_filter. }
  assert (Hmap : map f arr
                 = map of_Z (map (fun d => G (district_name d)) arr)).
  { rewrite map_map. apply map_ext_in. intros d Hdin. apply Hd.
    apply (Permutation_in _ HP) in Hdin. now apply filter_In in Hdin. }
  (* the rows of the selected districts *)
  assert (Hsel : filter (fun n => existsb (String.eqb (district_name n)) ks)
                        kept
                 = filter (fun n => q (district_name n)) kept).
  { apply filter_ext_in. intros n Hn.
    destruct (q (district_name n)) eqn:Eq.
    - apply existsb_exists. exists (district_name n).
      split; [| apply String.eqb_refl].
      destruct (Hall n Hn) as (d & Hdin & Hk).
      unfold ks. apply in_map_iff. exists d. split; [exact Hk |].
      apply filter_In. split; [exact Hdin | now rewrite Hk].
    - apply not_true_is_false. intros E.
      apply existsb_exists in E as (k & Hin & E).
      apply String.eqb_eq in E. subst k.
      unfold ks in Hin. apply in_map_iff in Hin as (d & Hk & Hdin).
      apply filter_In in Hdin as [_ Hq]. rewrite Hk in Hq. congruence. }
  assert (Hsum : forall h : NormalizedRecord -> Z,
             sum_Z (map (fun d => sum_Z (map h (group_of (district_name d)
                                                         kept))) arr)
             = sum_Z (map h (filter (fun n => q (district_name n)) kept))).
  { intros h.
    rewrite (sum_Z_Permutation _ _ (Permutation_map _ HP)).
    rewrite <- Hsel, <- (sum_groups h ks kept Hks).
    unfold ks. now rewrite map_map. }
  unfold total_of. rewrite Hmap.
  change zero with (of_Z 0). rewrite fold_add_exact.
  - unfold integer_total. fold tz. rewrite Z.add_0_l. f_equal.
    apply (Hsum tz).
  - destruct Hex as [_ Hb].
    rewrite sum_abs_sum_Z, map_map.
    assert (H1 : sum_Z (map (fun d => Z.abs (G (district_name d))) arr)
                 <= sum_Z (map (fun d =>
                      sum_Z (map (fun n => Z.abs (tz n))
                                 (group_of (district_name d) kept))) arr)).
    { clear. induction arr as [| d arr IH]; simpl; [lia |].
      pose proof (sum_Z_abs (map tz (group_of (district_name d) kept))) as H.
      rewrite sum_abs_sum_Z, map_map in H.
      apply Z.add_le_mono; [exact H | exact IH]. }
    rewrite (Hsum (fun n => Z.abs (tz n))) in H1.
    pose proof (sum_abs_filter tz (fun n => q (district_name n)) kept) as H2.
    rewrite !sum_abs_sum_Z, !map_map in H2.
    fold tz in Hb. rewrite sum_abs_sum_Z, map_map in Hb.
    simpl. lia.
Qed.

End TotalFacts.
Import TotalFacts.

Module HandlerFacts.

Lemma length_string_of_list l :
  String.length (string_of_list_ascii l) = List.length l.
Proof. induction l; simpl; [reflexivity | now rewrite IHl]. Qed.

Lemma length_list_of_string s :
  List.length (list_ascii_of_string s) = String.length s.
Proof. induction s; simpl; [reflexivity | now rewrite IHs]. Qed.

Lemma remove_words_length words l : forall skip,
  (List.length (remove_words words skip l) <= List.length l)%nat.
Proof.
  induction l as [| c l IH]; intros skip; simpl; [lia |].
  destruct skip as [| k].
  - destruct (first_match words (c :: l)).
    + specialize (IH (List.length l0 - 1)%nat). lia.
    + specialize (IH 0%nat). simpl. lia.
  - specialize (IH k). lia.
Qed.

Lemma replace_words_length words s :
  (String.length (replace_words words s) <= String.length s)%nat.
Proof.
  unfold replace_words. rewrite length_string_of_list.
  rewrite <- (length_list_of_string s). apply remove_words_length.
Qed.

Lemma clean_district_length s :
  (String.length (clean_district s) <= String.length s)%nat.
Proof.
  unfold clean_district, toUpperCase, trim.
  rewrite length_string_of_list, length_map.
  rewrite list_ascii_of_string_of_list_ascii.
  pose proof (trim_chars_length
                (list_ascii_of_string
                   (replace_words
                      ["north"; "south"; "east"; "west"; "division"]
                      (replace_words ["district"] s)))) as H1.
  rewrite length_list_of_string in H1.
  pose proof (replace_words_length
                ["north"; "south"; "east"; "west"; "division"]
                (replace_words ["district"] s)).
  pose proof (replace_words_length ["district"] s).
  lia.
Qed.

(** Matching ignores the letter case of the text. *)
Lemma starts_with_upper w : forall l,
  starts_with w (map upper_char l) = starts_with w l.
Proof.
  induction w as [| a w IH]; intros [| c l]; simpl; try reflexivity.
  now rewrite upper_char_idem, IH.
Qed.

Lemma first_match_upper words l :
  first_match words (map upper_char l) = first_match words l.
Proof.
  induction words as [| w ws IH]; simpl; [reflexivity |].
  now rewrite starts_with_upper, IH.
Qed.

Lemma remove_words_upper words l : forall skip,
  remove_words words skip (map upper_char l)
  = map upper_char (remove_words words skip l).
Proof.
  induction l as [| c l IH]; intros skip; [reflexivity |].
  cbn [map remove_words]. destruct skip as [| k]; [| apply IH].
  change (upper_char c :: map upper_char l) with (map upper_char (c :: l)).
  rewrite first_match_upper.
  destruct (first_match words (c :: l)); [apply IH |].
  cbn [map]. now rewrite IH.
Qed.

Lemma replace_words_upper words s :
  replace_words words (toUpperCase s) = toUpperCase (replace_words words s).
Proof.
  unfold replace_words, toUpperCase.
  now rewrite !list_ascii_of_string_of_list_ascii, remove_words_upper.
Qed.

Lemma clean_district_upper s :
  clean_district (toUpperCase s) = clean_district s.
Proof.
  unfold clean_district.
  now rewrite !replace_words_upper, trim_toUpperCase, toUpperCase_idem.
Qed.

Lemma clean_district_trimmed s : trim (clean_district s) = clean_district s.
Proof.
  unfold clean_district. now rewrite trim_toUpperCase, trim_idem.
Qed.

Lemma clean_district_fixed s :
  toUpperCase (clean_district s) = clean_district s.
Proof. unfold clean_district. apply toUpperCase_idem. Qed.

(** *** What a cycle does *)

Lemma fetchData_from_run net opts c s :
  fetchData_from net opts c s =
  match fetchData_try net opts c (snd (setLoading true s)) with
  | (Ok _, s2) => (Ok tt, snd (setLoading false s2))
  | (Throw e, s2) => (Ok tt, snd (setLoading false (add_log (Error e) s2)))
  end.
Proof.
  unfold fetchData_from, bindM, try_finally, try_catch.
  cbn [setLoading snd].
  destruct (fetchData_try net opts c _) as [[[] | e] s2]; reflexivity.
Qed.

Lemma fetchData_from_self net opts s :
  fetchData net opts s = fetchData_from net opts s s.
Proof. reflexivity. Qed.

Lemma fetch_rows_requests net st dov y s :
  requests (snd (fetch_rows net st dov y s))
  = requests s ++ map (year_query st dov) (years_requested y).
Proof.
  unfold years_requested. destruct (String.eqb y "All") eqn:Ey.
  - apply String.eqb_eq in Ey. subst y. rewrite fetch_rows_all. cbn [snd].
    apply after_years_fields.
  - rewrite fetch_rows_single by exact Ey. reflexivity.
Qed.

Lemma fetch_rows_outcome net st dov y s t :
  fst (fetch_rows net st dov y s) = fst (fetch_rows net st dov y t).
Proof.
  destruct (uniform_fetch_rows net st dov y) as (r & e & H).
  now rewrite !H.
Qed.

Lemma publish_requests st df allRows s :
  requests (snd (publish st df allRows s)) = requests s.
Proof.
  rewrite publish_run.
  destruct (final_array st df allRows) as [arr |]; [| reflexivity].
  destruct (compute_insights arr); reflexivity.
Qed.

(** A cycle asks for the years of its mode with the district it was
    given, keeps year, state name and district filter, and on success
    displays the rows filtered by the district filter of its render. *)
Lemma cycle_run net opts c s :
  let st := stateName c in
  let dov := option_or (districtOverride opts) (districtFilter c) in
  let y := option_or (yearOverride opts) (year c) in
  let s' := snd (fetchData_from net opts c s) in
  fst (fetchData_from net opts c s) = Ok tt /\
  loading s' = false /\
  (year s' = year s /\ stateName s' = stateName s /\
   districtFilter s' = districtFilter s) /\
  requests s' = requests s ++ map (year_query st dov) (years_requested y) /\
  (forall t allRows arr,
     fst (fetch_rows net st dov y t) = Ok allRows ->
     final_array st (districtFilter c) allRows = Ok arr ->
     data s' = arr /\ rawRecords s' = allRows).
Proof.
  intros st dov y s'.
  assert (Hframe : year s' = year s /\ stateName s' = stateName s /\
                   districtFilter s' = districtFilter s).
  { destruct (uniform_cycle net opts c) as (r & e & H).
    subst s'. unfold fetchData_from. now rewrite H. }
  subst s'. rewrite fetchData_from_run. unfold fetchData_try.
  fold st dov y. rewrite try_block_run.
  set (s0 := snd (setLoading true s)).
  pose proof (fetch_rows_requests net st dov y s0) as Hreq.
  assert (Hfst : forall t, fst (fetch_rows net st dov y t)
                           = fst (fetch_rows net st dov y s0))
    by (intros t; apply fetch_rows_outcome).
  rewrite fetchData_from_run in Hframe. unfold fetchData_try in Hframe.
  fold st dov y s0 in Hframe. rewrite try_block_run in Hframe.
  destruct (fetch_rows net st dov y s0) as [[allRows | e] s1];
    cbn [fst snd] in *.
  - pose proof (publish_requests st (districtFilter c) allRows s1) as Hp.
    rewrite publish_run in Hp, Hframe |- *.
    destruct (final_array st (districtFilter c) allRows) as [arr |] eqn:Ea.
    + rewrite compute_insights_eq in Hp, Hframe |- *. cbn in *.
      repeat split; try tauto;
        rewrite Hfst in H; injection H as <-; congruence.
    + cbn in *.
      repeat split; try tauto;
        rewrite Hfst in H; injection H as <-; congruence.
  - cbn in *.
    repeat split; try tauto; rewrite Hfst in H; discriminate.
Qed.

End HandlerFacts.
Import HandlerFacts.

Module BodyFacts.

Lemma truthy_or_else a b : truthy b = true -> truthy (or_else a b) = true.
Proof. unfold or_else. now destruct (truthy a) eqn:E. Qed.

Lemma read_body_truthy res rows :
  read_body res = Ok rows -> truthy rows = true.
Proof.
  destruct res as [| ok status [json |]]; simpl; try discriminate;
    destruct ok; simpl; try discriminate.
  destruct (get_opt json "data") as [d |]; simpl; [| discriminate].
  intros H. injection H as <-. now apply truthy_or_else.
Qed.

Lemma push_rows_cases acc rows :
  truthy rows = true ->
  match rows with
  | VObj fs =>
      match lookup "length" fs with
      | Some len =>
          push_rows acc rows
          = if truthy len then Throw TypeError else Ok acc
      | None => push_rows acc rows = Ok acc
      end
  | _ => exists items, push_rows acc rows = Ok (acc ++ items)
  end.
Proof.
  intros Ht. unfold push_rows. rewrite Ht.
  destruct rows as [| | b | n | s | xs | fs]; try discriminate.
  - exists []. now rewrite app_nil_r.
  - exists []. now rewrite app_nil_r.
  - cbn [get bind]. change (String.eqb "length" "length") with true.
    cbv iota. cbn [spread bind].
    destruct (truthy (VNum _)); eexists; [reflexivity |].
    now rewrite app_nil_r.
  - cbn [get bind]. change (String.eqb "length" "length") with true.
    cbv iota. cbn [spread bind].
    destruct (truthy (VNum _)); eexists; [reflexivity |].
    now rewrite app_nil_r.
  - cbn [get bind]. destruct (lookup "length" fs) as [len |].
    + now destruct (truthy len).
    + reflexivity.
Qed.

Lemma console_after_year net st dov y s :
  console (after_year net st dov y s)
  = console s ++ year_warning net st dov y.
Proof.
  unfold after_year, year_warning.
  destruct (let* rows := read_body _ in push_rows [] rows); cbn;
    [now rewrite app_nil_r | reflexivity].
Qed.

Lemma console_after_years net st dov ys : forall s,
  console (fold_left (fun s y => after_year net st dov y s) ys s)
  = console s ++ flat_map (year_warning net st dov) ys.
Proof.
  induction ys as [| y ys IH]; intros s; cbn [fold_left flat_map].
  - now rewrite app_nil_r.
  - now rewrite IH, console_after_year, app_assoc.
Qed.

(** Fetching the rows only adds to the two traces. *)
Lemma fetch_rows_fields net st dov y s :
  let s1 := snd (fetch_rows net st dov y s) in
  data s1 = data s /\ insights s1 = insights s /\
  rawRecords s1 = rawRecords s /\ loading s1 = loading s /\
  exists lines, console s1 = console s ++ lines.
Proof.
  destruct (String.eqb y "All") eqn:Ey.
  - apply String.eqb_eq in Ey. subst y. rewrite fetch_rows_all. cbn [snd].
    destruct (after_years_fields net st dov seven_years s)
      as (_ & H2 & H3 & H4 & H5).
    cbv zeta. rewrite console_after_years.
    do 4 (split; [assumption |]). eexists. reflexivity.
  - rewrite fetch_rows_single by exact Ey. cbn.
    do 4 (split; [reflexivity |]). exists []. now rewrite app_nil_r.
Qed.

Lemma mapM_throws {A B} (f : A -> result B) l a e :
  In a l -> f a = Throw e -> exists e', mapM f l = Throw e'.
Proof.
  induction l as [| x l IH]; intros Hin Hf; [destruct Hin |].
  cbn [mapM]. destruct Hin as [-> | Hin].
  - rewrite Hf. cbn [bind]. eauto.
  - destruct (f x); cbn [bind]; [| eauto].
    destruct (IH Hin Hf) as (e' & ->). cbn [bind]. eauto.
Qed.

End BodyFacts.
Import BodyFacts.

Module ListingFacts.

Lemma existsb_lookup {A} k (o : list (string * A)) :
  existsb (String.eqb k) (map fst o)
  = match lookup k o with Some _ => true | None => false end.
Proof.
  induction o as [| [k0 a] o IH]; simpl; [reflexivity |].
  rewrite String.eqb_sym. destruct (String.eqb k0 k); [reflexivity | exact IH].
Qed.

Lemma keys_of_group_step acc cur :
  map fst (group_step acc cur)
  = if existsb (String.eqb (district_name cur)) (map fst acc)
    then map fst acc else map fst acc ++ [district_name cur].
Proof.
  unfold group_step. rewrite existsb_lookup.
  destruct (lookup (district_name cur) acc).
  - apply keys_update.
  - now rewrite map_app.
Qed.

Lemma keys_of_fold l : forall acc,
  map fst (fold_left group_step l acc)
  = fold_left
      (fun ks n =>
         if existsb (String.eqb (district_name n)) ks then ks
         else ks ++ [district_name n])
      l (map fst acc).
Proof.
  induction l as [| n l IH]; intros acc; simpl; [reflexivity |].
  now rewrite IH, keys_of_group_step.
Qed.

Lemma keys_of_groups l : map fst (group_by_district l) = first_keys l.
Proof. unfold group_by_district, first_keys. now rewrite keys_of_fold. Qed.

Lemma named_entries_filter {A} (o : list (string * A)) :
  named_entries o = map snd (filter (fun kv => negb (is_index (fst kv))) o).
Proof.
  induction o as [| [k a] o IH]; simpl; [reflexivity |].
  unfold is_index at 1. simpl.
  destruct (array_index k); simpl; now rewrite IH.
Qed.

Lemma insert_index_perm_entries {A} i (a : A) l :
  Permutation (insert_index i a l) ((i, a) :: l).
Proof.
  induction l as [| [j b] l IH]; simpl; [reflexivity |].
  destruct (i <? j); [reflexivity |].
  rewrite IH. apply perm_swap.
Qed.

Lemma index_entries_perm {A} (o : list (string * A)) :
  Permutation (index_entries o)
    (map (fun kv => (index_of (fst kv), snd kv))
         (filter (fun kv => is_index (fst kv)) o)).
Proof.
  induction o as [| [k a] o IH]; simpl; [reflexivity |].
  unfold is_index at 1, index_of at 1. simpl.
  destruct (array_index k) as [i |] eqn:Ei; simpl; [| exact IH].
  rewrite insert_index_perm_entries. unfold index_of. simpl. rewrite Ei.
  now constructor.
Qed.

Lemma insert_index_sorted {A} i (a : A) l :
  Sorted Z.le (map fst l) -> Sorted Z.le (map fst (insert_index i a l)).
Proof.
  induction l as [| [j b] l IH]; simpl; intros H.
  - repeat constructor.
  - destruct (Z.ltb_spec i j) as [Hlt | Hge]; simpl.
    + constructor; [exact H |]. constructor. lia.
    + inversion H as [| ? ? Hs Hhd]; subst.
      constructor; [now apply IH |].
      destruct l as [| [j' b'] l]; simpl.
      * constructor. exact Hge.
      * destruct (i <? j'); simpl; constructor; [exact Hge |].
        now inversion Hhd.
Qed.

Lemma index_entries_sorted {A} (o : list (string * A)) :
  Sorted Z.le (map fst (index_entries o)).
Proof.
  induction o as [| [k a] o IH]; simpl; [constructor |].
  destruct (array_index k); [now apply insert_index_sorted | exact IH].
Qed.

Lemma filter_map_fst {A} (p : string -> bool) (o : list (string * A)) :
  map fst (filter (fun kv => p (fst kv)) o) = filter p (map fst o).
Proof.
  induction o as [| [k a] o IH]; simpl; [reflexivity |].
  destruct (p k); simpl; now rewrite IH.
Qed.

(** The entries of the groups are stored under their own key. *)
Lemma groups_keyed l :
  Forall (fun kv => district_name (snd kv) = fst kv) (group_by_district l).
Proof.
  apply Forall_forall. intros [k d] H. now apply (grouped_key l).
Qed.

Lemma keyed_names (o : list (string * NormalizedRecord)) :
  Forall (fun kv => district_name (snd kv) = fst kv) o ->
  map district_name (map snd o) = map fst o.
Proof.
  induction 1 as [| [k d] o Hk _ IH]; simpl; [reflexivity |].
  simpl in Hk. now rewrite Hk, IH.
Qed.

Lemma Forall_filter {A} (P : A -> Prop) p l :
  Forall P l -> Forall P (filter p l).
Proof.
  intros H. apply Forall_forall. intros a Ha.
  apply filter_In in Ha as [Ha _]. rewrite Forall_forall in H. now apply H.
Qed.

Lemma filter_all_false {A} (p : A -> bool) l :
  Forall (fun a => p a = false) l -> filter p l = [].
Proof.
  induction 1 as [| a l Ha _ IH]; simpl; [reflexivity |]. now rewrite Ha.
Qed.

Lemma filter_all_true {A} (p : A -> bool) l :
  Forall (fun a => p a = true) l -> filter p l = l.
Proof.
  induction 1 as [| a l Ha _ IH]; simpl; [reflexivity |].
  now rewrite Ha, IH.
Qed.

(** In a sorted array every aggregate of a prefix has a total at least
    as large as every aggregate after the prefix. *)
Lemma Sorted_prefix l1 : forall l2,
  Sorted ge_total (l1 ++ l2) -> Forall comparable (l1 ++ l2) ->
  forall d d', In d l1 -> In d' l2 -> ge_total d d'.
Proof.
  induction l1 as [| a l1 IH]; intros l2 Hs Hc d d' Hd Hd'; [destruct Hd |].
  destruct Hd as [<- | Hd].
  - apply (Sorted_first (l1 ++ l2) a Hs Hc). right.
    apply in_or_app. now right.
  - simpl in Hs, Hc. inversion Hs; subst. inversion Hc; subst.
    now apply (IH l2).
Qed.

End ListingFacts.
Import ListingFacts.

Module LabelFacts.

Lemma normalize_labels st r n :
  normalize st r = Ok n ->
  exists sn fy mo,
    get r "state_name" = Ok sn /\ get r "fin_year" = Ok fy /\
    get r "month" = Ok mo /\
    state_name n = or_else sn (VStr st) /\
    fin_year n = or_else fy (VStr "—") /\
    month n = or_else mo (VStr "—").
Proof.
  unfold normalize. intros H.
  destruct (district_raw r) as [raw |]; cbn [bind] in H; [| discriminate].
  destruct (ToString raw) as [text |]; cbn [bind] in H; [| discriminate].
  destruct (get r "state_name") as [sn |]; cbn [bind] in H; [| discriminate].
  destruct (get r "fin_year") as [fy |]; cbn [bind] in H; [| discriminate].
  destruct (get r "month") as [mo |]; cbn [bind] in H; [| discriminate].
  exists sn, fy, mo.
  repeat match type of H with
         | bind ?c _ = _ => destruct c; cbn [bind] in H; [| discriminate]
         end.
  injection H as <-. cbn. auto 10.
Qed.

Lemma described_by_fold rest : forall first,
  described_by first (fold_left accumulate rest first).
Proof.
  induction rest as [| c rest IH]; intros first; cbn [fold_left].
  - repeat split.
  - destruct (IH (accumulate first c)) as (H1 & H2 & H3 & H4 & H5).
    repeat split; assumption.
Qed.

Lemma truthy_or_default a s :
  is_empty s = false -> truthy (or_else a (VStr s)) = true.
Proof.
  intros H. apply truthy_or_else. cbn. now rewrite H.
Qed.

End LabelFacts.
Import LabelFacts.

(* ===================================================================== *)
(** * The claims of the specification *)
(* ===================================================================== *)

(** C1.  Aggregation groups rows by the trimmed and upper-cased district
    name, drops the rows whose trimmed district name is empty, and sums
    the seven measures per group.

    - Rows that are raw records always normalise.
    - Whenever the rows normalise, each normalised row carries the
      trimmed text of [district_name || District || ""] as display name
      and its upper-cased form as key, and each of its seven measures is
      [toNumber] of the property of that name of its raw row; the
      aggregates have pairwise distinct keys, every kept row (non-empty
      trimmed name) has its aggregate, and every aggregate is the first
      row of its district with the later rows of the district
      accumulated into it, so that each of the seven measures is the
      sum, in input order, of the measure over the rows of the district.
    - The rows [{district_name:"Chennai", Total_Exp:"1,000"},
      {district_name:"chennai", Total_Exp:"500"}] give exactly one
      aggregate, with key ["CHENNAI"] and [Total_Exp = 1500]. *)
Theorem aggregation_groups_by_district :
  (forall st rows, Forall raw_record rows ->
     exists norm, mapM (normalize st) rows = Ok norm) /\
  (forall st rows norm,
     mapM (normalize st) rows = Ok norm ->
     let kept := filter (fun n => negb (is_empty (district_display n))) norm in
     Forall2 (fun r n =>
                exists raw text,
                  district_raw r = Ok raw /\ ToString raw = Ok text /\
                  district_display n = trim text /\
                  district_name n = toUpperCase (trim text) /\
                  Forall (read_from r n) measure_fields) rows norm /\
     map snd measure_fields = measures /\
     exists agg,
       aggregate st rows = Ok agg /\
       NoDup (map district_name agg) /\
       (forall n, In n kept ->
          exists d, In d agg /\ district_name d = district_name n) /\
       (forall d, In d agg ->
          exists first rest,
            group_of (district_name d) kept = first :: rest /\
            d = fold_left accumulate rest first /\
            Forall (fun f => f d = fold_left add (map f rest) (f first))
                   measures)) /\
  (forall st, exists d,
     aggregate st chennai_rows = Ok [d] /\
     district_name d = "CHENNAI" /\ Total_Exp d = of_Z 1500).
Proof.
  split; [| split].
  - intros st rows H. apply mapM_total.
    eapply Forall_impl; [| exact H]. intros r. apply normalize_raw_record.
  - intros st rows norm H kept. split.
    + eapply Forall2_impl; [| exact (mapM_Forall2 _ _ _ H)].
      intros r n Hn.
      destruct (normalize_district _ _ _ Hn) as (raw & text & H1 & H2 & H3 & H4).
      exists raw, text. repeat (split; [assumption |]).
      now apply (normalize_measures st).
    + split; [reflexivity |].
      eexists. split; [exact (aggregate_eq _ _ _ H) |]. fold kept.
      destruct (aggregates_of kept) as (Hnd & Hall & Hagg).
      split; [exact Hnd | split; [exact Hall |]].
      intros d Hd. destruct (Hagg d Hd) as (first & rest & Hg & ->).
      exists first, rest. split; [exact Hg | split; [reflexivity |]].
      apply Forall_forall. intros f Hf. now apply measure_fold.
  - intros st. eexists. split; [vm_compute; reflexivity |].
    split; vm_compute; reflexivity.
Qed.

Lemma aggregation_groups_by_district_witness :
  Forall raw_record chennai_rows /\
  mapM (normalize "TAMIL NADU") chennai_rows = Ok chennai_norm /\
  (exists norm, mapM (normalize "TAMIL NADU") chennai_rows = Ok norm) /\
  Forall2 (fun r n => Forall (read_from r n) measure_fields)
          chennai_rows chennai_norm /\
  exists agg,
    aggregate "TAMIL NADU" chennai_rows = Ok agg /\
    NoDup (map district_name agg).
Proof.
  assert (Hr : Forall raw_record chennai_rows).
  { repeat constructor; eexists; (split; [reflexivity |]);
      repeat constructor. }
  assert (H : mapM (normalize "TAMIL NADU") chennai_rows = Ok chennai_norm)
    by (vm_compute; reflexivity).
  split; [exact Hr | split; [exact H | split; [| split]]].
  - exact (proj1 aggregation_groups_by_district "TAMIL NADU" _ Hr).
  - destruct (proj1 (proj2 aggregation_groups_by_district) _ _ _ H)
      as (Hl & _).
    eapply Forall2_impl; [| exact Hl].
    intros r n (raw & text & _ & _ & _ & _ & Hm). exact Hm.
  - destruct (proj1 (proj2 aggregation_groups_by_district) _ _ _ H)
      as (_ & _ & agg & Ha & Hnd & _).
    exists agg. split; assumption.
Defined.

(** C2.  In all-years mode:
    - the fetcher issues one request per year of the seven-year list, in
      order, never throws, and returns the concatenation in that order
      of the rows of each year; it touches neither the displayed data
      nor the insights;
    - a year whose request fails contributes no rows, a year answered by
      an array contributes that array;
    - when every year fails the result is empty;
    - when one year fails and the other six are answered by arrays, the
      result is the concatenation of those six arrays;
    - the data displayed after the cycle is the aggregation of exactly
      these rows. *)
Theorem all_years_fetch_isolates_failures :
  (forall net st dov s,
     exists s',
       fetch_rows net st dov "All" s
       = (Ok (List.concat (map (year_rows net st dov) seven_years)), s') /\
       requests s' = requests s ++ map (year_query st dov) seven_years /\
       data s' = data s /\ insights s' = insights s) /\
  (forall net st dov y,
     (forall e, read_body (net (year_query st dov y)) = Throw e ->
                year_rows net st dov y = []) /\
     (forall rows, read_body (net (year_query st dov y)) = Ok (VArr rows) ->
                   year_rows net st dov y = rows)) /\
  (forall net st dov,
     (forall y, In y seven_years ->
        exists e, read_body (net (year_query st dov y)) = Throw e) ->
     List.concat (map (year_rows net st dov) seven_years) = []) /\
  (forall net st dov bad e rows_of,
     read_body (net (year_query st dov bad)) = Throw e ->
     (forall y, In y seven_years -> y <> bad ->
        read_body (net (year_query st dov y)) = Ok (VArr (rows_of y))) ->
     List.concat (map (year_rows net st dov) seven_years)
     = List.concat
         (map rows_of
            (filter (fun y => negb (String.eqb y bad)) seven_years))) /\
  (forall net opts s arr,
     let rows :=
       List.concat
         (map (year_rows net (stateName s)
                 (option_or (districtOverride opts) (districtFilter s)))
              seven_years) in
     option_or (yearOverride opts) (year s) = "All" ->
     final_array (stateName s) (districtFilter s) rows = Ok arr ->
     data (snd (fetchData net opts s)) = arr /\
     rawRecords (snd (fetchData net opts s)) = rows).
Proof.
  split; [| split; [| split; [| split]]].
  - intros net st dov s. eexists. split; [apply fetch_rows_all |].
    destruct (after_years_fields net st dov seven_years s)
      as (H1 & H2 & H3 & _).
    auto.
  - intros net st dov y. split.
    + intros e. apply year_rows_failed.
    + intros rows. apply year_rows_array.
  - intros net st dov Hall.
    assert (H : forall ys, (forall y, In y ys -> In y seven_years) ->
                List.concat (map (year_rows net st dov) ys) = []).
    { induction ys as [| y ys IH]; intros Hin; [reflexivity |].
      cbn [map List.concat].
      destruct (Hall y (Hin y (or_introl eq_refl))) as [e He].
      rewrite (year_rows_failed _ _ _ _ _ He), IH; [reflexivity |].
      intros z Hz. apply Hin. now right. }
    apply H. auto.
  - intros net st dov bad e rows_of Hbad Hok.
    apply concat_failed.
    + intros y Hy Hne. apply year_rows_array. now apply Hok.
    + now apply (year_rows_failed _ _ _ _ e).
  - intros net opts s arr rows Hall Harr.
    rewrite fetchData_run. unfold fetchData_try.
    rewrite try_block_run, Hall, fetch_rows_all. fold rows.
    rewrite publish_run, Harr, compute_insights_eq. cbn. auto.
Qed.

Lemma all_years_fetch_isolates_failures_witness :
  read_body (sample_network (year_query "TAMIL NADU" "" "2023-2024"))
  = Throw (HttpError 500) /\
  year_rows sample_network "TAMIL NADU" "" "2023-2024" = [] /\
  List.concat (map (year_rows sample_network "TAMIL NADU" "") seven_years)
  = List.concat
      (map (fun _ => chennai_rows)
         (filter (fun y => negb (String.eqb y "2023-2024")) seven_years)) /\
  option_or (yearOverride no_options) (year initial_state) = "All" /\
  final_array "TAMIL NADU" ""
    (List.concat (map (year_rows sample_network "TAMIL NADU" "") seven_years))
  = Ok sample_all_years /\
  data (snd (fetchData sample_network no_options initial_state))
  = sample_all_years.
Proof.
  assert (Hbad : read_body (sample_network
                              (year_query "TAMIL NADU" "" "2023-2024"))
                 = Throw (HttpError 500)) by reflexivity.
  assert (Hall : final_array "TAMIL NADU" ""
                   (List.concat
                      (map (year_rows sample_network "TAMIL NADU" "")
                         seven_years))
                 = Ok sample_all_years) by (vm_compute; reflexivity).
  split; [exact Hbad | split; [| split; [| split; [reflexivity | split]]]].
  - exact (proj1 (proj1 (proj2 all_years_fetch_isolates_failures)
                    sample_network "TAMIL NADU" "" "2023-2024") _ Hbad).
  - apply (proj1 (proj2 (proj2 (proj2 all_years_fetch_isolates_failures)))
             sample_network "TAMIL NADU" "" "2023-2024" (HttpError 500)
             (fun _ => chennai_rows) Hbad).
    intros y Hin Hne. simpl in Hin.
    repeat (destruct Hin as [<- | Hin]; [try reflexivity; congruence |]).
    destruct Hin.
  - exact Hall.
  - exact (proj1 (proj2 (proj2 (proj2 (proj2
             all_years_fetch_isolates_failures)))
             sample_network no_options initial_state sample_all_years
             eq_refl Hall)).
Defined.

(** C3.  [toNumber] hands the number NaN on.  The test on [typeof]
    returns a number before the last line, which replaces by 0 the NaN of
    a text that does not convert, can apply.  The insight sums meet such
    a number: the rows of one district with the expenditures ["Infinity"]
    and ["-Infinity"] aggregate to a NaN total, [toNumber] returns it, and
    [totalExpenditure] is NaN in whatever order the aggregates are
    summed.  (An object with an own [toString] property, which has no
    text, makes [toNumber] throw.) *)
Theorem toNumber_returns_NaN :
  toNumber (VNum NaN) = Ok NaN /\
  toNumber (VStr "NaN") = Ok zero /\
  toNumber (VObj [("toString", VNum (of_Z 1))]) = Throw TypeError /\
  exists agg d,
    aggregate "TAMIL NADU" infinite_rows = Ok agg /\
    In d agg /\ toNumber (VNum (Total_Exp d)) = Ok NaN /\
    forall arr, Permutation arr agg ->
      exists i, compute_insights arr = Ok i /\ totalExpenditure i = NaN.
Proof.
  split; [reflexivity | split; [vm_compute; reflexivity |]].
  split; [reflexivity |].
  destruct (aggregate "TAMIL NADU" infinite_rows) as [agg |] eqn:E;
    [| vm_compute in E; discriminate].
  vm_compute in E. injection E as <-.
  eexists. eexists. split; [reflexivity |].
  split; [left; reflexivity | split; [reflexivity |]].
  intros arr HP. eexists. split; [apply compute_insights_eq |].
  cbn [totalExpenditure]. unfold total_of.
  apply fold_add_NaN, in_map_iff.
  eexists. split; [| apply (Permutation_in _ (Permutation_sym HP));
                     left; reflexivity].
  reflexivity.
Qed.

(** C4, amended.  The aggregates handed to [setData] are sorted by total
    expenditure in descending order, [arr[i].Total_Exp >=
    arr[i+1].Total_Exp] at every adjacent pair of indices, provided no
    total is NaN (the numbers of the input rows being binary64
    values). *)
Theorem final_array_descending :
  forall st df rows arr,
    final_array st df rows = Ok arr ->
    Forall (fun r => well_formed r = true) rows ->
    Forall (fun d => isNaN (Total_Exp d) = false) arr ->
    descending arr.
Proof.
  intros st df rows arr H Hw Hn. unfold final_array in H.
  destruct (aggregate st rows) as [agg |] eqn:Ea; cbn [bind] in H;
    [| discriminate].
  injection H as <-.
  pose proof (aggregate_valid _ _ _ Hw Ea) as Hv.
  apply Sorted_descending, Array_sort_sorted.
  apply Forall_forall. intros d Hd. split.
  - rewrite Forall_forall in Hv. apply Hv.
    unfold apply_district_filter in Hd.
    destruct (negb (is_empty df) && negb (is_empty (trim df)));
      [now apply filter_In in Hd | exact Hd].
  - rewrite Forall_forall in Hn. apply Hn.
    now apply (Permutation_in _ (Permutation_sym (Array_sort_perm _ _))).
Qed.

Lemma final_array_descending_witness :
  final_array "TAMIL NADU" "" sample_rows = Ok sample_final /\
  Forall (fun r => well_formed r = true) sample_rows /\
  Forall (fun d => isNaN (Total_Exp d) = false) sample_final /\
  descending sample_final.
Proof.
  assert (H : final_array "TAMIL NADU" "" sample_rows = Ok sample_final)
    by (vm_compute; reflexivity).
  assert (Hw : Forall (fun r => well_formed r = true) sample_rows)
    by (repeat constructor).
  assert (Hn : Forall (fun d => isNaN (Total_Exp d) = false) sample_final)
    by (vm_compute; repeat constructor).
  split; [exact H | split; [exact Hw | split; [exact Hn |]]].
  exact (final_array_descending _ _ _ _ H Hw Hn).
Defined.

(** C4 as stated fails when a total is NaN: the expenditures
    ["Infinity"] and ["-Infinity"] of one district add up to NaN, which
    [>=] relates to no number. *)
Lemma final_array_not_descending :
  ~ (forall st df rows arr,
       final_array st df rows = Ok arr -> arr <> [] -> descending arr).
Proof.
  intros H.
  destruct (final_array "TAMIL NADU" "" infinite_rows) as [arr |] eqn:E;
    [| vm_compute in E; discriminate].
  specialize (H _ _ _ _ E). vm_compute in E. inversion E; subst arr.
  specialize (H ltac:(discriminate) 0%nat _ _ eq_refl eq_refl).
  vm_compute in H. discriminate H.
Qed.

(** C5.  For every sequence of aggregates the insight computation
    succeeds; [totalHouseholds] is the sum of the households-worked
    measure over the aggregates, [topDistrict] is the display name of
    the first aggregate and [lowDistrict] that of the last one, both
    being ["N/A"] when the sequence is empty.  In a cycle the sequence
    is the expenditure-sorted array handed to [setData]. *)
Theorem insights_totals_and_extremes :
  (forall arr, exists i,
     compute_insights arr = Ok i /\
     totalHouseholds i = total_of Total_Households_Worked arr /\
     topDistrict i = hd "N/A" (map district_display arr) /\
     lowDistrict i = last (map district_display arr) "N/A" /\
     (arr = [] -> topDistrict i = "N/A" /\ lowDistrict i = "N/A")) /\
  (forall net opts s s2,
     fetchData_try net opts s (snd (setLoading true s)) = (Ok tt, s2) ->
     compute_insights (data s2) = Ok (insights s2) /\
     exists allRows,
       final_array (stateName s) (districtFilter s) allRows = Ok (data s2)).
Proof.
  split.
  - intros arr. eexists. split; [apply compute_insights_eq |].
    cbn [totalHouseholds topDistrict lowDistrict].
    do 3 (split; [reflexivity |]). intros ->. split; reflexivity.
  - intros net opts s s2 H. unfold fetchData_try in H.
    rewrite try_block_run in H.
    destruct (fetch_rows _ _ _ _ _) as [[allRows | e] s1]; [| discriminate].
    apply publish_insights in H as (arr & Ha & Hd & _ & Hi).
    subst arr. split; [exact Hi | now exists allRows].
Qed.

Lemma insights_totals_and_extremes_witness :
  (exists i, compute_insights [] = Ok i /\
             topDistrict i = "N/A" /\ lowDistrict i = "N/A") /\
  fetchData_try sample_network recent_year initial_state
    (snd (setLoading true initial_state)) = (Ok tt, sample_after) /\
  compute_insights (data sample_after) = Ok (insights sample_after).
Proof.
  assert (H : fetchData_try sample_network recent_year initial_state
                (snd (setLoading true initial_state)) = (Ok tt, sample_after))
    by (vm_compute; reflexivity).
  split; [| split; [exact H |]].
  - destruct (proj1 insights_totals_and_extremes [])
      as (i & Hi & _ & _ & _ & He).
    exists i. split; [exact Hi | exact (He eq_refl)].
  - exact (proj1 (proj2 insights_totals_and_extremes _ _ _ _ H)).
Defined.

(** C6.  [avgHouseholds] is [Math.round(totalHouseholds / count)] when
    there is at least one aggregate, and 0 when there is none: no
    division takes place on the empty sequence. *)
Theorem average_households_guarded :
  forall arr, exists i,
    compute_insights arr = Ok i /\
    avgHouseholds i =
    match arr with
    | [] => zero
    | _ :: _ =>
        Math_round (div (totalHouseholds i) (length_number arr))
    end.
Proof.
  intros arr. eexists. split; [apply compute_insights_eq |].
  destruct arr; reflexivity.
Qed.

(** C7, amended.  Aggregation does not depend on the order of the rows
    when every addition is exact: if, for each of the seven measures,
    the normalised values are integers whose absolute values add up to
    less than [2^53], then for any permutation of the rows every
    aggregate has a counterpart with the same district key and the same
    seven sums. *)
Theorem aggregation_order_independent_when_exact :
  forall st rows rows' norm,
    Permutation rows rows' ->
    mapM (normalize st) rows = Ok norm ->
    Forall (exact_measure norm) measures ->
    exists agg agg',
      aggregate st rows = Ok agg /\ aggregate st rows' = Ok agg' /\
      (forall d, In d agg ->
         exists d', In d' agg' /\ district_name d' = district_name d /\
                    Forall (fun f => f d' = f d) measures) /\
      (forall d', In d' agg' ->
         exists d, In d agg /\ district_name d = district_name d' /\
                   Forall (fun f => f d = f d') measures).
Proof.
  intros st rows rows' norm HP Hn Hex.
  destruct (mapM_Permutation _ _ _ HP _ Hn) as (norm' & Hn' & HPn).
  set (keep := fun n => negb (is_empty (district_display n))).
  exists (Object_values (group_by_district (filter keep norm))),
         (Object_values (group_by_district (filter keep norm'))).
  split; [now apply aggregate_eq | split; [now apply aggregate_eq |]].
  pose proof (filter_Permutation keep _ _ HPn) as HPk.
  assert (Hk : Forall (exact_measure (filter keep norm)) measures).
  { eapply Forall_impl; [| exact Hex].
    intros f. apply exact_measure_filter. }
  split.
  - now apply aggregates_agree.
  - apply aggregates_agree; [now apply Permutation_sym |].
    eapply Forall_impl; [| exact Hk].
    intros f. now apply exact_measure_Permutation.
Qed.

Lemma aggregation_order_independent_when_exact_witness :
  Permutation sample_rows (rev sample_rows) /\
  mapM (normalize "TAMIL NADU") sample_rows = Ok sample_norm /\
  Forall (exact_measure sample_norm) measures /\
  exists agg agg',
    aggregate "TAMIL NADU" sample_rows = Ok agg /\
    aggregate "TAMIL NADU" (rev sample_rows) = Ok agg' /\
    (forall d, In d agg ->
       exists d', In d' agg' /\ district_name d' = district_name d /\
                  Forall (fun f => f d' = f d) measures) /\
    (forall d', In d' agg' ->
       exists d, In d agg /\ district_name d = district_name d' /\
                 Forall (fun f => f d = f d') measures).
Proof.
  assert (HP : Permutation sample_rows (rev sample_rows))
    by apply Permutation_rev.
  assert (Hn : mapM (normalize "TAMIL NADU") sample_rows = Ok sample_norm)
    by (vm_compute; reflexivity).
  assert (He : Forall (exact_measure sample_norm) measures).
  { repeat constructor; vm_compute; reflexivity. }
  split; [exact HP | split; [exact Hn | split; [exact He |]]].
  exact (aggregation_order_independent_when_exact _ _ _ _ HP Hn He).
Defined.

(** C7 as stated fails, because binary64 addition is not associative:
    the rows of one district with expenditures 0.1, 0.2 and 0.3 sum to
    0.6000000000000001, and in the opposite order to 0.6. *)
Lemma aggregation_order_dependent :
  ~ (forall st rows rows' agg agg',
       Permutation rows rows' ->
       aggregate st rows = Ok agg -> aggregate st rows' = Ok agg' ->
       forall d d', In d agg -> In d' agg' ->
         district_name d = district_name d' ->
         Forall (fun f => f d = f d') measures).
Proof.
  intros H.
  set (r1 := expenditure_row "Salem" "0.1").
  set (r2 := expenditure_row "Salem" "0.2").
  set (r3 := expenditure_row "Salem" "0.3").
  assert (HP : Permutation [r1; r2; r3] [r3; r2; r1]).
  { apply (perm_trans (l' := [r2; r1; r3])); [apply perm_swap |].
    apply (perm_trans (l' := [r2; r3; r1])); [apply perm_skip, perm_swap |].
    apply perm_swap. }
  destruct (aggregate "TAMIL NADU" [r1; r2; r3]) as [agg |] eqn:E1;
    [| vm_compute in E1; discriminate].
  destruct (aggregate "TAMIL NADU" [r3; r2; r1]) as [agg' |] eqn:E2;
    [| vm_compute in E2; discriminate].
  specialize (H _ _ _ _ _ HP E1 E2).
  vm_compute in E1, E2. inversion E1; inversion E2; subst agg agg'.
  specialize (H _ _ (or_introl eq_refl) (or_introl eq_refl) eq_refl).
  rewrite Forall_forall in H.
  specialize (H Total_Exp). simpl in H.
  assert (Hin : In Total_Exp measures) by (simpl; tauto).
  specialize (H Hin). discriminate H.
Qed.

(** C8.  [fetchData] never throws and always ends with the loading
    indicator cleared.  A response with a non-success status is a
    failure of the request; in single-year mode a failed request reaches
    the handler of the cycle, which logs it, and the displayed data, the
    insights and the raw records are those of before. *)
Theorem single_year_failure_keeps_state :
  forall net opts s,
    let y := option_or (yearOverride opts) (year s) in
    let q := year_query (stateName s)
               (option_or (districtOverride opts) (districtFilter s)) y in
    let s' := snd (fetchData net opts s) in
    loading s' = false /\
    fst (fetchData net opts s) = Ok tt /\
    (forall status body,
       net q = Response false status body ->
       read_body (net q) = Throw (HttpError status)) /\
    (forall e,
       String.eqb y "All" = false ->
       read_body (net q) = Throw e ->
       data s' = data s /\ insights s' = insights s /\
       rawRecords s' = rawRecords s /\
       console s' = console s ++ [Error e]).
Proof.
  intros net opts s y q s'. subst s'. rewrite fetchData_run.
  split; [| split; [| split]].
  - destruct (fetchData_try net opts s _) as [[[] | e] s2]; reflexivity.
  - destruct (fetchData_try net opts s _) as [[[] | e] s2]; reflexivity.
  - intros status body ->. reflexivity.
  - intros e Hy He. unfold fetchData_try. fold y.
    rewrite try_block_run, (fetch_rows_single _ _ _ _ _ Hy). fold q.
    rewrite He. cbn. auto.
Qed.

Lemma single_year_failure_keeps_state_witness :
  String.eqb "2023-2024" "All" = false /\
  sample_network (year_query "TAMIL NADU" "" "2023-2024")
  = Response false 500 None /\
  read_body (sample_network (year_query "TAMIL NADU" "" "2023-2024"))
  = Throw (HttpError 500) /\
  data (snd (fetchData sample_network single_year initial_state))
  = data initial_state /\
  insights (snd (fetchData sample_network single_year initial_state))
  = insights initial_state /\
  rawRecords (snd (fetchData sample_network single_year initial_state))
  = rawRecords initial_state /\
  console (snd (fetchData sample_network single_year initial_state))
  = console initial_state ++ [Error (HttpError 500)].
Proof.
  split; [reflexivity | split; [reflexivity | split]].
  - apply (proj1 (proj2 (proj2
             (single_year_failure_keeps_state sample_network single_year
                initial_state))) 500 None).
    reflexivity.
  - apply (proj2 (proj2 (proj2
             (single_year_failure_keeps_state sample_network single_year
                initial_state))) (HttpError 500)); reflexivity.
Defined.

(** C9.  When the response is a success whose body is a bare array of
    rows, or an object holding such an array under [data], the per-year
    helper returns that array (the empty array included). *)
Theorem fetchForYear_returns_bare_rows :
  forall net st dov y s status json rows,
    net (year_query st dov y) = Response true status (Some json) ->
    json = VArr rows \/
    (exists fs, json = VObj fs /\ lookup "data" fs = Some (VArr rows)) ->
    fst (fetchForYear net st dov y s) = Ok (VArr rows).
Proof.
  intros net st dov y s status json rows Hnet Hjson.
  rewrite fetchForYear_run. cbn [fst]. rewrite Hnet.
  apply read_body_rows.
  destruct Hjson as [-> | (fs & -> & Hd)]; [left | right]; eauto.
Qed.

Lemma fetchForYear_returns_bare_rows_witness :
  empty_network (year_query "TAMIL NADU" "" "2024-2025")
  = Response true 200 (Some (VObj [("data", VArr [])])) /\
  fst (fetchForYear empty_network "TAMIL NADU" "" "2024-2025" initial_state)
  = Ok (VArr []).
Proof.
  split; [reflexivity |].
  apply (fetchForYear_returns_bare_rows empty_network "TAMIL NADU" ""
           "2024-2025" initial_state 200 (VObj [("data", VArr [])]) []).
  - reflexivity.
  - right. exists [("data", VArr [])]. split; reflexivity.
Defined.

(** C10.  When the [try] block of a cycle completes, the insights it
    set are those displayed afterwards, and their [totalPersondays] is
    0 whatever the rows were. *)
Theorem successful_cycle_zero_persondays :
  forall net opts s s2,
    fetchData_try net opts s (snd (setLoading true s)) = (Ok tt, s2) ->
    insights (snd (fetchData net opts s)) = insights s2 /\
    totalPersondays (insights (snd (fetchData net opts s))) = zero.
Proof.
  intros net opts s s2 H. rewrite fetchData_run, H. cbn [snd setLoading insights].
  split; [reflexivity |].
  unfold fetchData_try in H. rewrite try_block_run in H.
  destruct (fetch_rows _ _ _ _ _) as [[allRows | e] s1]; [| discriminate].
  apply publish_insights in H as (arr & _ & _ & _ & Hi).
  rewrite compute_insights_eq in Hi. injection Hi as Hi. now rewrite <- Hi.
Qed.

Lemma successful_cycle_zero_persondays_witness :
  fetchData_try sample_network recent_year initial_state
    (snd (setLoading true initial_state)) = (Ok tt, sample_after) /\
  totalPersondays
    (insights (snd (fetchData sample_network recent_year initial_state)))
  = zero.
Proof.
  assert (H : fetchData_try sample_network recent_year initial_state
                (snd (setLoading true initial_state)) = (Ok tt, sample_after))
    by (vm_compute; reflexivity).
  split; [exact H |].
  exact (proj2 (successful_cycle_zero_persondays _ _ _ _ H)).
Defined.

(* ===================================================================== *)
(** * Further properties of the code *)
(* ===================================================================== *)

(** X1.  What the cycle hands to [setData]: the aggregates that pass the
    visible filter, each exactly once; their keys are pairwise distinct,
    non-empty, free of lower-case letters, and contain the filter text
    when there is one; there are at most as many aggregates as rows. *)
Theorem displayed_aggregates_invariants :
  forall st df rows arr,
    final_array st df rows = Ok arr ->
    (exists agg, aggregate st rows = Ok agg /\
                 Permutation arr (apply_district_filter df agg)) /\
    NoDup (map district_name arr) /\
    Forall (fun d =>
              is_empty (district_name d) = false /\
              upper_cased (district_name d) /\
              (is_empty (trim df) = false ->
               includes (district_name d) (toUpperCase (trim df)) = true))
           arr /\
    (List.length arr <= List.length rows)%nat.
Proof.
  intros st df rows arr H. unfold final_array in H.
  destruct (aggregate st rows) as [agg |] eqn:Ea; cbn [bind] in H;
    [| discriminate].
  injection H as <-.
  pose proof (Array_sort_perm by_expenditure (apply_district_filter df agg))
    as HP.
  unfold aggregate in Ea.
  destruct (mapM (normalize st) rows) as [norm |] eqn:En; cbn [bind] in Ea;
    [| discriminate].
  injection Ea as <-.
  set (kept := filter valid_district norm) in *.
  set (agg := Object_values (group_by_district kept)) in *.
  destruct (aggregates_of kept) as (Hnd & _ & Hagg).
  fold agg in Hnd, Hagg.
  assert (Hsub : forall d, In d (apply_district_filter df agg) -> In d agg).
  { intros d. rewrite apply_district_filter_eq.
    destruct (is_empty _); [auto |]. intros Hd. now apply filter_In in Hd. }
  split; [| split; [| split]].
  - exists agg. split; [reflexivity | exact HP].
  - apply (Permutation_NoDup (Permutation_map district_name
                                (Permutation_sym HP))).
    rewrite apply_district_filter_eq.
    destruct (is_empty _); [exact Hnd |].
    clear - Hnd. induction agg as [| a agg IH]; simpl in *; [constructor |].
    inversion Hnd as [| ? ? Hn Hnd']; subst.
    destruct (includes _ _); [| now apply IH]. simpl. constructor.
    + intros Hin. apply Hn. apply in_map_iff in Hin as (x & Ex & Hx).
      apply filter_In in Hx as [Hx _]. apply in_map_iff. eauto.
    + now apply IH.
  - apply Forall_forall. intros d Hd.
    apply (Permutation_in _ HP) in Hd.
    assert (Hda : In d agg) by auto.
    destruct (Hagg d Hda) as (first & rest & Hg & Ed).
    assert (Hf : In first kept).
    { assert (Hin : In first (group_of (district_name d) kept))
        by (rewrite Hg; now left).
      unfold group_of in Hin. now apply filter_In in Hin. }
    assert (Hk : district_name d = district_name first)
      by (rewrite Ed; apply district_name_fold).
    unfold kept in Hf. apply filter_In in Hf as [Hfn Hfv].
    split; [| split].
    + rewrite Hk. unfold valid_district in Hfv.
      now apply negb_true_iff in Hfv.
    + rewrite Hk.
      pose proof (mapM_Forall2 _ _ _ En) as H2.
      clear - H2 Hfn. induction H2 as [| r n rs ns Hrn _ IH];
        [destruct Hfn |].
      destruct Hfn as [-> | Hfn]; [| now apply IH].
      destruct (normalize_district _ _ _ Hrn) as (raw & text & _ & _ & _ & ->).
      apply toUpperCase_upper_cased.
    + intros Hne. rewrite apply_district_filter_eq, is_empty_toUpperCase, Hne
        in Hd.
      now apply filter_In in Hd.
  - rewrite (Permutation_length HP).
    assert (Hl1 : (List.length (apply_district_filter df agg)
                   <= List.length agg)%nat).
    { rewrite apply_district_filter_eq. destruct (is_empty _); [lia |].
      apply filter_length_le. }
    assert (Hl2 : (List.length agg <= List.length kept)%nat).
    { unfold agg. rewrite (Permutation_length (Object_values_perm _)).
      rewrite length_map. unfold group_by_district.
      pose proof (length_group_fold kept []). simpl in H. exact H. }
    assert (Hl3 : (List.length kept <= List.length norm)%nat)
      by apply filter_length_le.
    rewrite <- (mapM_length _ _ _ En). lia.
Qed.

Lemma displayed_aggregates_invariants_witness :
  final_array "TAMIL NADU" "" sample_rows = Ok sample_final /\
  NoDup (map district_name sample_final) /\
  (List.length sample_final <= List.length sample_rows)%nat.
Proof.
  assert (H : final_array "TAMIL NADU" "" sample_rows = Ok sample_final)
    by (vm_compute; reflexivity).
  split; [exact H |].
  destruct (displayed_aggregates_invariants _ _ _ _ H) as (_ & Hn & _ & Hl).
  split; assumption.
Defined.

(** X2.  The visible district filter keeps the aggregates whose key contains
    the trimmed, upper-cased filter text, in their order; a filter that
    is empty after trimming keeps everything; two filter texts that
    differ only in case or surrounding blanks keep the same aggregates;
    filtering twice is filtering once. *)
Theorem district_filter_normalises_its_text :
  forall df l,
    (is_empty (trim df) = true -> apply_district_filter df l = l) /\
    (is_empty (trim df) = false ->
     apply_district_filter df l
     = filter (fun d => includes (district_name d) (toUpperCase (trim df)))
         l) /\
    (forall df', toUpperCase (trim df') = toUpperCase (trim df) ->
                 apply_district_filter df' l = apply_district_filter df l) /\
    apply_district_filter (toUpperCase (trim df)) l
    = apply_district_filter df l /\
    apply_district_filter df (apply_district_filter df l)
    = apply_district_filter df l.
Proof.
  intros df l. rewrite !apply_district_filter_eq.
  split; [| split; [| split; [| split]]].
  - rewrite is_empty_toUpperCase. now intros ->.
  - rewrite is_empty_toUpperCase. now intros ->.
  - intros df' E. now rewrite apply_district_filter_eq, E.
  - now rewrite trim_toUpperCase, trim_idem, !toUpperCase_idem.
  - destruct (is_empty (toUpperCase (trim df))); [reflexivity |].
    apply filter_idem.
Qed.

Lemma district_filter_normalises_its_text_witness :
  is_empty (trim "   ") = true /\
  apply_district_filter "   " sample_final = sample_final /\
  toUpperCase (trim " Chen ") = toUpperCase (trim "chen") /\
  apply_district_filter " Chen " sample_final
  = apply_district_filter "chen" sample_final.
Proof.
  split; [reflexivity | split; [| split; [reflexivity |]]].
  - apply (proj1 (district_filter_normalises_its_text "   " sample_final)).
    reflexivity.
  - apply (proj1 (proj2 (proj2
             (district_filter_normalises_its_text "chen" sample_final)))).
    reflexivity.
Defined.

(** X3.  The top and bottom cards name extremes: when no total is NaN, the
    first aggregate of the displayed array has a total at least as large
    as every other, the last one a total at most as large, and these two
    give [topDistrict] and [lowDistrict]. *)
Theorem top_and_low_districts_are_extremes :
  forall st df rows arr i,
    final_array st df rows = Ok arr ->
    Forall (fun r => well_formed r = true) rows ->
    Forall (fun d => isNaN (Total_Exp d) = false) arr ->
    compute_insights arr = Ok i ->
    arr <> [] ->
    exists top low,
      In top arr /\ In low arr /\
      topDistrict i = district_display top /\
      lowDistrict i = district_display low /\
      forall d, In d arr ->
        ge (Total_Exp top) (Total_Exp d) = true /\
        ge (Total_Exp d) (Total_Exp low) = true.
Proof.
  intros st df rows arr i H Hw Hn Hi Hne.
  destruct (final_array_sorted _ _ _ _ H Hw Hn) as [Hs Hc].
  rewrite compute_insights_eq in Hi. injection Hi as <-.
  destruct arr as [| a l]; [congruence |].
  exists a, (last l a). cbn [topDistrict lowDistrict map hd].
  split; [now left | split; [apply last_In | split; [reflexivity | split]]].
  - now rewrite last_cons, <- (last_map district_display).
  - intros d Hd. split.
    + now apply (Sorted_first l a).
    + now apply (Sorted_last l a).
Qed.

Lemma top_and_low_districts_are_extremes_witness :
  final_array "TAMIL NADU" "" tied_rows = Ok tied_final /\
  Forall (fun r => well_formed r = true) tied_rows /\
  Forall (fun d => isNaN (Total_Exp d) = false) tied_final /\
  compute_insights tied_final = Ok tied_insights /\
  tied_final <> [] /\
  exists top low,
    In top tied_final /\ In low tied_final /\
    topDistrict tied_insights = district_display top /\
    lowDistrict tied_insights = district_display low /\
    forall d, In d tied_final ->
      ge (Total_Exp top) (Total_Exp d) = true /\
      ge (Total_Exp d) (Total_Exp low) = true.
Proof.
  assert (H : final_array "TAMIL NADU" "" tied_rows = Ok tied_final)
    by (vm_compute; reflexivity).
  assert (Hw : Forall (fun r => well_formed r = true) tied_rows)
    by (repeat constructor).
  assert (Hn : Forall (fun d => isNaN (Total_Exp d) = false) tied_final)
    by (vm_compute; repeat constructor).
  assert (Hi : compute_insights tied_final = Ok tied_insights)
    by (vm_compute; reflexivity).
  assert (Hne : tied_final <> []) by (vm_compute; discriminate).
  split; [exact H | split; [exact Hw | split; [exact Hn |]]].
  split; [exact Hi | split; [exact Hne |]].
  exact (top_and_low_districts_are_extremes _ _ _ _ _ H Hw Hn Hi Hne).
Defined.

(** X4.  Aggregates with equal totals keep the order grouping gave them:
    for any total [t], the aggregates whose total equals [t] come in the
    displayed array in the order they have before the sort. *)
Theorem equal_totals_keep_their_order :
  forall st df rows arr agg t,
    final_array st df rows = Ok arr ->
    aggregate st rows = Ok agg ->
    Forall (fun r => well_formed r = true) rows ->
    Forall (fun d => isNaN (Total_Exp d) = false) arr ->
    filter (fun d => strict_equal (Total_Exp d) t) arr
    = filter (fun d => strict_equal (Total_Exp d) t)
        (apply_district_filter df agg).
Proof.
  intros st df rows arr agg t H Ha Hw Hn.
  pose proof (aggregate_valid _ _ _ Hw Ha) as Hv.
  unfold final_array in H. rewrite Ha in H. cbn [bind] in H.
  injection H as <-.
  apply Array_sort_stable.
  - apply Forall_forall. intros d Hd. split.
    + rewrite Forall_forall in Hv. apply Hv.
      rewrite apply_district_filter_eq in Hd.
      destruct (is_empty _); [exact Hd | now apply filter_In in Hd].
    + rewrite Forall_forall in Hn. apply Hn.
      now apply (Permutation_in _ (Permutation_sym (Array_sort_perm _ _))).
  - intros x y Hx Hy. now apply (strict_equal_not_lt _ _ t).
Qed.

Lemma equal_totals_keep_their_order_witness :
  final_array "TAMIL NADU" "" tied_rows = Ok tied_final /\
  aggregate "TAMIL NADU" tied_rows = Ok tied_aggregates /\
  Forall (fun r => well_formed r = true) tied_rows /\
  Forall (fun d => isNaN (Total_Exp d) = false) tied_final /\
  filter (fun d => strict_equal (Total_Exp d) (of_Z 5)) tied_final
  = filter (fun d => strict_equal (Total_Exp d) (of_Z 5))
      (apply_district_filter "" tied_aggregates).
Proof.
  assert (H : final_array "TAMIL NADU" "" tied_rows = Ok tied_final)
    by (vm_compute; reflexivity).
  assert (Ha : aggregate "TAMIL NADU" tied_rows = Ok tied_aggregates)
    by (vm_compute; reflexivity).
  assert (Hw : Forall (fun r => well_formed r = true) tied_rows)
    by (repeat constructor).
  assert (Hn : Forall (fun d => isNaN (Total_Exp d) = false) tied_final)
    by (vm_compute; repeat constructor).
  split; [exact H | split; [exact Ha | split; [exact Hw | split;
    [exact Hn |]]]].
  exact (equal_totals_keep_their_order _ _ _ _ _ (of_Z 5) H Ha Hw Hn).
Defined.

(** X5.  Grouping conserves the totals.  When the households and the
    expenditures of the rows that have a district are integers whose
    absolute values add up to less than [2^53], the two totals of the
    insight summary are the exact sums of these measures over the rows
    whose district passes the visible filter (over all rows that have a
    district when the filter is blank). *)
Theorem totals_are_conserved :
  forall st df rows norm arr i,
    let kept := filter valid_district norm in
    mapM (normalize st) rows = Ok norm ->
    exact_measure kept Total_Households_Worked ->
    exact_measure kept Total_Exp ->
    final_array st df rows = Ok arr ->
    compute_insights arr = Ok i ->
    totalHouseholds i
    = of_Z (integer_total Total_Households_Worked
              (apply_district_filter df kept)) /\
    totalExpenditure i
    = of_Z (integer_total Total_Exp (apply_district_filter df kept)).
Proof.
  intros st df rows norm arr i kept Hn Hh He Ha Hi.
  rewrite compute_insights_eq in Hi. injection Hi as <-.
  cbn [totalHouseholds totalExpenditure].
  unfold final_array, aggregate in Ha. rewrite Hn in Ha. cbn [bind] in Ha.
  injection Ha as <-. fold kept.
  rewrite !(apply_district_filter_key df kept).
  set (q := fun k => is_empty (toUpperCase (trim df))
                     || includes k (toUpperCase (trim df))).
  assert (HP : Permutation
                 (Array_sort by_expenditure
                    (apply_district_filter df
                       (Object_values (group_by_district kept))))
                 (filter (fun d => q (district_name d))
                    (Object_values (group_by_district kept)))).
  { rewrite apply_district_filter_key. apply Array_sort_perm. }
  split; apply (selected_total _ q kept _); try assumption;
    simpl; tauto.
Qed.

Lemma totals_are_conserved_witness :
  mapM (normalize "TAMIL NADU") sample_rows = Ok sample_norm /\
  exact_measure (filter valid_district sample_norm) Total_Households_Worked /\
  exact_measure (filter valid_district sample_norm) Total_Exp /\
  final_array "TAMIL NADU" "" sample_rows = Ok sample_final /\
  compute_insights sample_final = Ok sample_insights /\
  totalExpenditure sample_insights = of_Z 4000.
Proof.
  assert (Hn : mapM (normalize "TAMIL NADU") sample_rows = Ok sample_norm)
    by (vm_compute; reflexivity).
  assert (Hh : exact_measure (filter valid_district sample_norm)
                 Total_Households_Worked)
    by (split; [repeat constructor | vm_compute; reflexivity]).
  assert (He : exact_measure (filter valid_district sample_norm) Total_Exp)
    by (split; [repeat constructor | vm_compute; reflexivity]).
  assert (Ha : final_array "TAMIL NADU" "" sample_rows = Ok sample_final)
    by (vm_compute; reflexivity).
  assert (Hi : compute_insights sample_final = Ok sample_insights)
    by (vm_compute; reflexivity).
  split; [exact Hn | split; [exact Hh | split; [exact He | split;
    [exact Ha | split; [exact Hi |]]]]].
  exact (proj2 (totals_are_conserved _ _ _ _ _ _ Hn Hh He Ha Hi)).
Defined.

(** X6.  Thousands separators are ignored: a text made of digits and commas
    converts to the integer its digits spell (rounded to the nearest
    number when it has more than 53 bits), the empty text and a text of
    commas to 0. *)
Theorem toNumber_reads_grouped_digits :
  forall s,
    grouped_digits s ->
    toNumber (VStr s) = Ok (of_Z (digits_value s)).
Proof.
  intros s H. unfold toNumber, digits_value. cbn [ToString bind].
  unfold strip_commas, trim, Number.
  rewrite !list_ascii_of_string_of_list_ascii.
  rewrite (filter_digits_of_grouped _ H).
  pose proof (Forall_filter_self is_digit (list_ascii_of_string s)) as Hd.
  rewrite trim_chars_fixed.
  2: now apply clean_start_digits.
  2: now apply clean_end_digits.
  rewrite Number_chars_digits by exact Hd.
  now rewrite isNaN_of_Z.
Qed.

Lemma toNumber_reads_grouped_digits_witness :
  grouped_digits "1,23,45,678" /\
  toNumber (VStr "1,23,45,678") = Ok (of_Z 12345678).
Proof.
  assert (H : grouped_digits "1,23,45,678") by (repeat constructor).
  split; [exact H |].
  exact (toNumber_reads_grouped_digits "1,23,45,678" H).
Defined.

(** X7.  The rows of a successful response are never falsy, so that the
    guard [rows &&] always passes; pushing them fails exactly when they
    are an object with a truthy [length] property (which cannot be
    spread), and otherwise leaves the rows collected so far in place,
    with those of the year after them. *)
Theorem unreadable_rows_are_counted_objects :
  forall res rows acc,
    read_body res = Ok rows ->
    truthy rows = true /\
    ((exists e, push_rows acc rows = Throw e) <->
     (exists fs len, rows = VObj fs /\ lookup "length" fs = Some len /\
                     truthy len = true)) /\
    (forall e, push_rows acc rows = Throw e -> e = TypeError) /\
    (forall out, push_rows acc rows = Ok out -> exists items, out = acc ++ items).
Proof.
  intros res rows acc H. pose proof (read_body_truthy _ _ H) as Ht.
  pose proof (push_rows_cases acc rows Ht) as Hc.
  split; [exact Ht |].
  destruct rows as [| | b | n | s | xs | fs];
    try (destruct Hc as (items & Hc); rewrite Hc;
         split; [split; [intros (e & He); discriminate
                        | intros (fs & len & E & _); discriminate]
                | split; [intros e He; discriminate
                         | intros out Ho; injection Ho as <-; eauto]]).
  destruct (lookup "length" fs) as [len |] eqn:El.
  - rewrite Hc. destruct (truthy len) eqn:Etl.
    + split; [split; [intros _; eauto | eauto] |].
      split; [intros e He; congruence | intros out Ho; discriminate].
    + split; [split; [intros (e & He); discriminate |] |].
      * intros (fs' & len' & E & El' & Et). injection E as <-. congruence.
      * split; [intros e He; discriminate |].
        intros out Ho. injection Ho as <-. exists []. now rewrite app_nil_r.
  - rewrite Hc.
    split; [split; [intros (e & He); discriminate |] |].
    + intros (fs' & len' & E & El' & Et). injection E as <-. congruence.
    + split; [intros e He; discriminate |].
      intros out Ho. injection Ho as <-. exists []. now rewrite app_nil_r.
Qed.

Lemma unreadable_rows_are_counted_objects_witness :
  read_body (counting_network [])
  = Ok (VObj [("length", VNum (of_Z 3))]) /\
  exists e, push_rows [] (VObj [("length", VNum (of_Z 3))]) = Throw e.
Proof.
  assert (H : read_body (counting_network [])
              = Ok (VObj [("length", VNum (of_Z 3))])) by reflexivity.
  split; [exact H |].
  apply (proj2 (proj1 (proj2
           (unreadable_rows_are_counted_objects _ _ [] H)))).
  exists [("length", VNum (of_Z 3))], (VNum (of_Z 3)).
  split; [reflexivity | split; reflexivity].
Defined.

(** X8.  In all-years mode the console gets one warning for each year that
    fails, in the order of the years, and nothing else while the rows
    are fetched; the other fields of the state but the requests are left
    alone. *)
Theorem all_years_warns_once_per_failed_year :
  forall net st dov s,
    let s' := snd (fetch_rows net st dov "All" s) in
    console s' = console s ++ flat_map (year_warning net st dov) seven_years /\
    (List.length (console s') <= List.length (console s) + 7)%nat /\
    ((forall y, In y seven_years ->
        exists rows, read_body (net (year_query st dov y)) = Ok (VArr rows)) ->
     console s' = console s) /\
    rawRecords s' = rawRecords s /\ loading s' = loading s.
Proof.
  intros net st dov s s'. subst s'. rewrite fetch_rows_all. cbn [snd].
  rewrite console_after_years.
  destruct (after_years_fields net st dov seven_years s)
    as (_ & _ & _ & H4 & H5).
  split; [reflexivity | split; [| split; [| split; assumption]]].
  - rewrite length_app.
    assert (H : forall ys,
               (List.length (flat_map (year_warning net st dov) ys)
                <= List.length ys)%nat).
    { induction ys as [| y ys IH]; cbn [flat_map List.length]; [lia |].
      rewrite length_app. unfold year_warning at 1.
      destruct (let* rows := read_body _ in push_rows [] rows);
        cbn [List.length]; lia. }
    specialize (H seven_years). cbn [seven_years List.length] in H. lia.
  - intros Hall.
    assert (H : forall ys, (forall y, In y ys -> In y seven_years) ->
               flat_map (year_warning net st dov) ys = []).
    { induction ys as [| y ys IH]; intros Hin; [reflexivity |].
      cbn [flat_map]. rewrite IH by (intros z Hz; apply Hin; now right).
      destruct (Hall y (Hin y (or_introl eq_refl))) as (rows & Hr).
      unfold year_warning. rewrite Hr. cbn [bind].
      now rewrite push_rows_array. }
    rewrite H by auto. now rewrite app_nil_r.
Qed.

(** X9.  A cycle whose rows cannot be aggregated has already stored them:
    when the rows are fetched but their aggregation throws (as it does
    when one of them is [null]), the cycle logs the error and keeps the
    displayed data and the insights, but the raw records are the new
    rows. *)
Theorem failed_aggregation_keeps_display_only :
  forall net opts s allRows,
    let st := stateName s in
    let dov := option_or (districtOverride opts) (districtFilter s) in
    let y := option_or (yearOverride opts) (year s) in
    let s' := snd (fetchData net opts s) in
    fst (fetch_rows net st dov y s) = Ok allRows ->
    (In VNull allRows \/ In VUndefined allRows ->
     exists e, final_array st (districtFilter s) allRows = Throw e) /\
    (forall e,
       final_array st (districtFilter s) allRows = Throw e ->
       data s' = data s /\ insights s' = insights s /\
       rawRecords s' = allRows /\ loading s' = false /\
       exists lines, console s' = console s ++ lines ++ [Error e]).
Proof.
  intros net opts s allRows st dov y s' Hf. split.
  - intros Hin. unfold final_array, aggregate.
    assert (H : exists e, mapM (normalize st) allRows = Throw e).
    { destruct Hin as [Hin | Hin];
        apply (mapM_throws _ _ _ TypeError Hin); reflexivity. }
    destruct H as (e & ->). cbn [bind]. eauto.
  - intros e He. subst s'. rewrite fetchData_run. unfold fetchData_try.
    fold st dov y. rewrite try_block_run.
    set (s0 := snd (setLoading true s)).
    rewrite (fetch_rows_outcome net st dov y s s0) in Hf.
    destruct (fetch_rows_fields net st dov y s0)
      as (H1 & H2 & _ & _ & lines & H5).
    destruct (fetch_rows net st dov y s0) as [r s1]. cbn [fst snd] in *.
    subst r. rewrite publish_run, He. cbn.
    rewrite H1, H2, H5. cbn.
    repeat split. exists lines. now rewrite app_assoc.
Qed.

Lemma failed_aggregation_keeps_display_only_witness :
  fst (fetch_rows null_row_network "TAMIL NADU" "" "2024-2025" initial_state)
  = Ok [VNull] /\
  (exists e, final_array "TAMIL NADU" "" [VNull] = Throw e) /\
  final_array "TAMIL NADU" "" [VNull] = Throw TypeError /\
  rawRecords (snd (fetchData null_row_network recent_year initial_state))
  = [VNull] /\
  data (snd (fetchData null_row_network recent_year initial_state))
  = data initial_state.
Proof.
  assert (Hf : fst (fetch_rows null_row_network "TAMIL NADU" "" "2024-2025"
                      initial_state) = Ok [VNull]) by reflexivity.
  assert (He : final_array "TAMIL NADU" "" [VNull] = Throw TypeError)
    by reflexivity.
  pose proof (failed_aggregation_keeps_display_only null_row_network
                recent_year initial_state [VNull] Hf) as [H1 H2].
  split; [exact Hf | split; [| split; [exact He |]]].
  - apply H1. left. now left.
  - destruct (H2 TypeError He) as (Hd & _ & Hr & _). split; assumption.
Defined.

(** X10.  Refreshing twice against an unchanged backend displays what
    refreshing once displays.  A cycle changes neither the year, the
    state name nor the district filter; run again from the state it
    leaves, it sends the same requests, logs the same lines and leaves
    the same data, raw records, insights and loading flag. *)
Theorem refresh_is_idempotent :
  forall net opts s,
    let s1 := snd (fetchData net opts s) in
    let s2 := snd (fetchData net opts s1) in
    (year s1 = year s /\ stateName s1 = stateName s /\
     districtFilter s1 = districtFilter s) /\
    (data s2 = data s1 /\ rawRecords s2 = rawRecords s1 /\
     insights s2 = insights s1 /\ loading s2 = loading s1) /\
    exists lines queries,
      console s1 = console s ++ lines /\
      console s2 = console s1 ++ lines /\
      requests s1 = requests s ++ queries /\
      requests s2 = requests s1 ++ queries.
Proof.
  intros net opts s.
  destruct (uniform_cycle net opts s) as (r & e & H).
  assert (H1 : fetchData net opts s = (r, apply_effect e s)) by apply H.
  assert (H2 : fetchData net opts (apply_effect e s)
               = (r, apply_effect e (apply_effect e s))).
  { unfold fetchData.
    rewrite (fetchData_try_closure net opts s (apply_effect e s));
      [apply H | reflexivity ..]. }
  cbv zeta. rewrite H1. cbn [snd]. rewrite H2. cbn [snd].
  split; [now split |].
  split.
  - unfold apply_effect. cbn. now rewrite !or_kept_twice.
  - exists (logged e), (sent e). now split.
Qed.

(** X11.  Typing a district sends it to the backend but filters the display
    by the text of before.  The handler of the render [c] stores the
    typed text, and the cycle its timer starts never throws, clears the
    loading flag, asks for the years of the mode with the typed text as
    district, and on success displays the aggregates of the fetched rows
    filtered by the district filter of [c]. *)
Theorem typed_district_filters_by_previous_text :
  forall net c v s,
    let s' := snd (district_typed net c v s) in
    fst (district_typed net c v s) = Ok tt /\
    districtFilter s' = v /\ loading s' = false /\
    requests s'
    = requests s
      ++ map (year_query (stateName c) v) (years_requested (year c)) /\
    (forall t allRows arr,
       fst (fetch_rows net (stateName c) v (year c) t) = Ok allRows ->
       final_array (stateName c) (districtFilter c) allRows = Ok arr ->
       data s' = arr).
Proof.
  intros net c v s s'. subst s'. unfold district_typed, bindM.
  cbn [setDistrictFilter].
  set (s0 := {| data := data s; rawRecords := rawRecords s;
                loading := loading s; year := year s;
                stateName := stateName s; districtFilter := v;
                insights := insights s; console := console s;
                requests := requests s |}).
  destruct (cycle_run net
              {| yearOverride := Some (year c); districtOverride := Some v |}
              c s0) as (H1 & H2 & (_ & _ & H3) & H4 & H5).
  cbn [option_or yearOverride districtOverride] in H4, H5.
  split; [exact H1 | split; [exact H3 | split; [exact H2 | split]]].
  - exact H4.
  - intros t allRows arr Hf Ha. exact (proj1 (H5 t allRows arr Hf Ha)).
Qed.

(** X12.  The detected district is cleaned into a key: the text that
    [detectLocation] makes of a district name has no ASCII lower-case
    letter and no white space at either end, and cleaning it again
    changes nothing.  For a name of ASCII characters it is not longer
    than the name and does not depend on the letter case of the name. *)
Theorem detected_district_is_a_key :
  forall s,
    upper_cased (clean_district s) /\
    trim (clean_district s) = clean_district s /\
    toUpperCase (clean_district s) = clean_district s /\
    (ascii_text s ->
     (String.length (clean_district s) <= String.length s)%nat /\
     clean_district (toUpperCase s) = clean_district s).
Proof.
  intros s. split; [apply toUpperCase_upper_cased |].
  split; [apply clean_district_trimmed |].
  split; [apply clean_district_fixed |].
  intros _. split; [apply clean_district_length | apply clean_district_upper].
Qed.

Lemma detected_district_is_a_key_witness :
  ascii_text "Madurai North District" /\
  clean_district "Madurai North District" = "MADURAI" /\
  (String.length (clean_district "Madurai North District")
   <= String.length "Madurai North District")%nat /\
  clean_district (toUpperCase "Madurai North District")
  = clean_district "Madurai North District".
Proof.
  assert (H : ascii_text "Madurai North District") by (repeat constructor).
  split; [exact H | split; [vm_compute; reflexivity |]].
  exact (proj2 (proj2 (proj2
           (detected_district_is_a_key "Madurai North District"))) H).
Defined.



(** X14.  The OTP form accepts exactly the texts that spell the OTP: with a
    mobile number and an OTP [n] (a positive integer) passed on by the
    login page, an entry made of digits is verified when its digits
    spell [n], leading zeros allowed, and refused otherwise. *)
Theorem verifyOtp_accepts_the_otp_only :
  forall mobile n entered,
    truthy mobile = true ->
    0 < n < 2 ^ 53 ->
    digits_only entered ->
    digits_value entered < 2 ^ 53 ->
    verifyOtp mobile (VNum (of_Z n)) entered
    = if digits_value entered =? n then Verified else WrongOtp.
Proof.
  intros mobile n entered Hm Hn Hd Hv. unfold verifyOtp.
  assert (Hs : safe n) by (unfold safe; lia).
  rewrite Hm, truthy_of_Z by (assumption || lia). cbn [negb orb].
  unfold strict_equals, Number. rewrite Number_chars_digits by exact Hd.
  assert (Hf : filter is_digit (list_ascii_of_string entered)
               = list_ascii_of_string entered).
  { apply forallb_filter_id. now apply forallb_forall, Forall_forall. }
  unfold digits_value in *. rewrite Hf in *.
  pose proof (decimal_value_nonneg _ Hd).
  rewrite strict_equal_of_Z; [reflexivity | unfold safe; lia | exact Hs].
Qed.

Lemma verifyOtp_accepts_the_otp_only_witness :
  truthy (VStr "9876543210") = true /\
  0 < 4821 < 2 ^ 53 /\
  digits_only "04821" /\
  digits_value "04821" < 2 ^ 53 /\
  verifyOtp (VStr "9876543210") otp_sample "04821" = Verified.
Proof.
  assert (Hd : digits_only "04821") by (repeat constructor).
  assert (Hn : 0 < 4821 < 2 ^ 53) by (split; reflexivity).
  assert (Hv : digits_value "04821" < 2 ^ 53) by reflexivity.
  split; [reflexivity | split; [exact Hn | split; [exact Hd | split;
    [exact Hv |]]]].
  exact (verifyOtp_accepts_the_otp_only (VStr "9876543210") 4821 "04821"
           eq_refl Hn Hd Hv).
Defined.

(** X15.  The aggregates come out of [Object.values] with the districts whose
    key is an array index first, by ascending index, followed by the
    other districts in the order of their first row; when no key is an
    array index this is the order of first appearance. *)
Theorem aggregates_listed_in_key_order :
  forall st rows norm,
    mapM (normalize st) rows = Ok norm ->
    let ks := first_keys (filter valid_district norm) in
    exists agg numeric named,
      aggregate st rows = Ok agg /\
      map district_name agg = numeric ++ named /\
      named = filter (fun k => negb (is_index k)) ks /\
      Permutation numeric (filter is_index ks) /\
      Sorted Z.le (map index_of numeric) /\
      (Forall (fun k => is_index k = false) ks ->
       map district_name agg = ks).
Proof.
  intros st rows norm Hn ks.
  set (kept := filter valid_district norm) in *.
  set (o := group_by_district kept).
  pose proof (groups_keyed kept) as Hk. fold o in Hk.
  pose proof (keys_of_groups kept) as Hks. fold o ks in Hks.
  exists (Object_values o),
         (map district_name (map snd (index_entries o))),
         (map district_name (named_entries o)).
  assert (Hnamed : map district_name (named_entries o)
                   = filter (fun k => negb (is_index k)) ks).
  { rewrite named_entries_filter, keyed_names by now apply Forall_filter.
    now rewrite (filter_map_fst (fun k => negb (is_index k))), Hks. }
  assert (Hix : Forall (fun ia => array_index (district_name (snd ia))
                                  = Some (fst ia)) (index_entries o)).
  { apply Forall_forall. intros [i d] Hin.
    apply (Permutation_in _ (index_entries_perm o)) in Hin.
    apply in_map_iff in Hin as ([k d'] & E & Hin). simpl in E.
    injection E as <- <-. apply filter_In in Hin as [Hin Hi].
    rewrite Forall_forall in Hk. specialize (Hk _ Hin). simpl in Hk, Hi |- *.
    rewrite Hk. unfold is_index, index_of in *.
    now destruct (array_index k). }
  assert (Hperm : Permutation (map district_name (map snd (index_entries o)))
                    (filter is_index ks)).
  { apply (perm_trans
             (l' := map district_name
                      (map snd (filter (fun kv => is_index (fst kv)) o)))).
    - apply Permutation_map.
      rewrite (Permutation_map snd (index_entries_perm o)), map_map.
      reflexivity.
    - rewrite keyed_names by now apply Forall_filter.
      now rewrite (filter_map_fst is_index), Hks. }
  assert (Hsorted : Sorted Z.le
                      (map index_of
                         (map district_name (map snd (index_entries o))))).
  { replace (map index_of (map district_name (map snd (index_entries o))))
      with (map fst (index_entries o)); [apply index_entries_sorted |].
    rewrite !map_map. apply map_ext_in. intros ia Hia.
    rewrite Forall_forall in Hix. unfold index_of. now rewrite (Hix ia Hia). }
  split; [unfold aggregate; now rewrite Hn |].
  split; [unfold Object_values; now rewrite map_app |].
  split; [exact Hnamed | split; [exact Hperm | split; [exact Hsorted |]]].
  intros Hall. unfold Object_values. rewrite map_app, Hnamed.
  assert (E : map district_name (map snd (index_entries o)) = []).
  { apply Permutation_nil. rewrite Hperm.
    now rewrite (filter_all_false is_index ks Hall). }
  rewrite E. cbn [app]. apply filter_all_true.
  eapply Forall_impl; [| exact Hall]. intros k ->. reflexivity.
Qed.

Lemma aggregates_listed_in_key_order_witness :
  mapM (normalize "TAMIL NADU") numbered_rows = Ok numbered_norm /\
  first_keys (filter valid_district numbered_norm) = ["SALEM"; "12"; "7"] /\
  exists agg numeric named,
    aggregate "TAMIL NADU" numbered_rows = Ok agg /\
    map district_name agg = numeric ++ named /\
    named = ["SALEM"] /\
    Permutation numeric ["12"; "7"] /\
    Sorted Z.le (map index_of numeric).
Proof.
  assert (H : mapM (normalize "TAMIL NADU") numbered_rows = Ok numbered_norm)
    by (vm_compute; reflexivity).
  split; [exact H | split; [vm_compute; reflexivity |]].
  destruct (aggregates_listed_in_key_order "TAMIL NADU" _ _ H)
    as (agg & numeric & named & H1 & H2 & H3 & H4 & H5 & _).
  exists agg, numeric, named.
  split; [exact H1 | split; [exact H2 | split; [exact H3 | split;
    [exact H4 | exact H5]]]].
Defined.

(** X16.  Every displayed aggregate is labelled by the first row of its
    district: its key, display name, state, year and month are those
    the first row with that district was normalised to.  So its year
    and its month are never falsy (a dash replaces a missing one), and
    its state is falsy only when the row has none and the state name of
    the component is empty. *)
Theorem aggregates_are_labelled_by_their_first_row :
  forall st df rows norm arr,
    mapM (normalize st) rows = Ok norm ->
    final_array st df rows = Ok arr ->
    Forall (fun d =>
              (exists first rest,
                 group_of (district_name d) (filter valid_district norm)
                 = first :: rest /\
                 described_by first d) /\
              truthy (fin_year d) = true /\ truthy (month d) = true /\
              (is_empty st = false -> truthy (state_name d) = true))
           arr.
Proof.
  intros st df rows norm arr Hn H.
  unfold final_array, aggregate in H. rewrite Hn in H. cbn [bind] in H.
  injection H as <-.
  set (kept := filter valid_district norm).
  destruct (aggregates_of kept) as (_ & _ & Hagg).
  apply Forall_forall. intros d Hd.
  apply (Permutation_in _ (Array_sort_perm by_expenditure _)) in Hd.
  rewrite apply_district_filter_key in Hd. apply filter_In in Hd as [Hd _].
  destruct (Hagg d Hd) as (first & rest & Hg & Ed).
  pose proof (described_by_fold rest first) as Hdesc. rewrite <- Ed in Hdesc.
  assert (Hf : In first norm).
  { assert (Hin : In first (group_of (district_name d) kept))
      by (rewrite Hg; now left).
    unfold group_of, kept in Hin.
    apply filter_In in Hin as [Hin _]. now apply filter_In in Hin. }
  assert (Hr : exists r, normalize st r = Ok first).
  { pose proof (mapM_Forall2 _ _ _ Hn) as H2. clear - H2 Hf.
    induction H2 as [| r n rs ns Hrn _ IH]; [destruct Hf |].
    destruct Hf as [-> | Hf]; [eauto | now apply IH]. }
  destruct Hr as (r & Hr).
  destruct (normalize_labels _ _ _ Hr) as (sn & fy & mo & _ & _ & _ & Es & Ey & Em).
  destruct Hdesc as (D1 & D2 & D3 & D4 & D5).
  split; [exists first, rest; split; [exact Hg | repeat split; assumption] |].
  rewrite D3, D4, D5, Es, Ey, Em.
  split; [now apply truthy_or_default |].
  split; [now apply truthy_or_default |].
  apply truthy_or_default.
Qed.

Lemma aggregates_are_labelled_by_their_first_row_witness :
  mapM (normalize "TAMIL NADU") sample_rows = Ok sample_norm /\
  final_array "TAMIL NADU" "" sample_rows = Ok sample_final /\
  Forall (fun d => truthy (fin_year d) = true /\ truthy (month d) = true)
         sample_final /\
  map district_display sample_final = ["Salem"; "Chennai"].
Proof.
  assert (Hn : mapM (normalize "TAMIL NADU") sample_rows = Ok sample_norm)
    by (vm_compute; reflexivity).
  assert (H : final_array "TAMIL NADU" "" sample_rows = Ok sample_final)
    by (vm_compute; reflexivity).
  split; [exact Hn | split; [exact H | split; [| vm_compute; reflexivity]]].
  eapply Forall_impl;
    [| exact (aggregates_are_labelled_by_their_first_row _ _ _ _ _ Hn H)].
  intros d (_ & Hy & Hm & _). split; assumption.
Defined.

(** X17.  The chart shows the ten largest expenditures.  When no total is
    NaN, the slice of the displayed array that is charted has at most
    ten aggregates, each with a total at least as large as every
    aggregate left out; and every person-days value of [topChartData]
    is 0, its names being the display names of the slice. *)
Theorem chart_shows_the_ten_largest :
  forall st df rows arr,
    final_array st df rows = Ok arr ->
    Forall (fun r => well_formed r = true) rows ->
    Forall (fun d => isNaN (Total_Exp d) = false) arr ->
    (List.length (slice 0 10 arr) <= 10)%nat /\
    arr = slice 0 10 arr ++ skipn 10 arr /\
    (forall d d', In d (slice 0 10 arr) -> In d' (skipn 10 arr) ->
                  ge (Total_Exp d) (Total_Exp d') = true) /\
    topChartData arr
    = Ok (map (fun d => (district_display d, zero)) (slice 0 10 arr)).
Proof.
  intros st df rows arr H Hw Hn.
  destruct (final_array_sorted _ _ _ _ H Hw Hn) as [Hs Hc].
  unfold topChartData, slice. cbn [skipn Nat.sub].
  split; [apply firstn_le_length |].
  split; [symmetry; apply firstn_skipn |].
  split.
  - intros d d'. apply Sorted_prefix; now rewrite firstn_skipn.
  - change (fun d => let* n := toNumber VUndefined in
                     Ok (district_display d, n))
      with (fun d : NormalizedRecord => Ok (district_display d, zero)).
    clear. induction (firstn 10 arr) as [| d l IH]; [reflexivity |].
    cbn [mapM map bind]. rewrite IH. reflexivity.
Qed.

Lemma chart_shows_the_ten_largest_witness :
  final_array "TAMIL NADU" "" sample_rows = Ok sample_final /\
  Forall (fun r => well_formed r = true) sample_rows /\
  Forall (fun d => isNaN (Total_Exp d) = false) sample_final /\
  topChartData sample_final = Ok [("Salem", zero); ("Chennai", zero)].
Proof.
  assert (H : final_array "TAMIL NADU" "" sample_rows = Ok sample_final)
    by (vm_compute; reflexivity).
  assert (Hw : Forall (fun r => well_formed r = true) sample_rows)
    by (repeat constructor).
  assert (Hn : Forall (fun d => isNaN (Total_Exp d) = false) sample_final)
    by (vm_compute; repeat constructor).
  split; [exact H | split; [exact Hw | split; [exact Hn |]]].
  exact (proj2 (proj2 (proj2 (chart_shows_the_ten_largest _ _ _ _ H Hw Hn)))).
Defined.
